(** * Surrealigrate: the migration sequencing engine of [src/index.js]

    A shallow embedding of the functions [getMigrationFiles],
    [getCurrentVersion], [setCurrentVersion], [executeMigration], [migrate],
    [rollback], [getCurrentVersionInfo] and [getInfo], and the properties of
    the ordering, failure handling and ledger state that follow from them;
    [loadConfig] is embedded on its own, over the configuration that
    [config.js] exports and the document that the YAML file holds.

    Conventions of the embedding, and the runs on which it is the program.
    - JavaScript numbers are the type [num]: an exact integer, [NaN] or
      an infinity.  [parseInt] yields integers or [NaN] and [Math.max] of
      no argument yields [-Infinity].  The program computes with doubles:
      the two agree on the safe integers ([|z| < 2^53]), where [parseInt],
      the comparisons and [currentVersion - 1] are exact.  The properties
      whose statement depends on the value of a number assume [safe_run]:
      the tokens of the listing, the version given with [--to] and the
      versions of the ledger are safe.
    - File names are ASCII strings without path separators, as [readdir]
      lists them; a script is identified with the file that holds it.
    - The unit mapping is a JavaScript object used as a map: an association
      list in insertion order, with [Object_keys] giving the own keys in
      the order of the language (array indices ascending, then the other
      keys as inserted).  The members that an object inherits from
      [Object.prototype] are not in the association list: the embedding is
      the program on the listings where no token names one
      ([own_tokens]), which the properties about the scan assume; listings
      whose tokens all parse to a number ([numeric_versions]) are of this
      kind.
    - [Array.prototype.sort] is a stable insertion sort.  Every stable sort
      agrees with it when the comparator is consistent, that is when every
      key parses to a number ([sort_ascending_is_the_stable_sort]); the
      properties that depend on the order of the loops assume
      [numeric_versions].
    - The external database is a record [db] with the table [migrations]
      (defined or not, with its unique index on [version] or not), the
      rows of the ledger, the scripts that are committed and the open
      transaction.  [connectToDatabase] defines the index with the table,
      where the table is missing; the index, where it is defined, refuses
      a second row of a version.  Scripts do not write to the ledger table.
      What the outside world decides (the directory listing, whether the
      connection, the ledger read and each script succeed) is the record
      [env]; the files that [readdir] lists can be read, the statements of
      a transaction succeed, and a write of the ledger fails only by the
      unique index. *)

From Stdlib Require Import ZArith List Bool Ascii String Lia Permutation Sorted.
Import ListNotations.

Local Open Scope string_scope.
Local Open Scope list_scope.
Local Open Scope Z_scope.

(** ** JavaScript numbers *)

Inductive num : Type :=
| NaN
| NegInf
| PosInf
| Fin (z : Z).

(** [a < b] *)
Definition js_lt (a b : num) : bool :=
  match a, b with
  | Fin x, Fin y => x <? y
  | NegInf, Fin _ | NegInf, PosInf | Fin _, PosInf => true
  | _, _ => false
  end.

(** [a === b] on numbers *)
Definition js_eq (a b : num) : bool :=
  match a, b with
  | Fin x, Fin y => x =? y
  | NegInf, NegInf | PosInf, PosInf => true
  | _, _ => false
  end.

(** [a <= b] *)
Definition js_le (a b : num) : bool := js_lt a b || js_eq a b.

(** [a > b] *)
Definition js_gt (a b : num) : bool := js_lt b a.

(** [a >= b] *)
Definition js_ge (a b : num) : bool := js_le b a.

(** [a - b] *)
Definition js_sub (a b : num) : num :=
  match a, b with
  | Fin x, Fin y => Fin (x - y)
  | NegInf, Fin _ | NegInf, PosInf | Fin _, PosInf => NegInf
  | PosInf, Fin _ | PosInf, NegInf | Fin _, NegInf => PosInf
  | _, _ => NaN
  end.

(** [Math.max(a, b)] *)
Definition js_max2 (a b : num) : num :=
  match a, b with
  | NaN, _ | _, NaN => NaN
  | PosInf, _ | _, PosInf => PosInf
  | NegInf, y => y
  | x, NegInf => x
  | Fin x, Fin y => Fin (Z.max x y)
  end.

(** [Math.max(...l)]: [-Infinity] when [l] is empty *)
Definition Math_max (l : list num) : num := fold_left js_max2 l NegInf.

(** ** Strings *)

Fixpoint starts_with (p s : string) : bool :=
  match p, s with
  | EmptyString, _ => true
  | String a p', String b s' => Ascii.eqb a b && starts_with p' s'
  | String _ _, EmptyString => false
  end.

(** [s.includes(p)] *)
Fixpoint includes (s p : string) : bool :=
  starts_with p s ||
  match s with
  | EmptyString => false
  | String _ s' => includes s' p
  end.

(** [s.split('.')] *)
Fixpoint split_dot (s : string) : list string :=
  match s with
  | EmptyString => [EmptyString]
  | String c s' =>
      if Ascii.eqb c "."%char then EmptyString :: split_dot s'
      else match split_dot s' with
           | [] => [String c EmptyString]
           | t :: ts => String c t :: ts
           end
  end.

(** [l.join('.')] *)
Fixpoint join_dot (l : list string) : string :=
  match l with
  | [] => EmptyString
  | [t] => t
  | t :: ts => String.append t (String "."%char (join_dot ts))
  end.

(** the name without the extension [ext], when it ends with it and is
    longer *)
Fixpoint strip_ext (file ext : string) : string :=
  match file with
  | EmptyString => EmptyString
  | String c rest =>
      if String.eqb rest ext then String c EmptyString
      else String c (strip_ext rest ext)
  end.

(** [path.basename(file, ext)] for a name without separators *)
Definition basename (file ext : string) : string :=
  if String.eqb file ext then EmptyString else strip_ext file ext.

(** ** [parseInt] *)

Definition is_white (c : ascii) : bool :=
  let n := nat_of_ascii c in
  ((9 <=? n) && (n <=? 13))%nat || (n =? 32)%nat.

Fixpoint skip_white (s : string) : string :=
  match s with
  | String c s' => if is_white c then skip_white s' else s
  | EmptyString => s
  end.

(** value of a digit in the radix, if it is one *)
Definition digit_of (radix : Z) (c : ascii) : option Z :=
  let n := Z.of_nat (nat_of_ascii c) in
  let d := if (48 <=? n) && (n <=? 57) then n - 48
           else if (97 <=? n) && (n <=? 122) then n - 87
           else if (65 <=? n) && (n <=? 90) then n - 55
           else radix in
  if d <? radix then Some d else None.

(** the longest prefix of digits, read in the radix; [acc] is [None] while
    no digit has been read *)
Fixpoint read_digits (radix : Z) (s : string) (acc : option Z) : option Z :=
  match s with
  | EmptyString => acc
  | String c s' =>
      match digit_of radix c with
      | None => acc
      | Some d =>
          read_digits radix s'
            (Some (match acc with None => d | Some a => a * radix + d end))
      end
  end.

(** [parseInt(s)] with no radix: leading white space, a sign, [0x] and the
    longest prefix of digits; [NaN] when no digit follows *)
Definition parseInt (s : string) : num :=
  let s1 := skip_white s in
  let '(neg, s2) :=
    match s1 with
    | String "-"%char r => (true, r)
    | String "+"%char r => (false, r)
    | _ => (false, s1)
    end in
  let '(radix, s3) :=
    match s2 with
    | String "0"%char (String "x"%char r) => (16, r)
    | String "0"%char (String "X"%char r) => (16, r)
    | _ => (10, s2)
    end in
  match read_digits radix s3 None with
  | None => NaN
  | Some n => Fin (if neg then - n else n)
  end.

(** ** JavaScript objects used as maps and arrays of keys *)

(** properties in the order of their creation *)
Definition object (V : Type) : Type := list (string * V).

(** [o[k]]; [None] is [undefined] *)
Fixpoint get {V : Type} (o : object V) (k : string) : option V :=
  match o with
  | [] => None
  | (k', v) :: o' => if String.eqb k' k then Some v else get o' k
  end.

(** [o[k] = v]: an existing property keeps its place, a new one is last *)
Fixpoint set {V : Type} (o : object V) (k : string) (v : V) : object V :=
  match o with
  | [] => [(k, v)]
  | (k', v') :: o' =>
      if String.eqb k' k then (k', v) :: o' else (k', v') :: set o' k v
  end.

(** [arr.sort(cmp)]: stable insertion; [x] passes the elements [y] in front
    of it for which [cmp(y, x) < 0] *)
Fixpoint insert (cmp : string -> string -> num) (x : string)
  (l : list string) : list string :=
  match l with
  | [] => [x]
  | y :: l' =>
      if js_lt (cmp y x) (Fin 0) then y :: insert cmp x l' else x :: y :: l'
  end.

Definition sort (cmp : string -> string -> num) (l : list string)
  : list string :=
  fold_right (insert cmp) [] l.

(** [(a, b) => parseInt(a) - parseInt(b)] *)
Definition ascending (a b : string) : num := js_sub (parseInt a) (parseInt b).

(** [(a, b) => parseInt(b) - parseInt(a)] *)
Definition descending (a b : string) : num := js_sub (parseInt b) (parseInt a).

Definition is_digit (c : ascii) : bool :=
  let n := nat_of_ascii c in ((48 <=? n) && (n <=? 57))%nat.

Fixpoint all_digits (s : string) : bool :=
  match s with
  | EmptyString => true
  | String c s' => is_digit c && all_digits s'
  end.

(** a key that is an array index: the canonical decimal form of an integer
    of [0 .. 2^32 - 2] *)
Definition is_array_index (k : string) : bool :=
  match k with
  | EmptyString => false
  | String c r =>
      all_digits k
      && (negb (Ascii.eqb c "0"%char) || String.eqb r EmptyString)
      && js_le (parseInt k) (Fin 4294967294)
  end.

(** [Object.keys(o)]: the array indices in ascending order, then the other
    keys in the order of their creation *)
Definition Object_keys {V : Type} (o : object V) : list string :=
  let keys := map fst o in
  sort ascending (filter is_array_index keys)
  ++ filter (fun k => negb (is_array_index k)) keys.

(** a value in a condition: [undefined], [null] and the empty string are
    false *)
Definition truthy (o : option string) : bool :=
  match o with
  | Some s => negb (String.eqb s EmptyString)
  | None => false
  end.

(** [parseInt(o)] of an optional string; [parseInt(null)] is [NaN] *)
Definition parseInt_of (o : option string) : num :=
  match o with
  | Some s => parseInt s
  | None => NaN
  end.

(** ** The scanner: [getMigrationFiles] *)

(** a unit: the properties [title], [do] and [undo] of one version *)
Definition migration : Type := object string.

(** the function given to [reduce]: [acc[version]] is created with the
    title when it is missing, then [acc[version][action] = file] *)
Definition scan_file (acc : object migration) (file : string)
  : object migration :=
  let parts := split_dot (basename file ".surql") in
  let version := nth 0 parts "undefined" in
  let action := nth 1 parts "undefined" in
  let title := join_dot (skipn 2 parts) in
  let acc1 :=
    match get acc version with
    | None => set acc version [("title", title)]
    | Some _ => acc
    end in
  match get acc1 version with
  | Some m => set acc1 version (set m action file)
  | None => acc1
  end.

(** [files.filter(...).reduce(..., {})] *)
Definition scan (files : list string) : object migration :=
  fold_left scan_file
    (filter (fun file => includes file ".do." || includes file ".undo.") files)
    [].

(** [migrationFiles[version].title || 'Untitled'] and the like *)
Definition prop (o : object migration) (version name : string)
  : option string :=
  match get o version with
  | Some m => get m name
  | None => None
  end.

(** ** The database, the log and the outside world *)

(** a row of the table [migrations] *)
Record entry : Type := { version : Z; title : option string }.

(** [path.join(directory, file)] *)
Record path : Type := { dir : string; base : string }.

Record db : Type := {
  table_defined : bool;            (* the table [migrations] is defined *)
  version_index : bool;            (* its unique index on [version] is *)
  ledger : list entry;             (* the rows, in the order of creation *)
  committed : list path;           (* the scripts that are committed *)
  transaction : option (list path) (* the scripts of the open transaction *)
}.

(** a statement given to [db.query] *)
Inductive statement : Type :=
| Connect
| Select_latest
| Create (version : num) (title : option string)
| Script (file : path).

Inductive exn : Type :=
| QueryError (q : statement)     (* the error of the database *)
| TypeError_path_join            (* [path.join] of [undefined] *)
| TypeError_destructure.         (* [const {..} = undefined] *)

Inductive message : Type :=
| Connected_to_database
| Created_migrations_table
| Failed_to_connect (e : exn)
| Failed_to_read_migration_files
| Failed_to_get_current_version (e : exn)
| Failed_to_get_current_version_info (e : exn)
| Set_current_version (version : num) (title : option string)
| Failed_to_set_current_version (e : exn)
| Applied_migration (file : string)
| Reverted_migration (file : string)
| Failed_to_apply_migration (file : string) (e : exn)
| Failed_to_revert_migration (file : string) (e : exn)
| Migrating_to_version (version : string) (title : option string)
| Rolling_back_version (version : string) (title : option string)
| Use_rollback_instead (currentVersion targetVersion : num)
| Use_migrate_instead (targetVersion currentVersion : num)
| No_pending_migrations.

Inductive level : Type := info | warn | error.

Record world : Type := { database : db; logged : list (level * message) }.

(** what the program does not decide *)
Record env : Type := {
  readdir : string -> option (list string); (* [None]: it throws *)
  connect_ok : bool;
  select_ok : bool;                         (* the read of the ledger *)
  script_ok : path -> bool                  (* the script runs *)
}.

(** ** Computations: state, exceptions and [process.exit] *)

Inductive result (A : Type) : Type :=
| Return (a : A)
| Throw (e : exn)
| Exit (code : Z).

Arguments Return {A} a.
Arguments Throw {A} e.
Arguments Exit {A} code.

Definition M (A : Type) : Type := env -> world -> result A * world.

Definition ret {A : Type} (a : A) : M A := fun _ w => (Return a, w).

Definition bind {A B : Type} (c : M A) (k : A -> M B) : M B :=
  fun e w =>
    match c e w with
    | (Return a, w') => k a e w'
    | (Throw x, w') => (Throw x, w')
    | (Exit n, w') => (Exit n, w')
    end.

Definition throw {A : Type} (x : exn) : M A := fun _ w => (Throw x, w).

Definition process_exit {A : Type} (code : Z) : M A :=
  fun _ w => (Exit code, w).

(** [try { c } catch (error) { handler error }] *)
Definition try_catch {A : Type} (c : M A) (handler : exn -> M A) : M A :=
  fun e w =>
    match c e w with
    | (Throw x, w') => handler x e w'
    | r => r
    end.

Declare Scope js_scope.
Delimit Scope js_scope with js.
Notation "x <- c ;; k" := (bind c (fun x => k))
  (at level 100, c at next level, right associativity) : js_scope.
Notation "' p <- c ;; k" := (bind c (fun p => k))
  (at level 100, p pattern, c at next level, right associativity) : js_scope.
Notation "c ;; k" := (bind c (fun _ => k))
  (at level 100, right associativity) : js_scope.
Local Open Scope js_scope.

(** [for (const x of l) { body x }] *)
Fixpoint for_of {A : Type} (l : list A) (body : A -> M unit) : M unit :=
  match l with
  | [] => ret tt
  | x :: l' => body x ;; for_of l' body
  end.

Definition logger (lv : level) (m : message) : M unit :=
  fun _ w =>
    (Return tt,
     {| database := database w; logged := logged w ++ [(lv, m)] |}).

(** a change of the database *)
Definition update (f : db -> db) : M unit :=
  fun _ w => (Return tt, {| database := f (database w); logged := logged w |}).

(** ** The statements of [db.query] *)

(** [db.connect], [db.use] and [db.signin] *)
Definition db_connect : M unit :=
  fun e w => if connect_ok e then (Return tt, w) else (Throw (QueryError Connect), w).

(** [INFO FOR DB]: is the table [migrations] defined *)
Definition db_info : M bool :=
  fun _ w => (Return (table_defined (database w)), w).

(** [DEFINE TABLE migrations ...; DEFINE INDEX version ... UNIQUE] *)
Definition db_define : M unit :=
  update (fun d => {| table_defined := true; version_index := true;
                      ledger := ledger d;
                      committed := committed d;
                      transaction := transaction d |}).

(** the row that [ORDER BY version DESC LIMIT 1] keeps *)
Fixpoint latest (l : list entry) : option entry :=
  match l with
  | [] => None
  | x :: l' =>
      match latest l' with
      | Some y => if version x <? version y then Some y else Some x
      | None => Some x
      end
  end.

(** [SELECT * FROM migrations ORDER BY version DESC LIMIT 1] *)
Definition db_select_latest : M (option entry) :=
  fun e w =>
    if select_ok e then (Return (latest (ledger (database w))), w)
    else (Throw (QueryError Select_latest), w).

Definition has_version (v : Z) (l : list entry) : bool :=
  existsb (fun x => version x =? v) l.

(** [CREATE migrations SET version = $version, title = $title]: the unique
    index, where it is defined, refuses a version that is present.  The
    callers pass an integer (the version passed the test of the range); the
    other numbers are refused. *)
Definition db_create (v : num) (t : option string) : M unit :=
  fun e w =>
    match v with
    | Fin z =>
        if version_index (database w) && has_version z (ledger (database w))
        then (Throw (QueryError (Create v t)), w)
        else update (fun d => {| table_defined := table_defined d;
                                 version_index := version_index d;
                                 ledger :=
                                   ledger d
                                   ++ [{| version := z; title := t |}];
                                 committed := committed d;
                                 transaction := transaction d |}) e w
    | _ => (Throw (QueryError (Create v t)), w)
    end.

(** [DELETE migrations WHERE version = $version] *)
Definition db_delete (v : num) : M unit :=
  update (fun d => {| table_defined := table_defined d;
                      version_index := version_index d;
                      ledger := filter (fun x => negb (js_eq (Fin (version x)) v))
                                  (ledger d);
                      committed := committed d;
                      transaction := transaction d |}).

(** [BEGIN TRANSACTION] *)
Definition db_begin : M unit :=
  update (fun d => {| table_defined := table_defined d;
                      version_index := version_index d; ledger := ledger d;
                      committed := committed d; transaction := Some [] |}).

(** the content of a script, run in the open transaction *)
Definition db_script (file : path) : M unit :=
  fun e w =>
    if script_ok e file
    then update (fun d => {| table_defined := table_defined d;
                             version_index := version_index d;
                             ledger := ledger d;
                             committed :=
                               match transaction d with
                               | Some _ => committed d
                               | None => committed d ++ [file]
                               end;
                             transaction :=
                               match transaction d with
                               | Some pending => Some (pending ++ [file])
                               | None => None
                               end |}) e w
    else (Throw (QueryError (Script file)), w).

(** [COMMIT TRANSACTION] *)
Definition db_commit : M unit :=
  update (fun d => {| table_defined := table_defined d;
                      version_index := version_index d; ledger := ledger d;
                      committed :=
                        match transaction d with
                        | Some pending => committed d ++ pending
                        | None => committed d
                        end;
                      transaction := None |}).

(** [CANCEL TRANSACTION] *)
Definition db_cancel : M unit :=
  update (fun d => {| table_defined := table_defined d;
                      version_index := version_index d; ledger := ledger d;
                      committed := committed d; transaction := None |}).

(** ** The program *)

Definition connectToDatabase : M unit :=
  try_catch
    (db_connect ;;
     logger info Connected_to_database ;;
     defined <- db_info ;;
     if negb defined
     then db_define ;; logger info Created_migrations_table
     else ret tt)
    (fun x => logger error (Failed_to_connect x) ;; process_exit 1).

Definition getMigrationFiles (directory : string) : M (object migration) :=
  fun e w =>
    match readdir e directory with
    | Some files => ret (scan files) e w
    | None =>
        (logger error Failed_to_read_migration_files ;; process_exit 1) e w
    end.

(** [x || 0] for the version of the latest row *)
Definition version_or_0 (r : option entry) : num :=
  match r with
  | Some x => if version x =? 0 then Fin 0 else Fin (version x)
  | None => Fin 0
  end.

Definition getCurrentVersion : M num :=
  try_catch
    (r <- db_select_latest ;; ret (version_or_0 r))
    (fun x => logger error (Failed_to_get_current_version x) ;; ret (Fin 0)).

Definition setCurrentVersion (v : num) (t : option string) : M unit :=
  try_catch
    (if truthy t
     then db_create v t ;; logger info (Set_current_version v t)
     else db_create v None ;; logger info (Set_current_version v None))
    (fun x => logger error (Failed_to_set_current_version x) ;; throw x).

Definition executeMigration (filePath : path) (action : string) : M unit :=
  db_begin ;;
  try_catch
    (db_script filePath ;;
     db_commit ;;
     logger info (if String.eqb action "do"
                  then Applied_migration (base filePath)
                  else Reverted_migration (base filePath)))
    (fun x =>
       db_cancel ;;
       logger error (if String.eqb action "do"
                     then Failed_to_apply_migration (base filePath) x
                     else Failed_to_revert_migration (base filePath) x) ;;
       throw x).

(** [path.join(directory, file)]: a [TypeError] when [file] is [undefined] *)
Definition path_join (directory : string) (file : option string) : M path :=
  match file with
  | Some f => ret {| dir := directory; base := f |}
  | None => throw TypeError_path_join
  end.

(** [const { do: doFile, title } = migrationFiles[version]] and the like *)
Definition destructure (migrationFiles : object migration)
  (version name : string) : M (option string * option string) :=
  match get migrationFiles version with
  | Some m => ret (get m name, get m "title")
  | None => throw TypeError_destructure
  end.

(** the body of the loop of [migrate] *)
Definition migrate_version (directory : string)
  (migrationFiles : object migration) (currentVersion targetVersion : num)
  (version : string) : M unit :=
  if js_gt (parseInt version) currentVersion
     && js_le (parseInt version) targetVersion
  then
    '(doFile, title) <- destructure migrationFiles version "do" ;;
    logger info (Migrating_to_version version title) ;;
    filePath <- path_join directory doFile ;;
    executeMigration filePath "do" ;;
    setCurrentVersion (parseInt version) title
  else ret tt.

Definition migrate (directory : string) (toVersion : option string)
  : M unit :=
  connectToDatabase ;;
  migrationFiles <- getMigrationFiles directory ;;
  currentVersion <- getCurrentVersion ;;
  let versions := sort ascending (Object_keys migrationFiles) in
  let targetVersion :=
    if truthy toVersion then parseInt_of toVersion
    else Math_max (map parseInt versions) in
  if js_lt targetVersion currentVersion
  then logger warn (Use_rollback_instead currentVersion targetVersion)
  else if js_eq targetVersion currentVersion
  then logger info No_pending_migrations
  else for_of versions
         (migrate_version directory migrationFiles currentVersion
            targetVersion).

(** the body of the loop of [rollback] *)
Definition rollback_version (directory : string)
  (migrationFiles : object migration) (currentVersion targetVersion : num)
  (version : string) : M unit :=
  if js_le (parseInt version) currentVersion
     && js_gt (parseInt version) targetVersion
  then
    '(undoFile, title) <- destructure migrationFiles version "undo" ;;
    logger info (Rolling_back_version version title) ;;
    filePath <- path_join directory undoFile ;;
    executeMigration filePath "undo" ;;
    db_delete (parseInt version)
  else ret tt.

Definition rollback (directory : string) (toVersion : option string)
  : M unit :=
  connectToDatabase ;;
  migrationFiles <- getMigrationFiles directory ;;
  currentVersion <- getCurrentVersion ;;
  let versions := sort descending (Object_keys migrationFiles) in
  let targetVersion :=
    if truthy toVersion then parseInt_of toVersion
    else js_sub currentVersion (Fin 1) in
  if js_ge targetVersion currentVersion
  then logger warn (Use_migrate_instead targetVersion currentVersion)
  else for_of versions
         (rollback_version directory migrationFiles currentVersion
            targetVersion).

(** the row [{ version, title }] that [getCurrentVersionInfo] returns *)
Record version_info : Type := {
  info_version : num;
  info_title : option string
}.

Definition getCurrentVersionInfo : M version_info :=
  try_catch
    (r <- db_select_latest ;;
     ret match r with
         | Some x => {| info_version := Fin (version x);
                        info_title := title x |}
         | None => {| info_version := Fin 0;
                      info_title := Some "No migrations applied" |}
         end)
    (fun x =>
       logger error (Failed_to_get_current_version_info x) ;;
       ret {| info_version := Fin 0;
              info_title := Some "Error retrieving version info" |}).

Record pending : Type := { pending_version : string; pending_title : string }.

Record status : Type := {
  currentVersion : num;
  currentVersionTitle : option string;
  latestVersion : num;
  pendingMigrations : list pending
}.

Definition getInfo (directory : string) : M status :=
  connectToDatabase ;;
  migrationFiles <- getMigrationFiles directory ;;
  currentVersionInfo <- getCurrentVersionInfo ;;
  let versions := sort ascending (Object_keys migrationFiles) in
  let latest_version := Math_max (map parseInt versions) in
  let pending_migrations :=
    map (fun v =>
           {| pending_version := v;
              pending_title :=
                if truthy (prop migrationFiles v "title")
                then match prop migrationFiles v "title" with
                     | Some t => t
                     | None => "Untitled"
                     end
                else "Untitled" |})
      (filter (fun v => js_gt (parseInt v) (info_version currentVersionInfo))
         versions) in
  ret {| currentVersion := info_version currentVersionInfo;
         currentVersionTitle := info_title currentVersionInfo;
         latestVersion := latest_version;
         pendingMigrations := pending_migrations |}.

(** ** Notions used to state the properties *)

(** the version token of a file name: the key of its unit *)
Definition token (file : string) : string :=
  nth 0 (split_dot (basename file ".surql")) "undefined".

(** [getMigrationFiles] keeps the file: its name holds a direction *)
Definition names_direction (file : string) : bool :=
  includes file ".do." || includes file ".undo.".

(** the keys of the units that a directory holds *)
Definition discovered (files : list string) : list string :=
  Object_keys (scan files).


(** every version token parses to an integer: the comparators of the two
    sorts are consistent *)
Definition numeric_versions (files : list string) : Prop :=
  Forall (fun v => exists z, parseInt v = Fin z) (discovered files).

(** the names of the members of [Object.prototype]: a lookup of such a key
    in an object finds the inherited member *)
Definition Object_prototype : list string :=
  ["constructor"; "__defineGetter__"; "__defineSetter__"; "hasOwnProperty";
   "__lookupGetter__"; "__lookupSetter__"; "isPrototypeOf";
   "propertyIsEnumerable"; "toString"; "valueOf"; "__proto__";
   "toLocaleString"].

Definition prototype_member (k : string) : bool :=
  existsb (String.eqb k) Object_prototype.

(** no file that the scanner keeps has the name of a member of
    [Object.prototype] for token: [acc[version]] is then an own property of
    the unit mapping or [undefined], as [scan_file] has it *)
Definition own_tokens (files : list string) : Prop :=
  forallb (fun file => negb (prototype_member (token file)))
    (filter names_direction files) = true.

(** a number that a double holds exactly and that stays exact when 1 is
    subtracted: [NaN], an infinity, or an integer [z] with [|z| < 2^53] *)
Definition safe (n : num) : bool :=
  match n with
  | Fin z => (- 2 ^ 53 <? z) && (z <? 2 ^ 53)
  | _ => true
  end.

(** the tokens of the files that the scanner keeps parse to safe numbers *)
Definition safe_versions (files : list string) : bool :=
  forallb (fun file => safe (parseInt (token file)))
    (filter names_direction files).

(** the version given with [--to] parses to a safe number *)
Definition safe_target (toVersion : option string) : bool :=
  safe (parseInt_of toVersion).

(** the versions of the rows are safe integers *)
Definition safe_ledger (d : db) : bool :=
  forallb (fun x => safe (Fin (version x))) (ledger d).

(** the numbers of a run are safe: on such a run the exact integers of
    [num] are the doubles of the program *)
Definition safe_run (files : list string) (toVersion : option string)
  (d : db) : Prop :=
  safe_versions files && safe_target toVersion && safe_ledger d = true.

(** the condition of the loop of [migrate] *)
Definition apply_range (current target : num) (v : string) : bool :=
  js_gt (parseInt v) current && js_le (parseInt v) target.

(** the condition of the loop of [rollback] *)
Definition revert_range (current target : num) (v : string) : bool :=
  js_le (parseInt v) current && js_gt (parseInt v) target.

(** the integer of a number that is one *)
Definition int_of (n : num) : Z :=
  match n with
  | Fin z => z
  | _ => 0
  end.

(** the key has the version [z] *)
Definition of_version (z : Z) (k : string) : bool :=
  js_eq (parseInt k) (Fin z).

(** keys in ascending order of their versions *)
Definition ascending_versions (l : list string) : Prop :=
  StronglySorted (fun a b => int_of (parseInt a) <= int_of (parseInt b)) l.

(** keys in descending order of their versions *)
Definition descending_versions (l : list string) : Prop :=
  StronglySorted (fun a b => int_of (parseInt a) >= int_of (parseInt b)) l.

(** the current version that [getCurrentVersion] returns in a state *)
Definition current_version (e : env) (d : db) : num :=
  if select_ok e then version_or_0 (latest (ledger d)) else Fin 0.

(** the target of [migrate] *)
Definition apply_target (files : list string) (toVersion : option string)
  : num :=
  if truthy toVersion then parseInt_of toVersion
  else Math_max (map parseInt (sort ascending (discovered files))).

(** the target of [rollback] *)
Definition revert_target (current : num) (toVersion : option string) : num :=
  if truthy toVersion then parseInt_of toVersion
  else js_sub current (Fin 1).

(** the units that [migrate] selects, in the order of the loop *)
Definition apply_plan (files : list string) (current target : num)
  : list string :=
  filter (apply_range current target)
    (sort ascending (discovered files)).

(** the units that [rollback] selects, in the order of the loop *)
Definition revert_plan (files : list string) (current target : num)
  : list string :=
  filter (revert_range current target)
    (sort descending (discovered files)).

(** the title that [setCurrentVersion] stores *)
Definition stored_title (t : option string) : option string :=
  if truthy t then t else None.

(** the row that applying the unit of key [v] creates *)
Definition unit_entry (mf : object migration) (v : string) : entry :=
  {| version := int_of (parseInt v);
     title := stored_title (prop mf v "title") |}.

(** the script of a unit: [name] is [do] or [undo] *)
Definition unit_script (directory : string) (mf : object migration)
  (name v : string) : option path :=
  option_map (fun f => {| dir := directory; base := f |}) (prop mf v name).

(** the message of [executeMigration] for a script that fails *)
Definition failure_message (action file : string) (x : exn) : message :=
  if String.eqb action "do" then Failed_to_apply_migration file x
  else Failed_to_revert_migration file x.

(** [DELETE] of the versions of the keys [vs], one after the other *)
Definition delete_versions (vs : list string) (l : list entry) : list entry :=
  fold_left
    (fun l v => filter (fun x => negb (js_eq (Fin (version x)) (parseInt v))) l)
    vs l.

(** why a run stops at the unit of key [v], after the units [done] and the
    scripts [executed] *)
Inductive stops_at (e : env) (directory : string) (mf : object migration)
  (action : string) (w' : world) (done : list string)
  (executed : list path) (v : string) : exn -> Prop :=
| stop_no_unit :
    get mf v = None ->
    map Some executed = map (unit_script directory mf action) done ->
    stops_at e directory mf action w' done executed v TypeError_destructure
| stop_no_script :
    get mf v <> None ->
    prop mf v action = None ->
    map Some executed = map (unit_script directory mf action) done ->
    stops_at e directory mf action w' done executed v TypeError_path_join
| stop_script_fails p :
    unit_script directory mf action v = Some p ->
    script_ok e p = false ->
    map Some executed = map (unit_script directory mf action) done ->
    transaction (database w') = None ->
    (exists l,
        logged w'
        = l ++ [(error,
                 failure_message action (base p) (QueryError (Script p)))]) ->
    stops_at e directory mf action w' done executed v (QueryError (Script p))
| stop_write_fails p t :
    unit_script directory mf action v = Some p ->
    script_ok e p = true ->
    map Some executed = map (unit_script directory mf action) (done ++ [v]) ->
    transaction (database w') = None ->
    (forall z, parseInt v = Fin z ->
               has_version z (ledger (database w')) = true) ->
    stops_at e directory mf action w' done executed v
      (QueryError (Create (parseInt v) t)).

(** the world after [connectToDatabase] succeeds *)
Definition connected (w : world) : world :=
  {| database :=
       {| table_defined := true;
          version_index :=
            if table_defined (database w) then version_index (database w)
            else true;
          ledger := ledger (database w);
          committed := committed (database w);
          transaction := transaction (database w) |};
     logged :=
       if table_defined (database w)
       then logged w ++ [(info, Connected_to_database)]
       else (logged w ++ [(info, Connected_to_database)])
              ++ [(info, Created_migrations_table)] |}.

(** the world after [getCurrentVersion] *)
Definition version_read (e : env) (w : world) : world :=
  if select_ok e then w
  else {| database := database w;
          logged := logged w
                    ++ [(error,
                         Failed_to_get_current_version
                           (QueryError Select_latest))] |}.

(** at most one row per version *)
Definition unique_versions (d : db) : Prop := NoDup (map version (ledger d)).

(** the ledger under its index: the index is defined and no version occurs
    twice *)
Definition unique_world (w : world) : Prop :=
  version_index (database w) = true /\ unique_versions (database w).

(** a database before the first connection: no table [migrations], no row *)
Definition fresh (w : world) : Prop :=
  table_defined (database w) = false /\ ledger (database w) = [].

(** the invariant of the ledger, on worlds *)
Definition ledger_invariant (w : world) : Prop := fresh w \/ unique_world w.

(** a computation keeps a property of the world *)
Definition preserves {A : Type} (P : world -> Prop) (c : M A) : Prop :=
  forall e w r w', P w -> c e w = (r, w') -> P w'.

(** the states that the commands reach from a database where the table
    [migrations] is not defined yet: the first connection defines the table
    with its index, and every write of the ledger comes after it *)
Inductive reachable : world -> Prop :=
| reach_fresh w :
    table_defined (database w) = false -> ledger (database w) = [] ->
    reachable w
| reach_migrate directory toVersion e w r w' :
    reachable w -> migrate directory toVersion e w = (r, w') -> reachable w'
| reach_rollback directory toVersion e w r w' :
    reachable w -> rollback directory toVersion e w = (r, w') -> reachable w'
| reach_info directory e w r w' :
    reachable w -> getInfo directory e w = (r, w') -> reachable w'.

(** comparisons of integers, from booleans to arithmetic *)
Ltac order_cases :=
  repeat match goal with
    | H : (_ <? _) = true |- _ => apply Z.ltb_lt in H
    | H : (_ <? _) = false |- _ => apply Z.ltb_ge in H
    | H : (_ =? _) = true |- _ => apply Z.eqb_eq in H
    | H : (_ =? _) = false |- _ => apply Z.eqb_neq in H
    | |- context [?a <? ?b] => destruct (a <? b) eqn:?
    | |- context [?a =? ?b] => destruct (a =? b) eqn:?
    end;
  cbn; try reflexivity; try discriminate; try lia.

(** ** Concrete directories and worlds *)

(** a world where everything succeeds but the scripts of [bad] *)
Definition listing (files : list string) (bad : list string) : env :=
  {| readdir := fun _ => Some files;
     connect_ok := true;
     select_ok := true;
     script_ok := fun p => negb (existsb (String.eqb (base p)) bad) |}.

(** the same world with a ledger that cannot be read *)
Definition unreadable (files : list string) : env :=
  {| readdir := fun _ => Some files;
     connect_ok := true;
     select_ok := false;
     script_ok := fun _ => true |}.

(** a database without the table [migrations] *)
Definition empty_world : world :=
  {| database := {| table_defined := false; version_index := false;
                    ledger := []; committed := []; transaction := None |};
     logged := [] |}.

(** a database with the table, its index and the rows [l] *)
Definition ledger_world (l : list entry) : world :=
  {| database := {| table_defined := true; version_index := true;
                    ledger := l; committed := []; transaction := None |};
     logged := [] |}.

Definition files_1235 : list string :=
  ["3.do.posts.surql"; "3.undo.posts.surql";
   "1.do.init.surql"; "1.undo.init.surql";
   "2.do.users.surql"; "2.undo.users.surql";
   "5.do.tags.surql"; "5.undo.tags.surql"; "README.md"].

Definition files_678 : list string :=
  ["6.do.a.surql"; "7.do.b.surql"; "8.do.c.surql"].

(** version 4 has an [undo] script only *)
Definition files_345 : list string :=
  ["3.do.a.surql"; "4.undo.b.surql"; "5.do.c.surql"].


(** two tokens of version 1 *)
Definition files_1_01 : list string := ["1.do.a.surql"; "01.do.b.surql"].

Definition script (file : string) : path :=
  {| dir := "migrations"; base := file |}.

Definition env_1235 : env := listing files_1235 [].

(** the script of version 7 fails *)
Definition env_678 : env := listing files_678 ["7.do.b.surql"].

Definition env_345 : env := listing files_345 [].


Definition env_1_01 : env := listing files_1_01 [].

(** no file at all *)
Definition env_empty : env := listing [] [].

(** the ledger cannot be read *)
Definition env_unreadable : env := unreadable files_1235.

(** a database where the table is defined without its index *)
Definition world_no_index : world :=
  {| database := {| table_defined := true; version_index := false;
                    ledger := []; committed := []; transaction := None |};
     logged := [] |}.

(** the ledger holds version 5 *)
Definition world_5 : world :=
  ledger_world [{| version := 5; title := Some "e" |}].

(** the ledger holds version 1 *)
Definition world_1 : world :=
  ledger_world [{| version := 1; title := Some "init" |}].

(** the ledger holds the versions 1 and 2 *)
Definition world_12 : world :=
  ledger_world [{| version := 1; title := Some "init" |};
                {| version := 2; title := Some "users" |}].

(** the world that a command leaves *)
Definition after {A : Type} (c : M A) (e : env) (w : world) : world :=
  snd (c e w).

(** ** Notions for the further properties *)

(** the direction token of a file name: the property of its unit that
    receives the file *)
Definition action_of (file : string) : string :=
  nth 1 (split_dot (basename file ".surql")) "undefined".

(** the title that a file name gives *)
Definition title_of (file : string) : string :=
  join_dot (skipn 2 (split_dot (basename file ".surql"))).

(** the files that [getMigrationFiles] keeps, in the order of the listing *)
Definition kept (files : list string) : list string :=
  filter names_direction files.

(** the file is the [action] file of the unit [k] *)
Definition is_script_of (k action : string) (file : string) : bool :=
  String.eqb (token file) k && String.eqb (action_of file) action.

(** the states that the three commands reach from an empty ledger *)
Inductive command_reachable : world -> Prop :=
| from_empty_ledger w :
    ledger (database w) = [] -> command_reachable w
| by_migrate directory toVersion e w r w' :
    command_reachable w -> migrate directory toVersion e w = (r, w') ->
    command_reachable w'
| by_rollback directory toVersion e w r w' :
    command_reachable w -> rollback directory toVersion e w = (r, w') ->
    command_reachable w'
| by_getInfo directory e w r w' :
    command_reachable w -> getInfo directory e w = (r, w') ->
    command_reachable w'.

(** every row has a positive version *)
Definition positive_versions (d : db) : Prop :=
  Forall (fun x => 0 < version x) (ledger d).

(** the entry of [pendingMigrations] for the unit of key [v] *)
Definition pending_of (mf : object migration) (v : string) : pending :=
  {| pending_version := v;
     pending_title :=
       if truthy (prop mf v "title")
       then match prop mf v "title" with
            | Some t => t
            | None => "Untitled"
            end
       else "Untitled" |}.

(** the row that [getCurrentVersionInfo] returns in a state *)
Definition current_info (e : env) (d : db) : version_info :=
  if select_ok e
  then match latest (ledger d) with
       | Some x => {| info_version := Fin (version x);
                      info_title := title x |}
       | None => {| info_version := Fin 0;
                    info_title := Some "No migrations applied" |}
       end
  else {| info_version := Fin 0;
          info_title := Some "Error retrieving version info" |}.

(** the world after [getCurrentVersionInfo] *)
Definition info_read (e : env) (w : world) : world :=
  if select_ok e then w
  else {| database := database w;
          logged := logged w
                    ++ [(error,
                         Failed_to_get_current_version_info
                           (QueryError Select_latest))] |}.

(** the units of the directory have versions that differ *)
Definition distinct_versions (files : list string) : Prop :=
  NoDup (map parseInt (discovered files)).

(** keys in strictly ascending order of their versions *)
Definition strictly_ascending (l : list string) : Prop :=
  StronglySorted (fun a b => int_of (parseInt a) < int_of (parseInt b)) l.

(** no transaction is open *)
Definition no_open_transaction (w : world) : Prop :=
  transaction (database w) = None.

(** ** The configuration: [loadConfig] *)

(** the object [config.database]; a property that is missing is [None], and
    the values are strings *)
Record dbconf : Type := {
  url : option string;
  user : option string;
  pass : option string;
  namespace : option string;
  dbname : option string;
  scope : option string
}.

(** the value of [config.database]: an object, or [None] for a value that
    has no properties to assign ([undefined], [null], a primitive) *)
Definition config : Type := option dbconf.

(** what [fs.readFile] and [yaml.load] give for a path: an error, or a
    document, with the value of its key [database] when it has one *)
Inductive yaml : Type :=
| Yaml_unreadable
| Yaml_document (database_key : option config).

(** the variables of [process.env] that [loadConfig] reads *)
Record environ : Type := {
  DB_URL : option string;
  DB_USER : option string;
  DB_PASS : option string;
  DB_NAMESPACE : option string;
  DB_NAME : option string;
  DB_SCOPE : option string
}.

Inductive config_message : Type :=
| Configuration_loaded_from_YAML_file
| Configuration_loaded_successfully
| Failed_to_load_configuration.

(** [a || b] *)
Definition or_else (a b : option string) : option string :=
  if truthy a then a else b.

(** [Object.assign(config, yamlConfig)], for the key [database] *)
Definition assign (c : config) (y : option config) : config :=
  match y with
  | Some d => d
  | None => c
  end.

(** the six assignments of [loadConfig]; [None] when [config.database] has
    no properties to assign: a [TypeError] *)
Definition override (env : environ) (c : config) : option dbconf :=
  match c with
  | None => None
  | Some d =>
      Some {| url := or_else (DB_URL env) (url d);
              user := or_else (DB_USER env) (user d);
              pass := or_else (DB_PASS env) (pass d);
              namespace := or_else (DB_NAMESPACE env) (namespace d);
              dbname := or_else (DB_NAME env) (dbname d);
              scope := or_else (DB_SCOPE env) (or_else (scope d) None) |}
  end.

(** [loadConfig(configPath)], from the configuration [c] that [config.js]
    exports; the result is the value of [config.database] after the call
    and what is logged *)
Definition loadConfig (load : string -> yaml) (env : environ)
  (configPath : option string) (c : config)
  : result config * list (level * config_message) :=
  let finish (c1 : config) (lg : list (level * config_message)) :=
    match override env c1 with
    | Some d => (Return (Some d),
                 lg ++ [(info, Configuration_loaded_successfully)])
    | None => (Exit 1, lg ++ [(error, Failed_to_load_configuration)])
    end in
  match (if truthy configPath then configPath else None) with
  | Some p =>
      match load p with
      | Yaml_unreadable => (Exit 1, [(error, Failed_to_load_configuration)])
      | Yaml_document y =>
          finish (assign c y) [(info, Configuration_loaded_from_YAML_file)]
      end
  | None => finish c []
  end.

(** the variables that are empty, taken for unset *)
Definition without_empty (env : environ) : environ :=
  {| DB_URL := or_else (DB_URL env) None;
     DB_USER := or_else (DB_USER env) None;
     DB_PASS := or_else (DB_PASS env) None;
     DB_NAMESPACE := or_else (DB_NAMESPACE env) None;
     DB_NAME := or_else (DB_NAME env) None;
     DB_SCOPE := or_else (DB_SCOPE env) None |}.

(** ** Further concrete directories and worlds *)

(** two [do] files for version 1 *)
Definition files_twice : list string :=
  ["1.do.first.surql"; "1.undo.first.surql"; "1.do.second.surql"].



(** the database cannot be reached *)
Definition env_offline : env :=
  {| readdir := fun _ => Some files_1235;
     connect_ok := false;
     select_ok := true;
     script_ok := fun _ => true |}.

(** the scripts of the versions 6, 7 and 8 all run *)
Definition env_678_fixed : env := listing files_678 [].

(** the [undo] script of version 3 fails *)
Definition env_undo_3_fails : env := listing files_1235 ["3.undo.posts.surql"].

(** the ledger holds the versions 1, 2, 3 and 5 *)
Definition world_1235 : world :=
  ledger_world [{| version := 1; title := Some "init" |};
                {| version := 2; title := Some "users" |};
                {| version := 3; title := Some "posts" |};
                {| version := 5; title := Some "tags" |}].

(** a YAML file whose section [database] gives the URL only *)
Definition yaml_url_only (p : string) : yaml :=
  Yaml_document
    (Some (Some {| url := Some "ws://yaml"; user := None; pass := None;
                   namespace := None; dbname := None; scope := None |})).

(** no variable is set *)
Definition environ_empty : environ :=
  {| DB_URL := None; DB_USER := None; DB_PASS := None;
     DB_NAMESPACE := None; DB_NAME := None; DB_SCOPE := None |}.

(** a default configuration *)
Definition config_default : config :=
  Some {| url := Some "ws://default"; user := Some "root";
          pass := Some "root"; namespace := Some "test";
          dbname := Some "test"; scope := None |}.

(** * Properties *)

(** ** The executor and the ledger writes *)

Lemma executeMigration_eq (p : path) (a : string) (e : env) (w : world) :
  executeMigration p a e w =
  if script_ok e p
  then (Return tt,
        {| database :=
             {| table_defined := table_defined (database w);
                version_index := version_index (database w);
                ledger := ledger (database w);
                committed := committed (database w) ++ [p];
                transaction := None |};
           logged := logged w
                     ++ [(info, if String.eqb a "do"
                                then Applied_migration (base p)
                                else Reverted_migration (base p))] |})
  else (Throw (QueryError (Script p)),
        {| database :=
             {| table_defined := table_defined (database w);
                version_index := version_index (database w);
                ledger := ledger (database w);
                committed := committed (database w);
                transaction := None |};
           logged := logged w
                     ++ [(error,
                          failure_message a (base p) (QueryError (Script p)))] |}).
Proof.
  unfold executeMigration, bind, try_catch, db_begin, db_script, db_commit,
    db_cancel, update, logger, throw, failure_message; simpl.
  destruct (script_ok e p); reflexivity.
Qed.

Lemma setCurrentVersion_eq (z : Z) (t : option string) (e : env) (w : world) :
  setCurrentVersion (Fin z) t e w =
  if version_index (database w) && has_version z (ledger (database w))
  then (Throw (QueryError (Create (Fin z) (stored_title t))),
        {| database := database w;
           logged := logged w
                     ++ [(error,
                          Failed_to_set_current_version
                            (QueryError (Create (Fin z) (stored_title t))))] |})
  else (Return tt,
        {| database :=
             {| table_defined := table_defined (database w);
                version_index := version_index (database w);
                ledger := ledger (database w)
                          ++ [{| version := z; title := stored_title t |}];
                committed := committed (database w);
                transaction := transaction (database w) |};
           logged := logged w
                     ++ [(info, Set_current_version (Fin z) (stored_title t))] |}).
Proof.
  unfold setCurrentVersion, stored_title, bind, try_catch, db_create, update,
    logger, throw.
  destruct (truthy t); simpl;
    destruct (version_index (database w)
              && has_version z (ledger (database w))); reflexivity.
Qed.

(** ** Numbers and ranges *)

Lemma parseInt_cases (s : string) :
  parseInt s = NaN \/ exists z, parseInt s = Fin z.
Proof.
  unfold parseInt.
  destruct (match skip_white s with
            | String "-"%char r => (true, r)
            | String "+"%char r => (false, r)
            | _ => (false, skip_white s)
            end) as [neg s2].
  destruct (match s2 with
            | String "0"%char (String "x"%char r) => (16, r)
            | String "0"%char (String "X"%char r) => (16, r)
            | _ => (10, s2)
            end) as [radix s3].
  destruct (read_digits radix s3 None); eauto.
Qed.

Lemma apply_range_Fin (cur tgt : num) (v : string) :
  apply_range cur tgt v = true -> exists z, parseInt v = Fin z.
Proof.
  unfold apply_range, js_gt. intros H.
  destruct (parseInt_cases v) as [E | E]; [ | exact E ].
  rewrite E in H. destruct cur; discriminate.
Qed.


(** ** One turn of the loops *)

Lemma migrate_version_step e directory mf cur tgt v w r w1 :
  migrate_version directory mf cur tgt v e w = (r, w1) ->
  if apply_range cur tgt v then
    table_defined (database w1) = table_defined (database w) /\
    match r with
    | Return _ =>
        exists p, unit_script directory mf "do" v = Some p /\
                  script_ok e p = true /\
                  ledger (database w1)
                  = ledger (database w) ++ [unit_entry mf v] /\
                  committed (database w1) = committed (database w) ++ [p] /\
                  transaction (database w1) = None
    | Throw x =>
        ledger (database w1) = ledger (database w) /\
        exists executed,
          committed (database w1) = committed (database w) ++ executed /\
          stops_at e directory mf "do" w1 [] executed v x
    | Exit _ => False
    end
  else r = Return tt /\ w1 = w.
Proof.
  unfold migrate_version. intros H.
  change (js_gt (parseInt v) cur && js_le (parseInt v) tgt)
    with (apply_range cur tgt v) in H.
  destruct (apply_range cur tgt v) eqn:Hsel.
  - destruct (apply_range_Fin _ _ _ Hsel) as [z Hz].
    unfold bind at 1, destructure in H.
    destruct (get mf v) as [m | ] eqn:Hget.
    + unfold ret at 1, bind at 1, logger at 1 in H.
      unfold bind at 1, path_join in H.
      destruct (get m "do") as [f | ] eqn:Hdo.
      * unfold ret at 1, bind at 1 in H.
        rewrite executeMigration_eq in H.
        set (p := {| dir := directory; base := f |}) in *.
        assert (Hp : unit_script directory mf "do" v = Some p).
        { unfold unit_script, prop. rewrite Hget, Hdo. reflexivity. }
        destruct (script_ok e p) eqn:Hok.
        -- rewrite Hz, setCurrentVersion_eq in H. cbn [database logged] in H.
           cbn [ledger version_index] in H.
           destruct (version_index (database w)
                     && has_version z (ledger (database w))) eqn:Hdup;
             inversion H; subst; clear H; cbn.
           ++ split; [ reflexivity | ]. split; [ reflexivity | ].
              exists [p]. split; [ reflexivity | ].
              rewrite <- Hz.
              apply stop_write_fails with (p := p); auto.
              ** cbn. rewrite Hp. reflexivity.
              ** cbn. intros z' Hz'. rewrite Hz in Hz'. inversion Hz'; subst.
                 apply andb_true_iff in Hdup. apply Hdup.
           ++ split; [ reflexivity | ].
              exists p. repeat split; auto.
              unfold unit_entry, prop. rewrite Hget, Hz. reflexivity.
        -- inversion H; subst; clear H; cbn.
           split; [ reflexivity | ]. split; [ reflexivity | ].
           exists []. split; [ now rewrite app_nil_r | ].
           apply stop_script_fails; auto.
           cbn. eexists. reflexivity.
      * unfold throw in H. inversion H; subst; clear H; cbn.
        split; [ reflexivity | ]. split; [ reflexivity | ].
        exists []. split; [ now rewrite app_nil_r | ].
        apply stop_no_script; auto.
        -- rewrite Hget. discriminate.
        -- unfold prop. rewrite Hget. exact Hdo.
    + unfold throw in H. inversion H; subst; clear H.
      split; [ reflexivity | ]. split; [ reflexivity | ].
      exists []. split; [ now rewrite app_nil_r | ].
      apply stop_no_unit; auto.
  - unfold ret in H. inversion H; auto.
Qed.

Lemma rollback_version_step e directory mf cur tgt v w r w1 :
  rollback_version directory mf cur tgt v e w = (r, w1) ->
  if revert_range cur tgt v then
    table_defined (database w1) = table_defined (database w) /\
    match r with
    | Return _ =>
        exists p, unit_script directory mf "undo" v = Some p /\
                  script_ok e p = true /\
                  ledger (database w1)
                  = delete_versions [v] (ledger (database w)) /\
                  committed (database w1) = committed (database w) ++ [p] /\
                  transaction (database w1) = None
    | Throw x =>
        ledger (database w1) = ledger (database w) /\
        exists executed,
          committed (database w1) = committed (database w) ++ executed /\
          stops_at e directory mf "undo" w1 [] executed v x /\
          forall n t, x <> QueryError (Create n t)
    | Exit _ => False
    end
  else r = Return tt /\ w1 = w.
Proof.
  unfold rollback_version. intros H.
  change (js_le (parseInt v) cur && js_gt (parseInt v) tgt)
    with (revert_range cur tgt v) in H.
  destruct (revert_range cur tgt v) eqn:Hsel.
  - unfold bind at 1, destructure in H.
    destruct (get mf v) as [m | ] eqn:Hget.
    + unfold ret at 1, bind at 1, logger at 1 in H.
      unfold bind at 1, path_join in H.
      destruct (get m "undo") as [f | ] eqn:Hundo.
      * unfold ret at 1, bind at 1 in H.
        rewrite executeMigration_eq in H.
        set (p := {| dir := directory; base := f |}) in *.
        assert (Hp : unit_script directory mf "undo" v = Some p).
        { unfold unit_script, prop. rewrite Hget, Hundo. reflexivity. }
        destruct (script_ok e p) eqn:Hok.
        -- unfold db_delete, update in H.
           inversion H; subst; clear H; cbn.
           split; [ reflexivity | ].
           exists p. repeat split; auto.
        -- inversion H; subst; clear H; cbn.
           split; [ reflexivity | ]. split; [ reflexivity | ].
           exists []. split; [ now rewrite app_nil_r | ].
           split; [ | discriminate ].
           apply stop_script_fails; auto.
           cbn. eexists. reflexivity.
      * unfold throw in H. inversion H; subst; clear H; cbn.
        split; [ reflexivity | ]. split; [ reflexivity | ].
        exists []. split; [ now rewrite app_nil_r | ].
        split; [ | discriminate ].
        apply stop_no_script; auto.
        -- rewrite Hget. discriminate.
        -- unfold prop. rewrite Hget. exact Hundo.
    + unfold throw in H. inversion H; subst; clear H.
      split; [ reflexivity | ]. split; [ reflexivity | ].
      exists []. split; [ now rewrite app_nil_r | ].
      split; [ | discriminate ].
      apply stop_no_unit; auto.
  - unfold ret in H. inversion H; auto.
Qed.

(** ** The loops *)

Lemma stops_at_cons e directory mf action w' v0 p0 done executed v x :
  unit_script directory mf action v0 = Some p0 ->
  stops_at e directory mf action w' done executed v x ->
  stops_at e directory mf action w' (v0 :: done) (p0 :: executed) v x.
Proof.
  intros H0 H. destruct H.
  - apply stop_no_unit; auto. cbn. congruence.
  - apply stop_no_script; auto. cbn. congruence.
  - apply stop_script_fails; auto. cbn. congruence.
  - apply stop_write_fails with (p := p); auto. cbn. congruence.
Qed.

Lemma for_of_cons {A : Type} (x : A) (l : list A) (body : A -> M unit) e w :
  for_of (x :: l) body e w =
  match body x e w with
  | (Return _, w1) => for_of l body e w1
  | (Throw y, w1) => (Throw y, w1)
  | (Exit n, w1) => (Exit n, w1)
  end.
Proof. reflexivity. Qed.

Lemma migrate_loop e directory mf cur tgt vs :
  forall w r w',
    for_of vs (migrate_version directory mf cur tgt) e w = (r, w') ->
    exists done rest executed,
      filter (apply_range cur tgt) vs = done ++ rest /\
      table_defined (database w') = table_defined (database w) /\
      ledger (database w')
      = ledger (database w) ++ map (unit_entry mf) done /\
      committed (database w') = committed (database w) ++ executed /\
      match r with
      | Return _ =>
          rest = [] /\
          map Some executed = map (unit_script directory mf "do") done
      | Throw x =>
          exists v rest',
            rest = v :: rest' /\
            stops_at e directory mf "do" w' done executed v x
      | Exit _ => False
      end.
Proof.
  induction vs as [ | v vs IH ]; intros w r w' H.
  - cbn in H. inversion H; subst.
    exists [], [], []. cbn. rewrite !app_nil_r. auto 10.
  - rewrite for_of_cons in H.
    destruct (migrate_version directory mf cur tgt v e w) as [r1 w1] eqn:Hstep.
    apply migrate_version_step in Hstep.
    cbn [filter].
    destruct (apply_range cur tgt v) eqn:Hsel.
    + destruct Hstep as [Htd Hstep].
      destruct r1 as [ [] | x | n ]; [ | | contradiction ].
      * destruct Hstep as (p & Hp & Hok & Hl & Hc & Ht).
        destruct (IH _ _ _ H) as (done & rest & executed & Hf & Htd' & Hl' & Hc' & Hr).
        exists (v :: done), rest, (p :: executed).
        rewrite Hf, Htd', Htd, Hl', Hl, Hc', Hc, <- !app_assoc. cbn.
        repeat split; auto.
        destruct r as [ [] | x | n ]; auto.
        -- destruct Hr as [Hr1 Hr2]. split; auto. cbn. congruence.
        -- destruct Hr as (v' & rest' & Hr1 & Hr2).
           exists v', rest'. split; auto.
           apply stops_at_cons; auto.
      * inversion H; subst; clear H.
        destruct Hstep as (Hl & executed & Hc & Hs).
        exists [], (v :: filter (apply_range cur tgt) vs), executed.
        cbn. rewrite app_nil_r. repeat split; auto.
        eauto.
    + destruct Hstep as [-> ->]. eauto.
Qed.

Lemma rollback_loop e directory mf cur tgt vs :
  forall w r w',
    for_of vs (rollback_version directory mf cur tgt) e w = (r, w') ->
    exists done rest executed,
      filter (revert_range cur tgt) vs = done ++ rest /\
      table_defined (database w') = table_defined (database w) /\
      ledger (database w') = delete_versions done (ledger (database w)) /\
      committed (database w') = committed (database w) ++ executed /\
      match r with
      | Return _ =>
          rest = [] /\
          map Some executed = map (unit_script directory mf "undo") done
      | Throw x =>
          exists v rest',
            rest = v :: rest' /\
            stops_at e directory mf "undo" w' done executed v x /\
            forall n t, x <> QueryError (Create n t)
      | Exit _ => False
      end.
Proof.
  induction vs as [ | v vs IH ]; intros w r w' H.
  - cbn in H. inversion H; subst.
    exists [], [], []. cbn. rewrite ?app_nil_r. auto 10.
  - rewrite for_of_cons in H.
    destruct (rollback_version directory mf cur tgt v e w) as [r1 w1] eqn:Hstep.
    apply rollback_version_step in Hstep.
    cbn [filter].
    destruct (revert_range cur tgt v) eqn:Hsel.
    + destruct Hstep as [Htd Hstep].
      destruct r1 as [ [] | x | n ]; [ | | contradiction ].
      * destruct Hstep as (p & Hp & Hok & Hl & Hc & Ht).
        destruct (IH _ _ _ H) as (done & rest & executed & Hf & Htd' & Hl' & Hc' & Hr).
        exists (v :: done), rest, (p :: executed).
        rewrite Hf, Htd', Htd, Hl', Hl, Hc', Hc, <- !app_assoc. cbn.
        repeat split; auto.
        destruct r as [ [] | x | n ]; auto.
        -- destruct Hr as [Hr1 Hr2]. split; auto. cbn. congruence.
        -- destruct Hr as (v' & rest' & Hr1 & Hr2 & Hr3).
           exists v', rest'. repeat split; auto.
           apply stops_at_cons; auto.
      * inversion H; subst; clear H.
        destruct Hstep as (Hl & executed & Hc & Hs & Hn).
        exists [], (v :: filter (revert_range cur tgt) vs), executed.
        cbn. repeat split; auto.
        eauto.
    + destruct Hstep as [-> ->]. eauto.
Qed.

(** ** Up to the loops: connection, scan and current version *)

Lemma connectToDatabase_eq e w :
  connectToDatabase e w =
  if connect_ok e then (Return tt, connected w)
  else (Exit 1,
        {| database := database w;
           logged := logged w
                     ++ [(error, Failed_to_connect (QueryError Connect))] |}).
Proof.
  unfold connectToDatabase, try_catch, bind, db_connect, db_info, db_define,
    update, logger, process_exit, ret, connected.
  destruct (connect_ok e); [ | reflexivity ].
  cbn. destruct w as [[td vi l c t] lg]; cbn. destruct td; reflexivity.
Qed.

Lemma getCurrentVersion_eq e w :
  getCurrentVersion e w = (Return (current_version e (database w)),
                           version_read e w).
Proof.
  unfold getCurrentVersion, try_catch, bind, db_select_latest, logger, ret,
    current_version, version_read.
  destruct (select_ok e); reflexivity.
Qed.

Lemma migrate_eq e directory toVersion files w :
  connect_ok e = true ->
  readdir e directory = Some files ->
  let cur := current_version e (database w) in
  let tgt := apply_target files toVersion in
  let w1 := version_read e (connected w) in
  migrate directory toVersion e w =
  if js_lt tgt cur
  then (Return tt,
        {| database := database w1;
           logged := logged w1 ++ [(warn, Use_rollback_instead cur tgt)] |})
  else if js_eq tgt cur
  then (Return tt,
        {| database := database w1;
           logged := logged w1 ++ [(info, No_pending_migrations)] |})
  else for_of (sort ascending (Object_keys (scan files)))
         (migrate_version directory (scan files) cur tgt) e w1.
Proof.
  intros Hc Hr. cbv zeta.
  unfold migrate. unfold bind at 1. rewrite connectToDatabase_eq, Hc.
  unfold bind at 1, getMigrationFiles. rewrite Hr. unfold ret at 1.
  unfold bind at 1. rewrite getCurrentVersion_eq.
  fold (apply_target files toVersion).
  replace (current_version e (database (connected w)))
    with (current_version e (database w)) by reflexivity.
  destruct (js_lt _ _); [ reflexivity | ].
  destruct (js_eq _ _); reflexivity.
Qed.

Lemma rollback_eq e directory toVersion files w :
  connect_ok e = true ->
  readdir e directory = Some files ->
  let cur := current_version e (database w) in
  let tgt := revert_target cur toVersion in
  let w1 := version_read e (connected w) in
  rollback directory toVersion e w =
  if js_ge tgt cur
  then (Return tt,
        {| database := database w1;
           logged := logged w1 ++ [(warn, Use_migrate_instead tgt cur)] |})
  else for_of (sort descending (Object_keys (scan files)))
         (rollback_version directory (scan files) cur tgt) e w1.
Proof.
  intros Hc Hr. cbv zeta.
  unfold rollback. unfold bind at 1. rewrite connectToDatabase_eq, Hc.
  unfold bind at 1, getMigrationFiles. rewrite Hr. unfold ret at 1.
  unfold bind at 1. rewrite getCurrentVersion_eq.
  fold (revert_target (current_version e (database (connected w))) toVersion).
  replace (current_version e (database (connected w)))
    with (current_version e (database w)) by reflexivity.
  destruct (js_ge _ _); reflexivity.
Qed.

(** ** Sorting and the keys of the unit mapping *)

Lemma insert_perm cmp x l : Permutation (insert cmp x l) (x :: l).
Proof.
  induction l as [ | y l IH ]; cbn.
  - apply Permutation_refl.
  - destruct (js_lt (cmp y x) (Fin 0)).
    + apply perm_trans with (y :: x :: l).
      * apply perm_skip, IH.
      * apply perm_swap.
    + apply Permutation_refl.
Qed.

Lemma sort_perm cmp l : Permutation (sort cmp l) l.
Proof.
  induction l as [ | x l IH ]; cbn.
  - apply perm_nil.
  - apply perm_trans with (x :: sort cmp l).
    + apply insert_perm.
    + apply perm_skip, IH.
Qed.

Lemma sort_In cmp l v : In v (sort cmp l) <-> In v l.
Proof.
  split; apply Permutation_in;
    [ apply sort_perm | apply Permutation_sym, sort_perm ].
Qed.

Section Sorted.

Variable cmp : string -> string -> num.
Variable R : string -> string -> Prop.
Variable P : string -> Prop.

Hypothesis R_trans : forall x y z, R x y -> R y z -> R x z.
Hypothesis cmp_before :
  forall x y, P x -> P y -> js_lt (cmp y x) (Fin 0) = true -> R y x.
Hypothesis cmp_after :
  forall x y, P x -> P y -> js_lt (cmp y x) (Fin 0) = false -> R x y.

Lemma insert_sorted x l :
  P x -> Forall P l -> StronglySorted R l ->
  StronglySorted R (insert cmp x l).
Proof.
  intros Hx Hl Hs. induction Hs as [ | y l Hs IH Hy ]; cbn.
  - constructor; constructor.
  - inversion Hl as [ | ? ? HPy HPl ]; subst.
    destruct (js_lt (cmp y x) (Fin 0)) eqn:Hc.
    + constructor; [ apply IH, HPl | ].
      apply Permutation_Forall with (x :: l).
      * apply Permutation_sym, insert_perm.
      * constructor; [ apply cmp_before; assumption | exact Hy ].
    + assert (Hxy : R x y) by (apply cmp_after; assumption).
      constructor; [ constructor; assumption | ].
      constructor; [ exact Hxy | ].
      eapply Forall_impl; [ | exact Hy ].
      intros z Hz. eapply R_trans; eassumption.
Qed.

Lemma sort_sorted l : Forall P l -> StronglySorted R (sort cmp l).
Proof.
  induction 1 as [ | x l Hx Hl IH ]; cbn.
  - constructor.
  - apply insert_sorted; auto.
    apply Permutation_Forall with l; [ | exact Hl ].
    apply Permutation_sym, sort_perm.
Qed.

End Sorted.

Lemma filter_sorted (R : string -> string -> Prop) f l :
  StronglySorted R l -> StronglySorted R (filter f l).
Proof.
  induction 1 as [ | x l Hs IH Hx ]; cbn.
  - constructor.
  - destruct (f x); [ | exact IH ].
    constructor; [ exact IH | ].
    apply Forall_forall. intros y Hy. apply filter_In in Hy.
    rewrite Forall_forall in Hx. apply Hx, Hy.
Qed.

Lemma sort_ascending_sorted l :
  Forall (fun v => exists z, parseInt v = Fin z) l ->
  ascending_versions (sort ascending l).
Proof.
  apply sort_sorted.
  - intros x y z. lia.
  - intros x y [a Ha] [b Hb]. unfold ascending. rewrite Ha, Hb. cbn.
    intros H. apply Z.ltb_lt in H. lia.
  - intros x y [a Ha] [b Hb]. unfold ascending. rewrite Ha, Hb. cbn.
    intros H. apply Z.ltb_ge in H. lia.
Qed.

Lemma sort_descending_sorted l :
  Forall (fun v => exists z, parseInt v = Fin z) l ->
  descending_versions (sort descending l).
Proof.
  apply sort_sorted.
  - intros x y z. lia.
  - intros x y [a Ha] [b Hb]. unfold descending. rewrite Ha, Hb. cbn.
    intros H. apply Z.ltb_lt in H. lia.
  - intros x y [a Ha] [b Hb]. unfold descending. rewrite Ha, Hb. cbn.
    intros H. apply Z.ltb_ge in H. lia.
Qed.

Lemma filter_split_perm {A : Type} (f : A -> bool) (l : list A) :
  Permutation (filter f l ++ filter (fun x => negb (f x)) l) l.
Proof.
  induction l as [ | x l IH ]; cbn.
  - apply perm_nil.
  - destruct (f x); cbn.
    + apply perm_skip, IH.
    + apply Permutation_sym, Permutation_cons_app, Permutation_sym, IH.
Qed.

Lemma Object_keys_perm {V : Type} (o : object V) :
  Permutation (Object_keys o) (map fst o).
Proof.
  unfold Object_keys.
  eapply perm_trans; [ | apply filter_split_perm with (f := is_array_index) ].
  apply Permutation_app_tail, sort_perm.
Qed.

Lemma set_keys {V : Type} (o : object V) k v :
  map fst (set o k v) = map fst o \/
  (~ In k (map fst o) /\ map fst (set o k v) = map fst o ++ [k]).
Proof.
  induction o as [ | [k' v'] o IH ]; cbn.
  - right. auto.
  - destruct (String.eqb k' k) eqn:E; cbn.
    + left. reflexivity.
    + apply String.eqb_neq in E.
      destruct IH as [IH | [Hn IH]]; rewrite IH.
      * left. reflexivity.
      * right. split; [ | reflexivity ]. intros [H | H]; auto.
Qed.

Lemma set_keys_NoDup {V : Type} (o : object V) k v :
  NoDup (map fst o) -> NoDup (map fst (set o k v)).
Proof.
  intros H. destruct (set_keys o k v) as [E | [Hn E]]; rewrite E; auto.
  apply Permutation_NoDup with (k :: map fst o).
  - apply Permutation_cons_append.
  - constructor; assumption.
Qed.

Lemma scan_file_NoDup acc file :
  NoDup (map fst acc) -> NoDup (map fst (scan_file acc file)).
Proof.
  intros H. unfold scan_file. cbv zeta.
  destruct (get acc (nth 0 (split_dot (basename file ".surql")) "undefined")).
  - destruct (get acc _); [ apply set_keys_NoDup, H | exact H ].
  - destruct (get (set acc _ _) _);
      [ apply set_keys_NoDup | ]; apply set_keys_NoDup, H.
Qed.

Lemma scan_NoDup files : NoDup (map fst (scan files)).
Proof.
  unfold scan.
  generalize (filter (fun file => includes file ".do." || includes file ".undo.")
                files).
  intros l.
  assert (H : NoDup (map fst (@nil (string * migration)))) by constructor.
  revert H. generalize (@nil (string * migration)).
  induction l as [ | f l IH ]; intros acc H; cbn; auto.
  apply IH, scan_file_NoDup, H.
Qed.

Lemma discovered_NoDup files : NoDup (discovered files).
Proof.
  apply Permutation_NoDup with (map fst (scan files)).
  - apply Permutation_sym, Object_keys_perm.
  - apply scan_NoDup.
Qed.

Lemma get_None {V : Type} (o : object V) k :
  get o k = None -> ~ In k (map fst o).
Proof.
  induction o as [ | [k' v'] o IH ]; cbn; auto.
  destruct (String.eqb k' k) eqn:E; [ discriminate | ].
  apply String.eqb_neq in E. intros H [H1 | H1]; auto. now apply IH.
Qed.

Lemma discovered_get files v :
  In v (discovered files) -> get (scan files) v <> None.
Proof.
  intros H Hn. apply get_None in Hn. apply Hn.
  eapply Permutation_in; [ apply Object_keys_perm | exact H ].
Qed.

(** ** The order of the loops is that of every stable sort *)

(** the insertion keeps the keys of each version in their order *)
Lemma insert_of_version cmp x l z :
  (forall y, of_version z x = true -> of_version z y = true ->
             js_lt (cmp y x) (Fin 0) = false) ->
  filter (of_version z) (insert cmp x l) = filter (of_version z) (x :: l).
Proof.
  intros Hcmp. induction l as [ | y l IH ]; [ reflexivity | ].
  cbn [insert]. destruct (js_lt (cmp y x) (Fin 0)) eqn:E; [ | reflexivity ].
  cbn [filter] in *. rewrite IH.
  destruct (of_version z x) eqn:Ex, (of_version z y) eqn:Ey;
    try reflexivity.
  rewrite (Hcmp y eq_refl Ey) in E. discriminate.
Qed.

Lemma of_version_Fin z k : of_version z k = true <-> parseInt k = Fin z.
Proof.
  unfold of_version. destruct (parseInt k) as [ | | | a ]; cbn;
    try (split; discriminate).
  rewrite Z.eqb_eq. split; congruence.
Qed.

Lemma sort_ascending_of_version l z :
  filter (of_version z) (sort ascending l) = filter (of_version z) l.
Proof.
  induction l as [ | x l IH ]; [ reflexivity | ].
  cbn [sort fold_right]. fold (sort ascending l).
  rewrite insert_of_version.
  - cbn [filter]. rewrite IH. reflexivity.
  - intros y Hx Hy. apply of_version_Fin in Hx, Hy.
    unfold ascending. rewrite Hx, Hy. cbn. apply Z.ltb_ge. lia.
Qed.

Lemma sort_descending_of_version l z :
  filter (of_version z) (sort descending l) = filter (of_version z) l.
Proof.
  induction l as [ | x l IH ]; [ reflexivity | ].
  cbn [sort fold_right]. fold (sort descending l).
  rewrite insert_of_version.
  - cbn [filter]. rewrite IH. reflexivity.
  - intros y Hx Hy. apply of_version_Fin in Hx, Hy.
    unfold descending. rewrite Hx, Hy. cbn. apply Z.ltb_ge. lia.
Qed.

Section Stable.

Variable R : Z -> Z -> Prop.
Hypothesis R_antisym : forall a b, R a b -> R b a -> a = b.

(** two lists of numeric keys in the order [R] of their versions, with the
    same keys of each version in the same order, are equal *)
Lemma sorted_stable_unique l1 :
  forall l2,
    Forall (fun v => exists z, parseInt v = Fin z) l1 ->
    Forall (fun v => exists z, parseInt v = Fin z) l2 ->
    StronglySorted (fun a b => R (int_of (parseInt a)) (int_of (parseInt b)))
      l1 ->
    StronglySorted (fun a b => R (int_of (parseInt a)) (int_of (parseInt b)))
      l2 ->
    (forall z, filter (of_version z) l1 = filter (of_version z) l2) ->
    l1 = l2.
Proof.
  induction l1 as [ | a l1 IH ]; intros l2 Hn1 Hn2 Hs1 Hs2 H.
  - destruct l2 as [ | b l2 ]; [ reflexivity | ].
    inversion Hn2 as [ | ? ? [zb Hb] _ ]; subst.
    specialize (H zb). cbn in H.
    rewrite (proj2 (of_version_Fin zb b) Hb) in H. discriminate.
  - inversion Hn1 as [ | ? ? [za Ha] Hn1' ]; subst.
    inversion Hs1 as [ | ? ? Hs1' Hall1 ]; subst.
    destruct l2 as [ | b l2 ].
    { specialize (H za). cbn in H.
      rewrite (proj2 (of_version_Fin za a) Ha) in H. discriminate. }
    inversion Hn2 as [ | ? ? [zb Hb] Hn2' ]; subst.
    inversion Hs2 as [ | ? ? Hs2' Hall2 ]; subst.
    assert (Ea : of_version za a = true) by (apply of_version_Fin, Ha).
    assert (Eb : of_version zb b = true) by (apply of_version_Fin, Hb).
    assert (Hz : za = zb).
    { destruct (Z.eq_dec za zb) as [E | E]; [ exact E | ].
      assert (Eab : of_version za b = false).
      { destruct (of_version za b) eqn:X; [ | reflexivity ].
        apply of_version_Fin in X. congruence. }
      assert (Eba : of_version zb a = false).
      { destruct (of_version zb a) eqn:X; [ | reflexivity ].
        apply of_version_Fin in X. congruence. }
      pose proof (H za) as H1. pose proof (H zb) as H2.
      cbn [filter] in H1, H2. rewrite Ea, Eab in H1. rewrite Eb, Eba in H2.
      assert (Ha2 : In a l2).
      { assert (X : In a (filter (of_version za) l2))
          by (rewrite <- H1; now left).
        apply filter_In in X. apply X. }
      assert (Hb1 : In b l1).
      { assert (X : In b (filter (of_version zb) l1))
          by (rewrite H2; now left).
        apply filter_In in X. apply X. }
      rewrite Forall_forall in Hall1, Hall2.
      specialize (Hall1 _ Hb1). specialize (Hall2 _ Ha2).
      rewrite Ha, Hb in Hall1, Hall2. cbn in Hall1, Hall2.
      apply R_antisym; assumption. }
    subst zb.
    pose proof (H za) as H1. cbn [filter] in H1. rewrite Ea, Eb in H1.
    inversion H1 as [[Hab Htl]]. subst b. f_equal.
    apply IH; auto.
    intros z. specialize (H z). cbn [filter] in H.
    destruct (of_version z a); [ inversion H; reflexivity | exact H ].
Qed.

End Stable.

(** the array that [sort] gives, for keys that all parse to a number, is
    the one that every stable sort gives: the only permutation in ascending
    order of the versions that keeps the keys of each version in their
    order *)
Lemma sort_ascending_is_the_stable_sort l l' :
  Forall (fun v => exists z, parseInt v = Fin z) l ->
  Permutation l' l ->
  ascending_versions l' ->
  (forall z, filter (of_version z) l' = filter (of_version z) l) ->
  l' = sort ascending l.
Proof.
  intros Hn Hp Hs Hst.
  apply sorted_stable_unique with (R := Z.le).
  - intros a b. lia.
  - apply Permutation_Forall with l; [ apply Permutation_sym, Hp | exact Hn ].
  - apply Permutation_Forall with l;
      [ apply Permutation_sym, sort_perm | exact Hn ].
  - exact Hs.
  - apply sort_ascending_sorted, Hn.
  - intros z. rewrite sort_ascending_of_version. apply Hst.
Qed.

Lemma sort_descending_is_the_stable_sort l l' :
  Forall (fun v => exists z, parseInt v = Fin z) l ->
  Permutation l' l ->
  descending_versions l' ->
  (forall z, filter (of_version z) l' = filter (of_version z) l) ->
  l' = sort descending l.
Proof.
  intros Hn Hp Hs Hst.
  apply sorted_stable_unique with (R := Z.ge).
  - intros a b. lia.
  - apply Permutation_Forall with l; [ apply Permutation_sym, Hp | exact Hn ].
  - apply Permutation_Forall with l;
      [ apply Permutation_sym, sort_perm | exact Hn ].
  - exact Hs.
  - apply sort_descending_sorted, Hn.
  - intros z. rewrite sort_descending_of_version. apply Hst.
Qed.

(** ** Empty ranges *)

Lemma apply_range_below cur tgt v :
  js_lt tgt cur = true -> apply_range cur tgt v = false.
Proof.
  unfold apply_range, js_gt, js_le.
  destruct (parseInt v), cur, tgt; cbn; intros H;
    try discriminate; try reflexivity; order_cases.
Qed.

Lemma apply_range_equal cur tgt v :
  js_eq tgt cur = true -> apply_range cur tgt v = false.
Proof.
  unfold apply_range, js_gt, js_le.
  destruct (parseInt v), cur, tgt; cbn; intros H;
    try discriminate; try reflexivity; order_cases.
Qed.

Lemma revert_range_above cur tgt v :
  js_ge tgt cur = true -> revert_range cur tgt v = false.
Proof.
  unfold revert_range, js_ge, js_gt, js_le.
  destruct (parseInt v), cur, tgt; cbn; intros H;
    try discriminate; try reflexivity; order_cases.
Qed.

Lemma filter_none {A : Type} (f : A -> bool) (l : list A) :
  (forall x, f x = false) -> filter f l = [].
Proof.
  intros H. induction l as [ | x l IH ]; cbn; [ | rewrite H ]; auto.
Qed.

Lemma version_read_database e w : database (version_read e w) = database w.
Proof. unfold version_read. destruct (select_ok e); reflexivity. Qed.

(** ** A whole run of [migrate] and of [rollback] *)

Lemma migrate_run e directory toVersion files w r w' :
  connect_ok e = true ->
  readdir e directory = Some files ->
  migrate directory toVersion e w = (r, w') ->
  exists done rest executed,
    apply_plan files (current_version e (database w))
      (apply_target files toVersion) = done ++ rest /\
    table_defined (database w') = true /\
    ledger (database w')
    = ledger (database w) ++ map (unit_entry (scan files)) done /\
    committed (database w') = committed (database w) ++ executed /\
    match r with
    | Return _ =>
        rest = [] /\
        map Some executed = map (unit_script directory (scan files) "do") done
    | Throw x =>
        exists v rest',
          rest = v :: rest' /\
          stops_at e directory (scan files) "do" w' done executed v x
    | Exit _ => False
    end.
Proof.
  intros Hc Hr H. rewrite (migrate_eq _ _ _ _ _ Hc Hr) in H.
  unfold apply_plan.
  destruct (js_lt _ _) eqn:Hlt; [ | destruct (js_eq _ _) eqn:Heq ].
  - inversion H; subst; clear H. exists [], [], [].
    rewrite filter_none by (intro; apply apply_range_below, Hlt).
    cbn. rewrite version_read_database, !app_nil_r. cbn. auto 10.
  - inversion H; subst; clear H. exists [], [], [].
    rewrite filter_none by (intro; apply apply_range_equal, Heq).
    cbn. rewrite version_read_database, !app_nil_r. cbn. auto 10.
  - apply migrate_loop in H.
    rewrite version_read_database in H. exact H.
Qed.

Lemma rollback_run e directory toVersion files w r w' :
  connect_ok e = true ->
  readdir e directory = Some files ->
  rollback directory toVersion e w = (r, w') ->
  exists done rest executed,
    revert_plan files (current_version e (database w))
      (revert_target (current_version e (database w)) toVersion)
    = done ++ rest /\
    table_defined (database w') = true /\
    ledger (database w') = delete_versions done (ledger (database w)) /\
    committed (database w') = committed (database w) ++ executed /\
    match r with
    | Return _ =>
        rest = [] /\
        map Some executed
        = map (unit_script directory (scan files) "undo") done
    | Throw x =>
        exists v rest',
          rest = v :: rest' /\
          stops_at e directory (scan files) "undo" w' done executed v x /\
          forall n t, x <> QueryError (Create n t)
    | Exit _ => False
    end.
Proof.
  intros Hc Hr H. rewrite (rollback_eq _ _ _ _ _ Hc Hr) in H.
  unfold revert_plan.
  destruct (js_ge _ _) eqn:Hge.
  - inversion H; subst; clear H. exists [], [], [].
    rewrite filter_none by (intro; apply revert_range_above, Hge).
    cbn. rewrite version_read_database, !app_nil_r. cbn. auto 10.
  - apply rollback_loop in H.
    rewrite version_read_database in H. exact H.
Qed.




(** ** The two ranges *)

Lemma apply_plan_In files cur tgt v :
  In v (apply_plan files cur tgt) <->
  In v (discovered files) /\
  js_lt cur (parseInt v) = true /\ js_le (parseInt v) tgt = true.
Proof.
  unfold apply_plan, apply_range, js_gt.
  rewrite filter_In, sort_In, andb_true_iff. reflexivity.
Qed.

Lemma revert_plan_In files cur tgt v :
  In v (revert_plan files cur tgt) <->
  In v (discovered files) /\
  js_lt tgt (parseInt v) = true /\ js_le (parseInt v) cur = true.
Proof.
  unfold revert_plan, revert_range, js_gt.
  rewrite filter_In, sort_In, andb_true_iff. tauto.
Qed.

Lemma apply_plan_sorted files cur tgt :
  numeric_versions files -> ascending_versions (apply_plan files cur tgt).
Proof.
  intros H. apply filter_sorted, sort_ascending_sorted, H.
Qed.



(** ** One row per version *)

Section Preservation.

Variable P : world -> Prop.

Lemma preserves_ret {A : Type} (a : A) : preserves P (ret a).
Proof. intros e w r w' H E. inversion E; subst; exact H. Qed.

Lemma preserves_throw {A : Type} (x : exn) : preserves P (@throw A x).
Proof. intros e w r w' H E. inversion E; subst; exact H. Qed.

Lemma preserves_exit {A : Type} (n : Z) : preserves P (@process_exit A n).
Proof. intros e w r w' H E. inversion E; subst; exact H. Qed.

Lemma preserves_bind {A B : Type} (c : M A) (k : A -> M B) :
  preserves P c -> (forall a, preserves P (k a)) -> preserves P (bind c k).
Proof.
  intros Hc Hk e w r w' H E. unfold bind in E.
  destruct (c e w) as [[a | x | n] w1] eqn:E1.
  - eapply Hk; [ eapply Hc; eassumption | eassumption ].
  - inversion E; subst. eapply Hc; eassumption.
  - inversion E; subst. eapply Hc; eassumption.
Qed.

Lemma preserves_try_catch {A : Type} (c : M A) (h : exn -> M A) :
  preserves P c -> (forall x, preserves P (h x)) ->
  preserves P (try_catch c h).
Proof.
  intros Hc Hh e w r w' H E. unfold try_catch in E.
  destruct (c e w) as [[a | x | n] w1] eqn:E1.
  - inversion E; subst. eapply Hc; eassumption.
  - eapply Hh; [ eapply Hc; eassumption | eassumption ].
  - inversion E; subst. eapply Hc; eassumption.
Qed.

Lemma preserves_for_of {A : Type} (l : list A) (body : A -> M unit) :
  (forall x, preserves P (body x)) -> preserves P (for_of l body).
Proof.
  intros Hb. induction l as [ | x l IH ]; cbn.
  - apply preserves_ret.
  - apply preserves_bind; auto.
Qed.

Lemma preserves_if {A : Type} (b : bool) (c1 c2 : M A) :
  preserves P c1 -> preserves P c2 -> preserves P (if b then c1 else c2).
Proof. destruct b; auto. Qed.

End Preservation.

Lemma preserves_ledger_kept {A : Type} (c : M A) :
  (forall e w r w', c e w = (r, w') ->
                    ledger (database w') = ledger (database w) /\
                    version_index (database w')
                    = version_index (database w)) ->
  preserves unique_world c.
Proof.
  intros Hc e w r w' [Hi Hu] E. destruct (Hc _ _ _ _ E) as [El Ei].
  unfold unique_world, unique_versions in *. rewrite El, Ei. auto.
Qed.

Lemma has_version_false z l :
  has_version z l = false -> ~ In z (map version l).
Proof.
  induction l as [ | x l IH ]; cbn; auto.
  intros H. apply orb_false_iff in H. destruct H as [H1 H2].
  apply Z.eqb_neq in H1. intros [E | E]; auto. now apply IH.
Qed.

Lemma NoDup_map_filter {A B : Type} (f : A -> B) (g : A -> bool) l :
  NoDup (map f l) -> NoDup (map f (filter g l)).
Proof.
  induction l as [ | x l IH ]; cbn; auto.
  intros H. inversion H as [ | ? ? Hn Hd ]; subst.
  destruct (g x); cbn; auto.
  constructor; auto.
  intros Hin. apply Hn. apply in_map_iff in Hin.
  destruct Hin as (y & Ey & Hy). apply filter_In in Hy.
  apply in_map_iff. exists y. tauto.
Qed.

(** under the index, a write keeps the versions distinct *)
Lemma preserves_db_create v t : preserves unique_world (db_create v t).
Proof.
  intros e w r w' [Hi Hu] E. unfold db_create in E.
  destruct v as [ | | | z ]; try (inversion E; subst; split; assumption).
  rewrite Hi in E. cbn [andb] in E.
  destruct (has_version z (ledger (database w))) eqn:Hd.
  - inversion E; subst; split; assumption.
  - unfold update in E. inversion E; subst; clear E.
    split; [ exact Hi | ].
    unfold unique_versions in *. cbn.
    rewrite map_app. cbn.
    apply Permutation_NoDup with (z :: map version (ledger (database w))).
    + apply Permutation_cons_append.
    + constructor; [ apply has_version_false, Hd | exact Hu ].
Qed.

Lemma preserves_db_delete v : preserves unique_world (db_delete v).
Proof.
  intros e w r w' [Hi Hu] E. unfold db_delete, update in E.
  inversion E; subst; clear E.
  split; [ exact Hi | ].
  unfold unique_versions in *. cbn.
  apply NoDup_map_filter, Hu.
Qed.

Lemma preserves_logger lv m : preserves unique_world (logger lv m).
Proof.
  apply preserves_ledger_kept. intros e w r w' E.
  unfold logger in E. inversion E; split; reflexivity.
Qed.

Lemma preserves_setCurrentVersion v t :
  preserves unique_world (setCurrentVersion v t).
Proof.
  unfold setCurrentVersion.
  apply preserves_try_catch.
  - apply preserves_if; apply preserves_bind;
      auto using preserves_db_create, preserves_logger.
  - intros x. apply preserves_bind;
      auto using preserves_logger, preserves_throw.
Qed.

Lemma preserves_executeMigration filePath action :
  preserves unique_world (executeMigration filePath action).
Proof.
  apply preserves_ledger_kept. intros e w r w' E.
  rewrite executeMigration_eq in E.
  destruct (script_ok e filePath); inversion E; split; reflexivity.
Qed.

Lemma preserves_getMigrationFiles directory :
  preserves unique_world (getMigrationFiles directory).
Proof.
  apply preserves_ledger_kept. intros e w r w' E.
  unfold getMigrationFiles in E.
  destruct (readdir e directory); inversion E; split; reflexivity.
Qed.

Lemma preserves_getCurrentVersion : preserves unique_world getCurrentVersion.
Proof.
  apply preserves_ledger_kept. intros e w r w' E.
  rewrite getCurrentVersion_eq in E. inversion E.
  rewrite version_read_database. split; reflexivity.
Qed.

Lemma preserves_getCurrentVersionInfo :
  preserves unique_world getCurrentVersionInfo.
Proof.
  apply preserves_ledger_kept. intros e w r w' E.
  unfold getCurrentVersionInfo, try_catch, bind, db_select_latest, logger,
    ret in E.
  destruct (select_ok e); inversion E; split; reflexivity.
Qed.

(** the connection defines the index where the table is missing *)
Lemma connected_unique w : ledger_invariant w -> unique_world (connected w).
Proof.
  unfold ledger_invariant, fresh, unique_world, unique_versions, connected.
  cbn. intros [[Ht Hl] | [Hi Hu]].
  - rewrite Ht, Hl. split; [ reflexivity | constructor ].
  - rewrite Hi. split; [ destruct (table_defined (database w)); reflexivity
                       | exact Hu ].
Qed.

(** a command is the connection followed by steps that keep the ledger
    under its index; when the connection fails the database is as it was *)
Lemma from_connection {B : Type} (k : unit -> M B) :
  (forall a, preserves unique_world (k a)) ->
  preserves ledger_invariant (bind connectToDatabase k).
Proof.
  intros Hk e w r w' Hw E. unfold bind in E.
  rewrite connectToDatabase_eq in E.
  destruct (connect_ok e).
  - right. eapply Hk; [ apply connected_unique, Hw | exact E ].
  - inversion E; subst. exact Hw.
Qed.

Lemma preserves_migrate directory toVersion :
  preserves ledger_invariant (migrate directory toVersion).
Proof.
  unfold migrate. apply from_connection. intros _.
  apply preserves_bind; [ apply preserves_getMigrationFiles | intros mf ].
  apply preserves_bind; [ apply preserves_getCurrentVersion | intros cur ].
  cbv zeta.
  repeat apply preserves_if; try apply preserves_logger.
  apply preserves_for_of. intros v. unfold migrate_version.
  apply preserves_if; [ | apply preserves_ret ].
  apply preserves_bind.
  { unfold destructure. destruct (get mf v);
      [ apply preserves_ret | apply preserves_throw ]. }
  intros [doFile t].
  apply preserves_bind; [ apply preserves_logger | intros _ ].
  apply preserves_bind.
  { unfold path_join. destruct doFile;
      [ apply preserves_ret | apply preserves_throw ]. }
  intros filePath.
  apply preserves_bind; [ apply preserves_executeMigration | intros _ ].
  apply preserves_setCurrentVersion.
Qed.

Lemma preserves_rollback directory toVersion :
  preserves ledger_invariant (rollback directory toVersion).
Proof.
  unfold rollback. apply from_connection. intros _.
  apply preserves_bind; [ apply preserves_getMigrationFiles | intros mf ].
  apply preserves_bind; [ apply preserves_getCurrentVersion | intros cur ].
  cbv zeta.
  apply preserves_if; [ apply preserves_logger | ].
  apply preserves_for_of. intros v. unfold rollback_version.
  apply preserves_if; [ | apply preserves_ret ].
  apply preserves_bind.
  { unfold destructure. destruct (get mf v);
      [ apply preserves_ret | apply preserves_throw ]. }
  intros [undoFile t].
  apply preserves_bind; [ apply preserves_logger | intros _ ].
  apply preserves_bind.
  { unfold path_join. destruct undoFile;
      [ apply preserves_ret | apply preserves_throw ]. }
  intros filePath.
  apply preserves_bind; [ apply preserves_executeMigration | intros _ ].
  apply preserves_db_delete.
Qed.

Lemma preserves_getInfo directory :
  preserves ledger_invariant (getInfo directory).
Proof.
  unfold getInfo. apply from_connection. intros _.
  apply preserves_bind; [ apply preserves_getMigrationFiles | intros mf ].
  apply preserves_bind; [ apply preserves_getCurrentVersionInfo | intros i ].
  apply preserves_ret.
Qed.

Lemma reachable_invariant w : reachable w -> ledger_invariant w.
Proof.
  intros H.
  induction H as [ w Ht Hl
                 | directory toVersion e w r w' _ IH E
                 | directory toVersion e w r w' _ IH E
                 | directory e w r w' _ IH E ].
  - left. split; assumption.
  - eapply preserves_migrate; eassumption.
  - eapply preserves_rollback; eassumption.
  - eapply preserves_getInfo; eassumption.
Qed.

(** C4.  From a database where the table [migrations] is not defined yet,
    the first connection defines the table with its unique index, and in
    every state that [migrate], [rollback] and [getInfo] reach the ledger
    holds at most one row per version.  Recording a version that is present
    fails there: [setCurrentVersion] reports the error of the index and
    throws it again, and the database is as before. *)
Theorem C4_one_row_per_version (w : world) :
  reachable w ->
  unique_versions (database w) /\
  (forall z t e,
      has_version z (ledger (database w)) = true ->
      exists w',
        setCurrentVersion (Fin z) t e w
        = (Throw (QueryError (Create (Fin z) (stored_title t))), w') /\
        database w' = database w /\
        logged w'
        = logged w
          ++ [(error,
               Failed_to_set_current_version
                 (QueryError (Create (Fin z) (stored_title t))))]).
Proof.
  intros H. apply reachable_invariant in H.
  destruct H as [[Ht Hl] | [Hi Hu]].
  - split.
    + unfold unique_versions. rewrite Hl. constructor.
    + intros z t e Hd. rewrite Hl in Hd. discriminate.
  - split; [ exact Hu | ].
    intros z t e Hd. rewrite setCurrentVersion_eq, Hi, Hd.
    eexists. split; [ reflexivity | ]. split; reflexivity.
Qed.

(** ** The direction guard *)

(** C5.  On a listing whose tokens name no member of [Object.prototype],
    with the numbers of the run safe integers: a [migrate] whose target is
    below the current version, and a [rollback] whose target is not below
    it, report a warning and return:
    the plan is empty, no script is executed and the ledger is as it
    was. *)
Theorem C5_direction_guard
  (e : env) (directory : string) (files : list string)
  (toVersion : option string) (w : world) :
  connect_ok e = true ->
  readdir e directory = Some files ->
  own_tokens files ->
  safe_run files toVersion (database w) ->
  let cur := current_version e (database w) in
  (js_lt (apply_target files toVersion) cur = true ->
   exists w',
     migrate directory toVersion e w = (Return tt, w') /\
     apply_plan files cur (apply_target files toVersion) = [] /\
     ledger (database w') = ledger (database w) /\
     committed (database w') = committed (database w) /\
     transaction (database w') = transaction (database w) /\
     exists l,
       logged w'
       = l ++ [(warn,
                Use_rollback_instead cur (apply_target files toVersion))]) /\
  (js_ge (revert_target cur toVersion) cur = true ->
   exists w',
     rollback directory toVersion e w = (Return tt, w') /\
     revert_plan files cur (revert_target cur toVersion) = [] /\
     ledger (database w') = ledger (database w) /\
     committed (database w') = committed (database w) /\
     transaction (database w') = transaction (database w) /\
     exists l,
       logged w'
       = l ++ [(warn,
                Use_migrate_instead (revert_target cur toVersion) cur)]).
Proof.
  intros Hc Hr _ _ cur. split; intros Hg.
  - rewrite (migrate_eq _ _ _ _ _ Hc Hr). fold cur. rewrite Hg.
    eexists. split; [ reflexivity | ]. cbn.
    rewrite version_read_database. cbn.
    split; [ apply filter_none; intro; apply apply_range_below, Hg | ].
    repeat split. eexists. reflexivity.
  - rewrite (rollback_eq _ _ _ _ _ Hc Hr). fold cur. rewrite Hg.
    eexists. split; [ reflexivity | ]. cbn.
    rewrite version_read_database. cbn.
    split; [ apply filter_none; intro; apply revert_range_above, Hg | ].
    repeat split. eexists. reflexivity.
Qed.

(** ** The status of an empty repository *)

(** C6, at the failing input.  With no migration file discovered and an
    empty ledger, [getInfo] returns [-Infinity] as the latest version, with
    no pending migration. *)
Theorem C6_empty_repository_latest_version
  (e : env) (directory : string) (files : list string) (w : world) :
  connect_ok e = true ->
  select_ok e = true ->
  readdir e directory = Some files ->
  discovered files = [] ->
  ledger (database w) = [] ->
  getInfo directory e w =
  (Return {| currentVersion := Fin 0;
             currentVersionTitle := Some "No migrations applied";
             latestVersion := NegInf;
             pendingMigrations := [] |},
   connected w).
Proof.
  intros Hc Hs Hr Hd Hl.
  unfold getInfo. unfold bind at 1. rewrite connectToDatabase_eq, Hc.
  unfold bind at 1, getMigrationFiles. rewrite Hr. unfold ret at 1.
  unfold bind at 1, getCurrentVersionInfo, try_catch, bind, db_select_latest.
  rewrite Hs. cbn [database connected ledger]. rewrite Hl.
  unfold discovered in Hd. rewrite Hd. reflexivity.
Qed.

(** ** Version tokens *)

Lemma set_In_key {V : Type} (o : object V) k v : In k (map fst (set o k v)).
Proof.
  induction o as [ | [k' v'] o IH ]; cbn; auto.
  destruct (String.eqb k' k) eqn:E; cbn; auto.
  apply String.eqb_eq in E. auto.
Qed.

Lemma set_keys_incl {V : Type} (o : object V) k v k' :
  In k' (map fst o) -> In k' (map fst (set o k v)).
Proof.
  intros H. destruct (set_keys o k v) as [E | [_ E]]; rewrite E; auto.
  apply in_or_app. auto.
Qed.

Lemma scan_file_keys_incl acc file k :
  In k (map fst acc) -> In k (map fst (scan_file acc file)).
Proof.
  intros H. unfold scan_file. cbv zeta. fold (token file).
  destruct (get acc (token file)).
  - destruct (get acc _); [ apply set_keys_incl, H | exact H ].
  - destruct (get (set acc _ _) _);
      [ apply set_keys_incl | ]; apply set_keys_incl, H.
Qed.

Lemma scan_file_token acc file :
  In (token file) (map fst (scan_file acc file)).
Proof.
  unfold scan_file. cbv zeta. fold (token file).
  destruct (get acc (token file)) eqn:E.
  - rewrite E. apply set_In_key.
  - destruct (get (set acc _ _) _); apply set_In_key.
Qed.

Lemma fold_scan_keys_incl l : forall acc k,
  In k (map fst acc) -> In k (map fst (fold_left scan_file l acc)).
Proof.
  induction l as [ | f l IH ]; cbn; auto.
  intros acc k H. apply IH, scan_file_keys_incl, H.
Qed.

Lemma fold_scan_token l : forall acc file,
  In file l -> In (token file) (map fst (fold_left scan_file l acc)).
Proof.
  induction l as [ | f l IH ]; cbn; intros acc file H; [ destruct H | ].
  destruct H as [-> | H]; [ | apply IH, H ].
  apply fold_scan_keys_incl, scan_file_token.
Qed.

Lemma discovered_token files file :
  In file files -> names_direction file = true ->
  In (token file) (discovered files).
Proof.
  intros Hin Hd. unfold discovered.
  eapply Permutation_in; [ apply Permutation_sym, Object_keys_perm | ].
  unfold scan. apply fold_scan_token. apply filter_In. auto.
Qed.


Lemma prototype_member_NaN k : prototype_member k = true -> parseInt k = NaN.
Proof.
  unfold prototype_member, Object_prototype. cbn [existsb].
  rewrite !orb_true_iff. intros H.
  repeat destruct H as [H | H];
    try (apply String.eqb_eq in H; subst; vm_compute; reflexivity).
  discriminate.
Qed.

(** a listing whose tokens all parse to a number names no member of
    [Object.prototype] *)
Lemma numeric_own_tokens files : numeric_versions files -> own_tokens files.
Proof.
  intros Hn. unfold own_tokens. apply forallb_forall. intros file Hin.
  apply filter_In in Hin. destruct Hin as [Hin Hd].
  pose proof (discovered_token _ _ Hin Hd) as Hk.
  unfold numeric_versions in Hn. rewrite Forall_forall in Hn.
  destruct (Hn _ Hk) as [z Hz].
  destruct (prototype_member (token file)) eqn:E; [ | reflexivity ].
  rewrite (prototype_member_NaN _ E) in Hz. discriminate.
Qed.


(** ** A ledger that cannot be read *)


(** ** The current version *)

Lemma latest_spec l :
  match latest l with
  | Some x => In x l /\ Forall (fun y => version y <= version x) l
  | None => l = []
  end.
Proof.
  induction l as [ | a l IH ]; cbn; [ reflexivity | ].
  destruct (latest l) as [y | ].
  - destruct IH as [Hin Hall].
    destruct (version a <? version y) eqn:E.
    + apply Z.ltb_lt in E. split; auto.
      constructor; [ lia | exact Hall ].
    + apply Z.ltb_ge in E. split; auto.
      constructor; [ lia | ].
      eapply Forall_impl; [ | exact Hall ]. cbn. intros; lia.
  - subst l. split; [ now left | ].
    constructor; [ lia | constructor ].
Qed.

Lemma version_or_0_Some x : version_or_0 (Some x) = Fin (version x).
Proof.
  cbn. destruct (version x =? 0) eqn:E; [ | reflexivity ].
  apply Z.eqb_eq in E. rewrite E. reflexivity.
Qed.

Lemma current_version_bound e d c :
  select_ok e = true ->
  current_version e d = Fin c ->
  Forall (fun y => version y <= c) (ledger d).
Proof.
  unfold current_version. intros -> H.
  pose proof (latest_spec (ledger d)) as Hl.
  destruct (latest (ledger d)) as [x | ].
  - rewrite version_or_0_Some in H. inversion H; subst. apply Hl.
  - rewrite Hl. constructor.
Qed.

Lemma latest_of_max l y :
  In y l -> Forall (fun x => version x <= version y) l ->
  exists x, latest l = Some x /\ version x = version y.
Proof.
  intros Hin Hall. pose proof (latest_spec l) as Hl.
  destruct (latest l) as [x | ].
  - exists x. split; [ reflexivity | ]. destruct Hl as [Hx Hmax].
    rewrite Forall_forall in Hall, Hmax.
    specialize (Hall _ Hx). specialize (Hmax _ Hin). lia.
  - subst l. destruct Hin.
Qed.

Lemma current_version_of_max e d y :
  select_ok e = true ->
  In y (ledger d) -> Forall (fun x => version x <= version y) (ledger d) ->
  current_version e d = Fin (version y).
Proof.
  intros Hs Hin Hall. unfold current_version. rewrite Hs.
  destruct (latest_of_max _ _ Hin Hall) as (x & -> & <-).
  apply version_or_0_Some.
Qed.

Lemma has_version_above z l c :
  Forall (fun y => version y <= c) l -> c < z -> has_version z l = false.
Proof.
  intros H Hz. induction H as [ | x l Hx _ IH ]; cbn; auto.
  unfold has_version in IH. rewrite IH, orb_false_r. apply Z.eqb_neq. lia.
Qed.


Lemma filter_none_in {A : Type} (f : A -> bool) (l : list A) :
  (forall x, In x l -> f x = false) -> filter f l = [].
Proof.
  intros H. induction l as [ | x l IH ]; cbn; [ reflexivity | ].
  rewrite H by (now left). apply IH. intros y Hy. apply H. now right.
Qed.


(** ** A plan of one unit *)





Lemma unit_script_prop directory mf action v p :
  unit_script directory mf action v = Some p -> prop mf v action <> None.
Proof. unfold unit_script. intros H E. rewrite E in H. discriminate. Qed.


(** ** The latest version of a directory *)

Lemma fold_max_Fin vs : forall a m,
  fold_left js_max2 (map parseInt vs) a = Fin m ->
  (a = NegInf \/ exists z, a = Fin z /\ z <= m) /\
  (a = Fin m \/ exists k, In k vs /\ parseInt k = Fin m) /\
  Forall (fun k => exists z, parseInt k = Fin z /\ z <= m) vs.
Proof.
  induction vs as [ | k vs IH ]; cbn; intros a m H.
  - subst a. split; [ right; exists m; split; [ reflexivity | lia ] | ].
    split; [ now left | constructor ].
  - destruct (IH _ _ H) as (Ha & Hm & Hall). clear IH H.
    destruct (parseInt_cases k) as [E | [zk E]]; rewrite E in *.
    + exfalso. destruct a as [ | | | za ]; cbn in Ha;
        destruct Ha as [Ha | (z' & Ha & _)]; discriminate.
    + destruct a as [ | | | za ]; cbn in Ha, Hm.
      * exfalso. destruct Ha as [Ha | (z' & Ha & _)]; discriminate.
      * destruct Ha as [Ha | (z' & Ha & Hz)]; [ discriminate | ].
        inversion Ha; subst z'.
        split; [ now left | ]. split.
        -- right. destruct Hm as [Hm | (k' & Hin & Hk')].
           ++ exists k. split; [ now left | ]. rewrite E. exact Hm.
           ++ exists k'. split; [ now right | exact Hk' ].
        -- constructor; [ exists zk; auto | exact Hall ].
      * exfalso. destruct Ha as [Ha | (z' & Ha & _)]; discriminate.
      * destruct Ha as [Ha | (z' & Ha & Hz)]; [ discriminate | ].
        inversion Ha; subst z'.
        split; [ right; exists za; split; [ reflexivity | lia ] | ]. split.
        -- destruct Hm as [Hm | (k' & Hin & Hk')].
           ++ inversion Hm as [Hmax].
              destruct (Z.max_spec za zk) as [[_ Hx] | [_ Hx]].
              ** right. exists k. split; [ now left | ].
                 rewrite E. f_equal. lia.
              ** left. f_equal. lia.
           ++ right. exists k'. split; [ now right | exact Hk' ].
        -- constructor; [ exists zk; split; [ exact E | lia ] | exact Hall ].
Qed.

Lemma fold_max_not_PosInf vs : forall a,
  a <> PosInf -> fold_left js_max2 (map parseInt vs) a <> PosInf.
Proof.
  induction vs as [ | k vs IH ]; cbn; intros a Ha; [ exact Ha | ].
  apply IH.
  destruct (parseInt_cases k) as [E | [zk E]]; rewrite E;
    destruct a; cbn; congruence.
Qed.

Lemma current_version_Fin e d : exists c, current_version e d = Fin c.
Proof.
  unfold current_version. destruct (select_ok e); [ | eauto ].
  destruct (latest (ledger d)) as [x | ]; [ | cbn; eauto ].
  rewrite version_or_0_Some. eauto.
Qed.

Lemma connected_database w :
  table_defined (database w) = true -> database (connected w) = database w.
Proof.
  intros H. destruct w as [[td l c t] lg]. cbn in *. subst td. reflexivity.
Qed.

Lemma migrate_Return e directory toVersion w w1 :
  migrate directory toVersion e w = (Return tt, w1) ->
  connect_ok e = true /\ exists files, readdir e directory = Some files.
Proof.
  unfold migrate. unfold bind at 1. rewrite connectToDatabase_eq.
  destruct (connect_ok e); [ | discriminate ].
  unfold bind at 1, getMigrationFiles.
  destruct (readdir e directory) as [files | ]; [ eauto | ].
  cbn. discriminate.
Qed.

Lemma for_of_unselected e directory mf cur tgt vs w :
  filter (apply_range cur tgt) vs = [] ->
  for_of vs (migrate_version directory mf cur tgt) e w = (Return tt, w).
Proof.
  induction vs as [ | v vs IH ]; cbn [filter]; intros H; [ reflexivity | ].
  rewrite for_of_cons. unfold migrate_version at 1.
  change (js_gt (parseInt v) cur && js_le (parseInt v) tgt)
    with (apply_range cur tgt v).
  destruct (apply_range cur tgt v); [ discriminate | ].
  unfold ret at 1. apply IH, H.
Qed.

(** after a [migrate] without target that returns, the second one returns
    with an empty plan and the same database *)
Lemma second_migrate_is_empty
  (e : env) (directory : string) (w w1 : world) :
  select_ok e = true ->
  migrate directory None e w = (Return tt, w1) ->
  exists files w2,
    readdir e directory = Some files /\
    migrate directory None e w1 = (Return tt, w2) /\
    apply_plan files (current_version e (database w1))
      (apply_target files None) = [] /\
    database w2 = database w1.
Proof.
  intros Hs H1.
  destruct (migrate_Return _ _ _ _ _ H1) as (Hc & files & Hr).
  exists files.
  pose proof (migrate_run _ _ _ _ _ _ _ Hc Hr H1)
    as (done & rest & executed & Hplan & Htd & Hl & Hcm & -> & Hex).
  rewrite app_nil_r in Hplan.
  rewrite (migrate_eq _ _ _ _ _ Hc Hr) in H1.
  rewrite (migrate_eq _ _ _ _ _ Hc Hr).
  set (tgt := apply_target files None) in *.
  set (cur := current_version e (database w)) in *.
  assert (Hdb : database (version_read e (connected w1)) = database w1).
  { rewrite version_read_database. apply connected_database, Htd. }
  destruct done as [ | v0 done ].
  - (* nothing was applied: the second run is the first one again *)
    assert (Hsame : database w1 = database (connected w)).
    { destruct (js_lt tgt cur); [ inversion H1; cbn;
                                   apply version_read_database | ].
      destruct (js_eq tgt cur); [ inversion H1; cbn;
                                   apply version_read_database | ].
      unfold apply_plan in Hplan.
      rewrite (for_of_unselected _ _ _ _ _ _ _ Hplan) in H1.
      inversion H1. apply version_read_database. }
    assert (Hcur : current_version e (database w1) = cur).
    { unfold current_version. rewrite Hsame. reflexivity. }
    rewrite Hcur, Hplan.
    destruct (js_lt tgt cur).
    { eexists. split; [ exact Hr | ]. split; [ reflexivity | ]. split; [ reflexivity | ].
      cbn. exact Hdb. }
    destruct (js_eq tgt cur).
    { eexists. split; [ exact Hr | ]. split; [ reflexivity | ]. split; [ reflexivity | ].
      cbn. exact Hdb. }
    unfold apply_plan in Hplan.
    rewrite (for_of_unselected _ _ _ _ _ _ _ Hplan).
    eexists. split; [ exact Hr | ]. split; [ reflexivity | ]. split; [ reflexivity | ].
    exact Hdb.
  - (* units were applied: the current version is now the target *)
    assert (Hv0 : In v0 (apply_plan files cur tgt)).
    { rewrite Hplan. now left. }
    apply apply_plan_In in Hv0. destruct Hv0 as (_ & Hlo & Hhi).
    destruct (current_version_Fin e (database w)) as [c Hc0].
    fold cur in Hc0.
    assert (Htgt : exists m, tgt = Fin m /\ c < m).
    { destruct (parseInt_cases v0) as [E | [z E]]; rewrite E, Hc0 in *;
        [ discriminate | ].
      destruct tgt as [ | | | m ] eqn:Et; try discriminate.
      - exfalso. unfold tgt, apply_target in Et. cbn [truthy] in Et.
        revert Et. apply fold_max_not_PosInf. discriminate.
      - exists m. split; [ reflexivity | ].
        unfold js_le in Hhi. cbn in Hlo, Hhi.
        apply orb_true_iff in Hhi. destruct Hhi; order_cases. }
    destruct Htgt as (m & Etgt & Hcm').
    assert (Hmax : Math_max (map parseInt (sort ascending (discovered files)))
                   = Fin m).
    { rewrite <- Etgt. reflexivity. }
    apply fold_max_Fin in Hmax. destruct Hmax as (_ & Hat & Hall).
    destruct Hat as [Hat | (kmax & Hkin & Hkmax)]; [ discriminate | ].
    assert (Hkplan : In kmax (v0 :: done)).
    { rewrite <- Hplan. apply apply_plan_In.
      split; [ apply sort_In in Hkin; exact Hkin | ].
      rewrite Hkmax, Hc0, Etgt. unfold js_le. cbn. split; order_cases. }
    assert (Hcur1 : current_version e (database w1) = Fin m).
    { replace m with (version (unit_entry (scan files) kmax))
        by (unfold unit_entry; cbn; rewrite Hkmax; reflexivity).
      apply current_version_of_max; auto.
      - rewrite Hl. apply in_or_app. right. apply in_map, Hkplan.
      - rewrite Hl. apply Forall_app. split.
        + pose proof (current_version_bound _ _ _ Hs Hc0) as Hb.
          eapply Forall_impl; [ | exact Hb ].
          intros a Ha. cbv beta in Ha. unfold unit_entry. cbn.
          rewrite Hkmax. cbn. lia.
        + apply Forall_forall. intros a Ha. apply in_map_iff in Ha.
          destruct Ha as (v & <- & Hv).
          assert (Hvs : In v (sort ascending (discovered files))).
          { rewrite <- Hplan in Hv. unfold apply_plan in Hv.
            apply filter_In in Hv. apply Hv. }
          rewrite Forall_forall in Hall.
          destruct (Hall _ Hvs) as (z & Ez & Hz).
          unfold unit_entry. cbn. rewrite Ez, Hkmax. cbn. lia. }
    rewrite Hcur1, Etgt.
    assert (Hlt : js_lt (Fin m) (Fin m) = false) by (cbn; order_cases).
    assert (Heq : js_eq (Fin m) (Fin m) = true) by (cbn; order_cases).
    rewrite Hlt, Heq.
    eexists. split; [ exact Hr | ]. split; [ reflexivity | ].
    split; [ apply filter_none; intro; apply apply_range_equal, Heq | ].
    cbn. exact Hdb.
Qed.

(** C9.  Idempotence.  On a listing whose tokens name no member of
    [Object.prototype], with the numbers of the run safe integers: after a
    [migrate] without target that returns, a second [migrate] without target
    over the same directory, with the ledger readable, returns as well: its plan is empty, and the database (ledger,
    committed scripts) is the one the first run left. *)
Theorem C9_apply_to_latest_twice
  (e : env) (directory : string) (files : list string) (w w1 : world) :
  select_ok e = true ->
  readdir e directory = Some files ->
  own_tokens files ->
  safe_run files None (database w) ->
  migrate directory None e w = (Return tt, w1) ->
  exists w2,
    migrate directory None e w1 = (Return tt, w2) /\
    apply_plan files (current_version e (database w1))
      (apply_target files None) = [] /\
    database w2 = database w1.
Proof.
  intros Hs Hr _ _ H1.
  destruct (second_migrate_is_empty e directory w w1 Hs H1)
    as (files' & w2 & Hr' & H2 & Hp & Hdb).
  rewrite Hr in Hr'. inversion Hr'; subst files'.
  exists w2. auto.
Qed.
(** ** A run that stops at a unit *)

(** the step of [migrate] for a unit whose script runs and whose version is
    not in the ledger *)
Lemma migrate_version_applies e directory mf cur tgt v q w :
  apply_range cur tgt v = true ->
  unit_script directory mf "do" v = Some q ->
  script_ok e q = true ->
  has_version (int_of (parseInt v)) (ledger (database w)) = false ->
  exists w1,
    migrate_version directory mf cur tgt v e w = (Return tt, w1) /\
    ledger (database w1) = ledger (database w) ++ [unit_entry mf v] /\
    committed (database w1) = committed (database w) ++ [q].
Proof.
  intros Hsel Hq Hok Hnew.
  destruct (migrate_version directory mf cur tgt v e w) as [r w1] eqn:E.
  pose proof (migrate_version_step _ _ _ _ _ _ _ _ _ E) as H.
  rewrite Hsel in H. destruct H as [_ H].
  destruct r as [ [] | x | n ]; [ | | contradiction ].
  - destruct H as (p & Hp & _ & Hl & Hc & _).
    rewrite Hq in Hp. inversion Hp; subst. exists w1. auto.
  - exfalso. destruct H as (Hl & executed & Hc & Hs).
    inversion Hs as [ Hg He | Hg Hn He | p Hp Hf He Ht Hlog
                    | p t Hp Hs' He Ht Hv ]; subst.
    + unfold unit_script, prop in Hq. rewrite Hg in Hq. discriminate.
    + unfold unit_script in Hq. rewrite Hn in Hq. discriminate.
    + rewrite Hq in Hp. inversion Hp; subst. congruence.
    + destruct (apply_range_Fin _ _ _ Hsel) as [z Hz].
      specialize (Hv z Hz). rewrite Hz in Hnew. cbn in Hnew.
      rewrite Hl in Hv. congruence.
Qed.

(** the step of [migrate] for a unit whose script fails *)
Lemma migrate_version_fails e directory mf cur tgt v p w :
  apply_range cur tgt v = true ->
  unit_script directory mf "do" v = Some p ->
  script_ok e p = false ->
  exists w1,
    migrate_version directory mf cur tgt v e w
    = (Throw (QueryError (Script p)), w1) /\
    ledger (database w1) = ledger (database w) /\
    committed (database w1) = committed (database w) /\
    transaction (database w1) = None /\
    exists l,
      logged w1
      = l ++ [(error,
               Failed_to_apply_migration (base p) (QueryError (Script p)))].
Proof.
  intros Hsel Hq Hbad.
  destruct (migrate_version directory mf cur tgt v e w) as [r w1] eqn:E.
  pose proof (migrate_version_step _ _ _ _ _ _ _ _ _ E) as H.
  rewrite Hsel in H. destruct H as [_ H].
  destruct r as [ [] | x | n ]; [ | | contradiction ].
  - exfalso. destruct H as (p' & Hp & Hok & _).
    rewrite Hq in Hp. inversion Hp; subst. congruence.
  - destruct H as (Hl & executed & Hc & Hs).
    inversion Hs as [ Hg He | Hg Hn He | p' Hp Hf He Ht Hlog
                    | p' t Hp Hs' He Ht Hv ]; subst.
    + exfalso. unfold unit_script, prop in Hq. rewrite Hg in Hq.
      discriminate.
    + exfalso. unfold unit_script in Hq. rewrite Hn in Hq. discriminate.
    + rewrite Hq in Hp. inversion Hp; subst.
      destruct executed; [ | discriminate ]. rewrite app_nil_r in Hc.
      exists w1. auto.
    + exfalso. rewrite Hq in Hp. inversion Hp; subst. congruence.
Qed.

(** the step of [migrate] for a unit without [do] script *)
Lemma migrate_version_no_script e directory mf cur tgt v w :
  apply_range cur tgt v = true ->
  get mf v <> None ->
  prop mf v "do" = None ->
  exists w1,
    migrate_version directory mf cur tgt v e w
    = (Throw TypeError_path_join, w1) /\
    ledger (database w1) = ledger (database w) /\
    committed (database w1) = committed (database w).
Proof.
  intros Hsel Hget Hnone.
  destruct (migrate_version directory mf cur tgt v e w) as [r w1] eqn:E.
  pose proof (migrate_version_step _ _ _ _ _ _ _ _ _ E) as H.
  rewrite Hsel in H. destruct H as [_ H].
  destruct r as [ [] | x | n ]; [ | | contradiction ].
  - exfalso. destruct H as (p' & Hp & _).
    apply unit_script_prop in Hp. contradiction.
  - destruct H as (Hl & executed & Hc & Hs).
    inversion Hs as [ Hg He | Hg Hn He | p' Hp Hf He Ht Hlog
                    | p' t Hp Hs' He Ht Hv ]; subst.
    + contradiction.
    + destruct executed; [ | discriminate ]. rewrite app_nil_r in Hc.
      exists w1. auto.
    + exfalso. apply unit_script_prop in Hp. contradiction.
    + exfalso. apply unit_script_prop in Hp. contradiction.
Qed.

Lemma has_version_snoc z l x :
  has_version z (l ++ [x]) = has_version z l || (version x =? z).
Proof.
  unfold has_version. rewrite existsb_app. cbn. rewrite orb_false_r.
  reflexivity.
Qed.

(** the loop of [migrate] up to a unit [v] where the step throws: the
    units [done] before it are executed and recorded *)
Lemma migrate_loop_stops e directory mf cur tgt v x
  (Q : world -> world -> Prop) :
  (forall w, exists w1,
      migrate_version directory mf cur tgt v e w = (Throw x, w1) /\
      Q w w1) ->
  forall vs done rest w,
    filter (apply_range cur tgt) vs = done ++ v :: rest ->
    (forall u, In u done ->
               exists q, unit_script directory mf "do" u = Some q /\
                         script_ok e q = true) ->
    NoDup (map parseInt done) ->
    (forall u, In u done ->
               has_version (int_of (parseInt u)) (ledger (database w))
               = false) ->
    exists w0 w' executed,
      for_of vs (migrate_version directory mf cur tgt) e w = (Throw x, w') /\
      Q w0 w' /\
      ledger (database w0)
      = ledger (database w) ++ map (unit_entry mf) done /\
      committed (database w0) = committed (database w) ++ executed /\
      map Some executed = map (unit_script directory mf "do") done.
Proof.
  intros Hstop. induction vs as [ | a vs IH ]; intros done rest w Hf Hok Hnd Hnew.
  - destruct done; discriminate.
  - cbn [filter] in Hf. rewrite for_of_cons.
    destruct (apply_range cur tgt a) eqn:Hsel.
    + destruct done as [ | u done ]; cbn in Hf; inversion Hf; subst.
      * destruct (Hstop w) as (w1 & E & HQ). rewrite E.
        exists w, w1, []. cbn. rewrite !app_nil_r. auto.
      * destruct (Hok u (or_introl eq_refl)) as (q & Hq & Hrun).
        destruct (migrate_version_applies e directory mf cur tgt u q w
                    Hsel Hq Hrun (Hnew u (or_introl eq_refl)))
          as (w1 & E & Hl & Hc).
        rewrite E. cbn in Hnd. inversion Hnd as [ | ? ? Hnotin Hnd' ]; subst.
        destruct (IH done rest w1 H1) as (w0 & w' & executed & E' & HQ & Hl' & Hc' & Hm).
        -- intros u' Hu'. apply Hok. now right.
        -- exact Hnd'.
        -- intros u' Hu'. rewrite Hl, has_version_snoc.
           rewrite (Hnew u' (or_intror Hu')). cbn.
           apply Z.eqb_neq. intros Heq. apply Hnotin.
           apply in_map_iff. exists u'. split; [ | exact Hu' ].
           assert (Hin : In u' (filter (apply_range cur tgt) vs))
             by (rewrite H1; apply in_or_app; now left).
           apply filter_In in Hin. destruct Hin as [_ Hsel'].
           destruct (apply_range_Fin _ _ _ Hsel) as [z Hz].
           destruct (apply_range_Fin _ _ _ Hsel') as [z' Hz'].
           rewrite Hz, Hz' in *. cbn in Heq. congruence.
        -- exists w0, w', (q :: executed). rewrite E', Hl', Hc', Hl, Hc.
           rewrite <- !app_assoc. cbn. rewrite Hq, Hm. auto 10.
    + assert (E : migrate_version directory mf cur tgt a e w = (Return tt, w)).
      { unfold migrate_version.
        change (js_gt (parseInt a) cur && js_le (parseInt a) tgt)
          with (apply_range cur tgt a). rewrite Hsel. reflexivity. }
      rewrite E. apply IH with (rest := rest); assumption.
Qed.

(** a plan that is not empty passes the two tests of [migrate] *)
Lemma apply_plan_not_empty files cur tgt v :
  In v (apply_plan files cur tgt) ->
  js_lt tgt cur = false /\ js_eq tgt cur = false.
Proof.
  unfold apply_plan. intros H. apply filter_In in H. destruct H as [_ H].
  split.
  - destruct (js_lt tgt cur) eqn:E; [ | reflexivity ].
    rewrite (apply_range_below _ _ v E) in H. discriminate.
  - destruct (js_eq tgt cur) eqn:E; [ | reflexivity ].
    rewrite (apply_range_equal _ _ v E) in H. discriminate.
Qed.

Lemma revert_plan_not_empty files cur tgt v :
  In v (revert_plan files cur tgt) -> js_ge tgt cur = false.
Proof.
  unfold revert_plan. intros H. apply filter_In in H. destruct H as [_ H].
  destruct (js_ge tgt cur) eqn:E; [ | reflexivity ].
  rewrite (revert_range_above _ _ v E) in H. discriminate.
Qed.

(** the versions of a plan differ when those of the directory do *)
Lemma apply_plan_distinct files cur tgt :
  distinct_versions files -> NoDup (map parseInt (apply_plan files cur tgt)).
Proof.
  unfold distinct_versions, apply_plan. intros H.
  apply NoDup_map_filter.
  apply Permutation_NoDup with (map parseInt (discovered files)); [ | exact H ].
  apply Permutation_map, Permutation_sym, sort_perm.
Qed.

(** with a readable ledger, the versions of a plan of [migrate] are not in
    the ledger *)
Lemma apply_plan_new e files d tgt u :
  select_ok e = true ->
  In u (apply_plan files (current_version e d) tgt) ->
  has_version (int_of (parseInt u)) (ledger d) = false.
Proof.
  intros Hs Hin. apply apply_plan_In in Hin. destruct Hin as (_ & Hlt & _).
  assert (Hc : exists c, current_version e d = Fin c).
  { unfold current_version. rewrite Hs.
    destruct (latest (ledger d)) as [x | ]; [ | now exists 0 ].
    rewrite version_or_0_Some. eauto. }
  destruct Hc as [c Hc]. rewrite Hc in Hlt.
  destruct (parseInt_cases u) as [En | [z Ez]];
    [ rewrite En in Hlt; discriminate | rewrite Ez in * ].
  cbn in Hlt. apply Z.ltb_lt in Hlt. cbn.
  apply has_version_above with (c := c); [ | exact Hlt ].
  apply current_version_bound with (e := e); assumption.
Qed.

(** a run of [migrate] whose plan holds a unit [v] where the step throws *)
Lemma migrate_stops e directory files toVersion w done v rest x
  (Q : world -> world -> Prop) :
  connect_ok e = true ->
  select_ok e = true ->
  readdir e directory = Some files ->
  distinct_versions files ->
  let cur := current_version e (database w) in
  let tgt := apply_target files toVersion in
  apply_plan files cur tgt = done ++ v :: rest ->
  (forall u, In u done ->
             exists q, unit_script directory (scan files) "do" u = Some q /\
                       script_ok e q = true) ->
  (forall w, exists w1,
      migrate_version directory (scan files) cur tgt v e w = (Throw x, w1) /\
      Q w w1) ->
  exists w0 w' executed,
    migrate directory toVersion e w = (Throw x, w') /\
    Q w0 w' /\
    ledger (database w0)
    = ledger (database w) ++ map (unit_entry (scan files)) done /\
    committed (database w0) = committed (database w) ++ executed /\
    map Some executed = map (unit_script directory (scan files) "do") done.
Proof.
  intros Hc Hs Hr Hd cur tgt Hp Hok Hstop.
  assert (Hin : In v (apply_plan files cur tgt))
    by (rewrite Hp; apply in_or_app; right; now left).
  destruct (apply_plan_not_empty _ _ _ _ Hin) as [Hlt Heq].
  rewrite (migrate_eq _ _ _ _ _ Hc Hr). fold cur tgt. rewrite Hlt, Heq.
  destruct (migrate_loop_stops e directory (scan files) cur tgt v x Q Hstop
              (sort ascending (Object_keys (scan files))) done rest
              (version_read e (connected w)) Hp Hok)
    as (w0 & w' & executed & E & HQ & Hl & Hcm & Hm).
  - pose proof (apply_plan_distinct files cur tgt Hd) as Hnd.
    rewrite Hp, map_app in Hnd. eapply NoDup_app_remove_r. exact Hnd.
  - intros u Hu. rewrite version_read_database. cbn.
    apply apply_plan_new with (e := e) (files := files) (tgt := tgt);
      [ exact Hs | ].
    fold cur. rewrite Hp. apply in_or_app. now left.
  - rewrite version_read_database in Hl, Hcm. cbn in Hl, Hcm.
    exists w0, w', executed. auto.
Qed.

(** the step of [rollback] for a unit whose script runs *)
Lemma rollback_version_reverts e directory mf cur tgt v q w :
  revert_range cur tgt v = true ->
  unit_script directory mf "undo" v = Some q ->
  script_ok e q = true ->
  exists w1,
    rollback_version directory mf cur tgt v e w = (Return tt, w1) /\
    ledger (database w1) = delete_versions [v] (ledger (database w)) /\
    committed (database w1) = committed (database w) ++ [q].
Proof.
  intros Hsel Hq Hok.
  destruct (rollback_version directory mf cur tgt v e w) as [r w1] eqn:E.
  pose proof (rollback_version_step _ _ _ _ _ _ _ _ _ E) as H.
  rewrite Hsel in H. destruct H as [_ H].
  destruct r as [ [] | x | n ]; [ | | contradiction ].
  - destruct H as (p & Hp & _ & Hl & Hc & _).
    rewrite Hq in Hp. inversion Hp; subst. exists w1. auto.
  - exfalso. destruct H as (Hl & executed & Hc & Hs & Hx).
    inversion Hs as [ Hg He | Hg Hn He | p Hp Hf He Ht Hlog
                    | p t Hp Hs' He Ht Hv ]; subst.
    + unfold unit_script, prop in Hq. rewrite Hg in Hq. discriminate.
    + unfold unit_script in Hq. rewrite Hn in Hq. discriminate.
    + rewrite Hq in Hp. inversion Hp; subst. congruence.
    + eapply Hx. reflexivity.
Qed.

(** the step of [rollback] for a unit whose script fails *)
Lemma rollback_version_fails e directory mf cur tgt v p w :
  revert_range cur tgt v = true ->
  unit_script directory mf "undo" v = Some p ->
  script_ok e p = false ->
  exists w1,
    rollback_version directory mf cur tgt v e w
    = (Throw (QueryError (Script p)), w1) /\
    ledger (database w1) = ledger (database w) /\
    committed (database w1) = committed (database w) /\
    transaction (database w1) = None /\
    exists l,
      logged w1
      = l ++ [(error,
               Failed_to_revert_migration (base p) (QueryError (Script p)))].
Proof.
  intros Hsel Hq Hbad.
  destruct (rollback_version directory mf cur tgt v e w) as [r w1] eqn:E.
  pose proof (rollback_version_step _ _ _ _ _ _ _ _ _ E) as H.
  rewrite Hsel in H. destruct H as [_ H].
  destruct r as [ [] | x | n ]; [ | | contradiction ].
  - exfalso. destruct H as (p' & Hp & Hok & _).
    rewrite Hq in Hp. inversion Hp; subst. congruence.
  - destruct H as (Hl & executed & Hc & Hs & Hx).
    inversion Hs as [ Hg He | Hg Hn He | p' Hp Hf He Ht Hlog
                    | p' t Hp Hs' He Ht Hv ]; subst.
    + exfalso. unfold unit_script, prop in Hq. rewrite Hg in Hq.
      discriminate.
    + exfalso. unfold unit_script in Hq. rewrite Hn in Hq. discriminate.
    + rewrite Hq in Hp. inversion Hp; subst.
      destruct executed; [ | discriminate ]. rewrite app_nil_r in Hc.
      exists w1. auto.
    + exfalso. eapply Hx. reflexivity.
Qed.

(** the step of [rollback] for a unit without [undo] script *)
Lemma rollback_version_no_script e directory mf cur tgt v w :
  revert_range cur tgt v = true ->
  get mf v <> None ->
  prop mf v "undo" = None ->
  exists w1,
    rollback_version directory mf cur tgt v e w
    = (Throw TypeError_path_join, w1) /\
    ledger (database w1) = ledger (database w) /\
    committed (database w1) = committed (database w).
Proof.
  intros Hsel Hget Hnone.
  destruct (rollback_version directory mf cur tgt v e w) as [r w1] eqn:E.
  pose proof (rollback_version_step _ _ _ _ _ _ _ _ _ E) as H.
  rewrite Hsel in H. destruct H as [_ H].
  destruct r as [ [] | x | n ]; [ | | contradiction ].
  - exfalso. destruct H as (p' & Hp & _).
    apply unit_script_prop in Hp. contradiction.
  - destruct H as (Hl & executed & Hc & Hs & Hx).
    inversion Hs as [ Hg He | Hg Hn He | p' Hp Hf He Ht Hlog
                    | p' t Hp Hs' He Ht Hv ]; subst.
    + contradiction.
    + destruct executed; [ | discriminate ]. rewrite app_nil_r in Hc.
      exists w1. auto.
    + exfalso. apply unit_script_prop in Hp. contradiction.
    + exfalso. apply unit_script_prop in Hp. contradiction.
Qed.

Lemma delete_versions_cons u done l :
  delete_versions (u :: done) l = delete_versions done (delete_versions [u] l).
Proof. reflexivity. Qed.

(** the loop of [rollback] up to a unit [v] where the step throws: the
    units [done] before it are reverted and their rows deleted *)
Lemma rollback_loop_stops e directory mf cur tgt v x
  (Q : world -> world -> Prop) :
  (forall w, exists w1,
      rollback_version directory mf cur tgt v e w = (Throw x, w1) /\
      Q w w1) ->
  forall vs done rest w,
    filter (revert_range cur tgt) vs = done ++ v :: rest ->
    (forall u, In u done ->
               exists q, unit_script directory mf "undo" u = Some q /\
                         script_ok e q = true) ->
    exists w0 w' executed,
      for_of vs (rollback_version directory mf cur tgt) e w = (Throw x, w') /\
      Q w0 w' /\
      ledger (database w0) = delete_versions done (ledger (database w)) /\
      committed (database w0) = committed (database w) ++ executed /\
      map Some executed = map (unit_script directory mf "undo") done.
Proof.
  intros Hstop. induction vs as [ | a vs IH ]; intros done rest w Hf Hok.
  - destruct done; discriminate.
  - cbn [filter] in Hf. rewrite for_of_cons.
    destruct (revert_range cur tgt a) eqn:Hsel.
    + destruct done as [ | u done ]; cbn in Hf; inversion Hf; subst.
      * destruct (Hstop w) as (w1 & E & HQ). rewrite E.
        exists w, w1, []. cbn. rewrite !app_nil_r. auto.
      * destruct (Hok u (or_introl eq_refl)) as (q & Hq & Hrun).
        destruct (rollback_version_reverts e directory mf cur tgt u q w
                    Hsel Hq Hrun) as (w1 & E & Hl & Hc).
        rewrite E.
        destruct (IH done rest w1 H1)
          as (w0 & w' & executed & E' & HQ & Hl' & Hc' & Hm).
        -- intros u' Hu'. apply Hok. now right.
        -- exists w0, w', (q :: executed).
           rewrite E', Hl', Hc', Hl, Hc, delete_versions_cons.
           rewrite <- !app_assoc. cbn [map app]. rewrite Hq, Hm. auto 10.
    + assert (E : rollback_version directory mf cur tgt a e w
                  = (Return tt, w)).
      { unfold rollback_version.
        change (js_le (parseInt a) cur && js_gt (parseInt a) tgt)
          with (revert_range cur tgt a). rewrite Hsel. reflexivity. }
      rewrite E. apply IH with (rest := rest); assumption.
Qed.

(** a run of [rollback] whose plan holds a unit [v] where the step throws *)
Lemma rollback_stops e directory files toVersion w done v rest x
  (Q : world -> world -> Prop) :
  connect_ok e = true ->
  readdir e directory = Some files ->
  let cur := current_version e (database w) in
  let tgt := revert_target cur toVersion in
  revert_plan files cur tgt = done ++ v :: rest ->
  (forall u, In u done ->
             exists q, unit_script directory (scan files) "undo" u = Some q /\
                       script_ok e q = true) ->
  (forall w, exists w1,
      rollback_version directory (scan files) cur tgt v e w = (Throw x, w1) /\
      Q w w1) ->
  exists w0 w' executed,
    rollback directory toVersion e w = (Throw x, w') /\
    Q w0 w' /\
    ledger (database w0) = delete_versions done (ledger (database w)) /\
    committed (database w0) = committed (database w) ++ executed /\
    map Some executed
    = map (unit_script directory (scan files) "undo") done.
Proof.
  intros Hc Hr cur tgt Hp Hok Hstop.
  assert (Hin : In v (revert_plan files cur tgt))
    by (rewrite Hp; apply in_or_app; right; now left).
  pose proof (revert_plan_not_empty _ _ _ _ Hin) as Hge.
  rewrite (rollback_eq _ _ _ _ _ Hc Hr). fold cur tgt. rewrite Hge.
  destruct (rollback_loop_stops e directory (scan files) cur tgt v x Q Hstop
              (sort descending (Object_keys (scan files))) done rest
              (version_read e (connected w)) Hp Hok)
    as (w0 & w' & executed & E & HQ & Hl & Hcm & Hm).
  rewrite version_read_database in Hl, Hcm. cbn in Hl, Hcm.
  exists w0, w', executed. auto.
Qed.

(** ** Failure of a script *)

(** C2.  With a readable ledger, the versions of the directory numeric
    and distinct and the numbers of the run safe integers: when the script of a unit [v] of the plan fails, after
    the scripts of the units [done] before it have run, [migrate] throws the
    error of the script.  [executeMigration] has cancelled the transaction
    and reported an error that names the file; the units of [done] are
    committed and recorded in the ledger, and the failing unit and the ones
    after it are neither executed nor recorded. *)
Theorem C2_script_failure_stops_the_run
  (e : env) (directory : string) (files : list string)
  (toVersion : option string) (w : world)
  (done : list string) (v : string) (rest : list string) (p : path) :
  connect_ok e = true ->
  select_ok e = true ->
  readdir e directory = Some files ->
  numeric_versions files ->
  distinct_versions files ->
  safe_run files toVersion (database w) ->
  apply_plan files (current_version e (database w))
    (apply_target files toVersion) = done ++ v :: rest ->
  (forall u, In u done ->
             exists q, unit_script directory (scan files) "do" u = Some q /\
                       script_ok e q = true) ->
  unit_script directory (scan files) "do" v = Some p ->
  script_ok e p = false ->
  (forall action w0,
      executeMigration p action e w0 =
      (Throw (QueryError (Script p)),
       {| database :=
            {| table_defined := table_defined (database w0);
               version_index := version_index (database w0);
               ledger := ledger (database w0);
               committed := committed (database w0);
               transaction := None |};
          logged := logged w0
                    ++ [(error,
                         failure_message action (base p)
                           (QueryError (Script p)))] |})) /\
  exists w' executed,
    migrate directory toVersion e w = (Throw (QueryError (Script p)), w') /\
    transaction (database w') = None /\
    ledger (database w')
    = ledger (database w) ++ map (unit_entry (scan files)) done /\
    committed (database w') = committed (database w) ++ executed /\
    map Some executed = map (unit_script directory (scan files) "do") done /\
    exists l,
      logged w'
      = l ++ [(error,
               Failed_to_apply_migration (base p) (QueryError (Script p)))].
Proof.
  intros Hc Hs Hr _ Hd _ Hp Hok Hq Hbad. split.
  - intros action w0. rewrite executeMigration_eq, Hbad. reflexivity.
  - assert (Hin : In v (apply_plan files (current_version e (database w))
                          (apply_target files toVersion)))
      by (rewrite Hp; apply in_or_app; right; now left).
    apply filter_In in Hin. destruct Hin as [_ Hsel].
    destruct (migrate_stops e directory files toVersion w done v rest
                (QueryError (Script p))
                (fun w0 w1 =>
                   ledger (database w1) = ledger (database w0) /\
                   committed (database w1) = committed (database w0) /\
                   transaction (database w1) = None /\
                   exists l,
                     logged w1
                     = l ++ [(error,
                              Failed_to_apply_migration (base p)
                                (QueryError (Script p)))])
                Hc Hs Hr Hd Hp Hok)
      as (w0 & w' & executed & E & (Hl & Hcm & Ht & Hlog) & Hl0 & Hc0 & Hm).
    + intros w0. apply migrate_version_fails; assumption.
    + exists w', executed. rewrite Hl, Hcm, Hl0, Hc0. auto 10.
Qed.

(** ** A unit without the script of the direction *)

(** C3 as amended.  Nothing is checked before the loop.  With the versions
    of the directory numeric and the numbers of the run safe integers (and,
    for [migrate], a readable ledger and distinct versions, so that the
    units of [done] are recorded): when a unit [v] of the plan has no script
    of the direction, the units [done] before it in
    the plan are executed and recorded (applied for [migrate], deleted from
    the ledger for [rollback]) when the loop reaches [v], and the run fails
    there: neither [v] nor a later unit is executed or recorded. *)
Theorem C3_missing_script_fails_at_the_unit
  (e : env) (directory : string) (files : list string)
  (toVersion : option string) (w : world)
  (done : list string) (v : string) (rest : list string) :
  connect_ok e = true ->
  readdir e directory = Some files ->
  numeric_versions files ->
  safe_run files toVersion (database w) ->
  let cur := current_version e (database w) in
  (select_ok e = true ->
   distinct_versions files ->
   apply_plan files cur (apply_target files toVersion) = done ++ v :: rest ->
   (forall u, In u done ->
              exists q, unit_script directory (scan files) "do" u = Some q /\
                        script_ok e q = true) ->
   prop (scan files) v "do" = None ->
   exists w' executed,
     migrate directory toVersion e w = (Throw TypeError_path_join, w') /\
     ledger (database w')
     = ledger (database w) ++ map (unit_entry (scan files)) done /\
     committed (database w') = committed (database w) ++ executed /\
     map Some executed
     = map (unit_script directory (scan files) "do") done) /\
  (revert_plan files cur (revert_target cur toVersion) = done ++ v :: rest ->
   (forall u, In u done ->
              exists q, unit_script directory (scan files) "undo" u = Some q /\
                        script_ok e q = true) ->
   prop (scan files) v "undo" = None ->
   exists w' executed,
     rollback directory toVersion e w = (Throw TypeError_path_join, w') /\
     ledger (database w') = delete_versions done (ledger (database w)) /\
     committed (database w') = committed (database w) ++ executed /\
     map Some executed
     = map (unit_script directory (scan files) "undo") done).
Proof.
  intros Hc Hr _ _ cur. split.
  - intros Hs Hd Hp Hok Hnone.
    assert (Hin : In v (apply_plan files cur (apply_target files toVersion)))
      by (rewrite Hp; apply in_or_app; right; now left).
    pose proof Hin as Hdisc. apply apply_plan_In in Hdisc.
    apply filter_In in Hin. destruct Hin as [_ Hsel].
    destruct (migrate_stops e directory files toVersion w done v rest
                TypeError_path_join
                (fun w0 w1 =>
                   ledger (database w1) = ledger (database w0) /\
                   committed (database w1) = committed (database w0))
                Hc Hs Hr Hd Hp Hok)
      as (w0 & w' & executed & E & (Hl & Hcm) & Hl0 & Hc0 & Hm).
    + intros w0. apply migrate_version_no_script; auto.
      apply discovered_get, Hdisc.
    + exists w', executed. rewrite Hl, Hcm, Hl0, Hc0. auto.
  - intros Hp Hok Hnone.
    assert (Hin : In v (revert_plan files cur (revert_target cur toVersion)))
      by (rewrite Hp; apply in_or_app; right; now left).
    pose proof Hin as Hdisc. apply revert_plan_In in Hdisc.
    apply filter_In in Hin. destruct Hin as [_ Hsel].
    destruct (rollback_stops e directory files toVersion w done v rest
                TypeError_path_join
                (fun w0 w1 =>
                   ledger (database w1) = ledger (database w0) /\
                   committed (database w1) = committed (database w0))
                Hc Hr Hp Hok)
      as (w0 & w' & executed & E & (Hl & Hcm) & Hl0 & Hc0 & Hm).
    + intros w0. apply rollback_version_no_script; auto.
      apply discovered_get, Hdisc.
    + exists w', executed. rewrite Hl, Hcm, Hl0, Hc0. auto.
Qed.


(** ** The properties on concrete directories *)

Example parseInt_decimal : parseInt "12" = Fin 12.
Proof. reflexivity. Qed.

Example parseInt_leading_zeros : parseInt "007" = Fin 7.
Proof. reflexivity. Qed.

Example parseInt_prefix : parseInt "7abc" = Fin 7.
Proof. reflexivity. Qed.

Example parseInt_hexadecimal : parseInt "0x1f" = Fin 31.
Proof. reflexivity. Qed.

Example parseInt_sign : parseInt " -4" = Fin (-4).
Proof. reflexivity. Qed.

Example parseInt_no_digit : parseInt "abc" = NaN.
Proof. reflexivity. Qed.

Example scan_groups_by_token :
  scan ["2.undo.users.surql"; "notes.txt"; "2.do.users.surql"]
  = [("2", [("title", "users"); ("undo", "2.undo.users.surql");
            ("do", "2.do.users.surql")])].
Proof. reflexivity. Qed.

Example keys_in_loop_order :
  sort ascending (discovered ["10.do.x.surql"; "9.do.y.surql"; "1.do.z.surql"])
  = ["1"; "9"; "10"].
Proof. reflexivity. Qed.

Example discovered_1235 : discovered files_1235 = ["1"; "2"; "3"; "5"].
Proof. reflexivity. Qed.

(** the plan of the directory with the versions 1, 2, 3 and 5, from an
    empty ledger and without target *)
Example apply_plan_1235 :
  apply_plan files_1235 (Fin 0) (apply_target files_1235 None)
  = ["1"; "2"; "3"; "5"].
Proof. reflexivity. Qed.

(** the directory with the versions 1, 2, 3 and 5 *)
Lemma numeric_1235 : numeric_versions files_1235.
Proof.
  unfold numeric_versions. rewrite discovered_1235.
  repeat (apply Forall_cons; [ eexists; reflexivity | ]). apply Forall_nil.
Defined.

Lemma discovered_678 : discovered files_678 = ["6"; "7"; "8"].
Proof. vm_compute. reflexivity. Qed.

Lemma numeric_678 : numeric_versions files_678.
Proof.
  unfold numeric_versions. rewrite discovered_678.
  repeat (apply Forall_cons; [ eexists; reflexivity | ]). apply Forall_nil.
Defined.

Lemma distinct_678 : distinct_versions files_678.
Proof.
  unfold distinct_versions. rewrite discovered_678.
  replace (map parseInt ["6"; "7"; "8"]) with [Fin 6; Fin 7; Fin 8]
    by (vm_compute; reflexivity).
  repeat constructor; cbn; intuition discriminate.
Defined.

Lemma distinct_1235 : distinct_versions files_1235.
Proof.
  unfold distinct_versions. rewrite discovered_1235.
  replace (map parseInt ["1"; "2"; "3"; "5"])
    with [Fin 1; Fin 2; Fin 3; Fin 5] by (vm_compute; reflexivity).
  repeat constructor; cbn; intuition discriminate.
Defined.

Lemma discovered_345 : discovered files_345 = ["3"; "4"; "5"].
Proof. vm_compute. reflexivity. Qed.

Lemma numeric_345 : numeric_versions files_345.
Proof.
  unfold numeric_versions. rewrite discovered_345.
  repeat (apply Forall_cons; [ eexists; reflexivity | ]). apply Forall_nil.
Defined.

Lemma distinct_345 : distinct_versions files_345.
Proof.
  unfold distinct_versions. rewrite discovered_345.
  replace (map parseInt ["3"; "4"; "5"]) with [Fin 3; Fin 4; Fin 5]
    by (vm_compute; reflexivity).
  repeat constructor; cbn; intuition discriminate.
Defined.


(** C2 on the plan 6, 7, 8 where the script of 7 fails *)
Lemma C2_witness :
  connect_ok env_678 = true /\
  select_ok env_678 = true /\
  readdir env_678 "migrations" = Some files_678 /\
  numeric_versions files_678 /\
  distinct_versions files_678 /\
  safe_run files_678 None (database world_5) /\
  apply_plan files_678 (current_version env_678 (database world_5))
    (apply_target files_678 None) = ["6"] ++ "7" :: ["8"] /\
  unit_script "migrations" (scan files_678) "do" "7"
  = Some (script "7.do.b.surql") /\
  script_ok env_678 (script "7.do.b.surql") = false /\
  exists w' executed,
    migrate "migrations" None env_678 world_5
    = (Throw (QueryError (Script (script "7.do.b.surql"))), w') /\
    transaction (database w') = None /\
    ledger (database w')
    = ledger (database world_5) ++ map (unit_entry (scan files_678)) ["6"] /\
    committed (database w') = committed (database world_5) ++ executed /\
    map Some executed
    = map (unit_script "migrations" (scan files_678) "do") ["6"] /\
    exists l,
      logged w'
      = l ++ [(error,
               Failed_to_apply_migration "7.do.b.surql"
                 (QueryError (Script (script "7.do.b.surql"))))].
Proof.
  assert (Hsafe : safe_run files_678 None (database world_5))
    by (vm_compute; reflexivity).
  assert (Hplan : apply_plan files_678
                    (current_version env_678 (database world_5))
                    (apply_target files_678 None) = ["6"] ++ "7" :: ["8"])
    by (vm_compute; reflexivity).
  assert (Hq : unit_script "migrations" (scan files_678) "do" "7"
               = Some (script "7.do.b.surql"))
    by (vm_compute; reflexivity).
  assert (Hbad : script_ok env_678 (script "7.do.b.surql") = false)
    by (vm_compute; reflexivity).
  assert (Hok : forall u, In u ["6"] ->
                  exists q,
                    unit_script "migrations" (scan files_678) "do" u = Some q /\
                    script_ok env_678 q = true).
  { intros u [<- | []]. exists (script "6.do.a.surql").
    split; vm_compute; reflexivity. }
  split; [ reflexivity | ]. split; [ reflexivity | ].
  split; [ reflexivity | ]. split; [ exact numeric_678 | ].
  split; [ exact distinct_678 | ]. split; [ exact Hsafe | ].
  split; [ exact Hplan | ]. split; [ exact Hq | ]. split; [ exact Hbad | ].
  exact (proj2 (C2_script_failure_stops_the_run env_678 "migrations"
                  files_678 None world_5 ["6"] "7" ["8"]
                  (script "7.do.b.surql") eq_refl eq_refl eq_refl
                  numeric_678 distinct_678 Hsafe Hplan Hok Hq Hbad)).
Defined.

(** the partial failure: the plan is 6, 7, 8 and the script of 7 fails *)
Example partial_failure_678 :
  apply_plan files_678 (current_version env_678 (database world_5))
    (apply_target files_678 None) = ["6"; "7"; "8"] /\
  fst (migrate "migrations" None env_678 world_5)
  = Throw (QueryError (Script (script "7.do.b.surql"))) /\
  ledger (database (after (migrate "migrations" None) env_678 world_5))
  = [{| version := 5; title := Some "e" |};
     {| version := 6; title := Some "a" |}] /\
  committed (database (after (migrate "migrations" None) env_678 world_5))
  = [script "6.do.a.surql"].
Proof. repeat split; vm_compute; reflexivity. Qed.

(** C3, counterexample.  Version 4 has no [do] script and is in the range:
    the run fails at version 4 after the script of version 3 is executed
    and recorded. *)
Lemma C3_counterexample :
  In "4" (apply_plan files_345 (Fin 0) (apply_target files_345 None)) /\
  prop (scan files_345) "4" "do" = None /\
  fst (migrate "migrations" None env_345 empty_world)
  = Throw TypeError_path_join /\
  committed (database (after (migrate "migrations" None) env_345 empty_world))
  = [script "3.do.a.surql"] /\
  ledger (database (after (migrate "migrations" None) env_345 empty_world))
  = [{| version := 3; title := Some "a" |}].
Proof.
  split; [ right; left; reflexivity | ].
  repeat split; vm_compute; reflexivity.
Qed.

(** C3 as amended, on the directory where version 4 has no [do] script *)
Lemma C3_witness :
  connect_ok env_345 = true /\
  readdir env_345 "migrations" = Some files_345 /\
  numeric_versions files_345 /\
  safe_run files_345 None (database empty_world) /\
  select_ok env_345 = true /\
  distinct_versions files_345 /\
  apply_plan files_345 (current_version env_345 (database empty_world))
    (apply_target files_345 None) = ["3"] ++ "4" :: ["5"] /\
  prop (scan files_345) "4" "do" = None /\
  exists w' executed,
    migrate "migrations" None env_345 empty_world
    = (Throw TypeError_path_join, w') /\
    ledger (database w')
    = ledger (database empty_world)
      ++ map (unit_entry (scan files_345)) ["3"] /\
    committed (database w') = committed (database empty_world) ++ executed /\
    map Some executed
    = map (unit_script "migrations" (scan files_345) "do") ["3"].
Proof.
  assert (Hsafe : safe_run files_345 None (database empty_world))
    by (vm_compute; reflexivity).
  assert (Hplan : apply_plan files_345
                    (current_version env_345 (database empty_world))
                    (apply_target files_345 None) = ["3"] ++ "4" :: ["5"])
    by (vm_compute; reflexivity).
  assert (Hnone : prop (scan files_345) "4" "do" = None)
    by (vm_compute; reflexivity).
  assert (Hok : forall u, In u ["3"] ->
                  exists q,
                    unit_script "migrations" (scan files_345) "do" u = Some q /\
                    script_ok env_345 q = true).
  { intros u [<- | []]. exists (script "3.do.a.surql").
    split; vm_compute; reflexivity. }
  split; [ reflexivity | ]. split; [ reflexivity | ].
  split; [ exact numeric_345 | ]. split; [ exact Hsafe | ].
  split; [ reflexivity | ]. split; [ exact distinct_345 | ].
  split; [ exact Hplan | ]. split; [ exact Hnone | ].
  exact (proj1 (C3_missing_script_fails_at_the_unit env_345 "migrations"
                  files_345 None empty_world ["3"] "4" ["5"]
                  eq_refl eq_refl numeric_345 Hsafe)
           eq_refl distinct_345 Hplan Hok Hnone).
Defined.

(** the state after the four versions are applied *)
Lemma reachable_after_migrate :
  reachable (after (migrate "migrations" None) env_1235 empty_world).
Proof.
  apply reach_migrate
    with (directory := "migrations") (toVersion := None) (e := env_1235)
         (w := empty_world) (r := Return tt).
  - apply reach_fresh; reflexivity.
  - vm_compute. reflexivity.
Defined.

(** C4 in that state: the versions are distinct and version 2 cannot be
    recorded again *)
Lemma C4_witness :
  reachable (after (migrate "migrations" None) env_1235 empty_world) /\
  unique_versions
    (database (after (migrate "migrations" None) env_1235 empty_world)) /\
  exists w',
    setCurrentVersion (Fin 2) (Some "users") env_1235
      (after (migrate "migrations" None) env_1235 empty_world)
    = (Throw (QueryError (Create (Fin 2) (Some "users"))), w') /\
    database w'
    = database (after (migrate "migrations" None) env_1235 empty_world).
Proof.
  split; [ exact reachable_after_migrate | ].
  destruct (C4_one_row_per_version _ reachable_after_migrate) as [Hu Hd].
  split; [ exact Hu | ].
  assert (H2 : has_version 2
                 (ledger
                    (database
                       (after (migrate "migrations" None) env_1235
                          empty_world))) = true)
    by (vm_compute; reflexivity).
  destruct (Hd 2 (Some "users") env_1235 H2) as (w' & E & Hdb & _).
  exists w'. split; [ exact E | exact Hdb ].
Defined.

(** the index is what keeps the versions distinct: on a table that was
    defined without it, the two units of version 1 are both recorded *)
Example two_rows_without_index :
  fst (migrate "migrations" None env_1_01 world_no_index) = Return tt /\
  map version
    (ledger (database (after (migrate "migrations" None) env_1_01
                         world_no_index)))
  = [1; 1].
Proof. split; vm_compute; reflexivity. Qed.

(** C5 with the current version 5: [migrate] to 3 and [rollback] to 7 *)
Lemma C5_witness :
  connect_ok env_1235 = true /\
  readdir env_1235 "migrations" = Some files_1235 /\
  own_tokens files_1235 /\
  safe_run files_1235 (Some "3") (database world_5) /\
  safe_run files_1235 (Some "7") (database world_5) /\
  current_version env_1235 (database world_5) = Fin 5 /\
  (exists w',
      migrate "migrations" (Some "3") env_1235 world_5 = (Return tt, w') /\
      apply_plan files_1235 (Fin 5) (Fin 3) = [] /\
      ledger (database w') = ledger (database world_5) /\
      committed (database w') = committed (database world_5)) /\
  (exists w',
      rollback "migrations" (Some "7") env_1235 world_5 = (Return tt, w') /\
      revert_plan files_1235 (Fin 5) (Fin 7) = [] /\
      ledger (database w') = ledger (database world_5) /\
      committed (database w') = committed (database world_5)).
Proof.
  assert (Hown : own_tokens files_1235) by (vm_compute; reflexivity).
  assert (H3 : safe_run files_1235 (Some "3") (database world_5))
    by (vm_compute; reflexivity).
  assert (H7 : safe_run files_1235 (Some "7") (database world_5))
    by (vm_compute; reflexivity).
  split; [ reflexivity | ]. split; [ reflexivity | ].
  split; [ exact Hown | ]. split; [ exact H3 | ]. split; [ exact H7 | ].
  split; [ reflexivity | ]. split.
  - destruct (proj1 (C5_direction_guard env_1235 "migrations" files_1235
                       (Some "3") world_5 eq_refl eq_refl Hown H3) eq_refl)
      as (w' & E & Hp & Hl & Hc & _).
    exists w'. repeat split; assumption.
  - destruct (proj2 (C5_direction_guard env_1235 "migrations" files_1235
                       (Some "7") world_5 eq_refl eq_refl Hown H7) eq_refl)
      as (w' & E & Hp & Hl & Hc & _).
    exists w'. repeat split; assumption.
Defined.

(** C6 on the empty directory and the empty ledger *)
Lemma C6_witness :
  connect_ok env_empty = true /\
  select_ok env_empty = true /\
  readdir env_empty "migrations" = Some [] /\
  discovered [] = [] /\
  ledger (database empty_world) = [] /\
  getInfo "migrations" env_empty empty_world =
  (Return {| currentVersion := Fin 0;
             currentVersionTitle := Some "No migrations applied";
             latestVersion := NegInf;
             pendingMigrations := [] |},
   connected empty_world).
Proof.
  repeat (split; [ reflexivity | ]).
  exact (C6_empty_repository_latest_version env_empty "migrations" []
           empty_world eq_refl eq_refl eq_refl eq_refl eq_refl).
Defined.

(** two units of version 1: the second script is committed, and recording
    its version fails; the error leaves [migrate] *)
Example duplicate_version_is_refused :
  sort ascending (discovered files_1_01) = ["1"; "01"] /\
  fst (migrate "migrations" None env_1_01 empty_world)
  = Throw (QueryError (Create (Fin 1) (Some "b"))) /\
  committed (database (after (migrate "migrations" None) env_1_01 empty_world))
  = [script "1.do.a.surql"; script "01.do.b.surql"] /\
  ledger (database (after (migrate "migrations" None) env_1_01 empty_world))
  = [{| version := 1; title := Some "a" |}].
Proof. repeat split; vm_compute; reflexivity. Qed.





(** C9 on the directory with the versions 1, 2, 3 and 5 *)
Lemma C9_witness :
  select_ok env_1235 = true /\
  readdir env_1235 "migrations" = Some files_1235 /\
  own_tokens files_1235 /\
  safe_run files_1235 None (database empty_world) /\
  migrate "migrations" None env_1235 empty_world
  = (Return tt, after (migrate "migrations" None) env_1235 empty_world) /\
  exists w2,
    migrate "migrations" None env_1235
      (after (migrate "migrations" None) env_1235 empty_world)
    = (Return tt, w2) /\
    apply_plan files_1235
      (current_version env_1235
         (database (after (migrate "migrations" None) env_1235 empty_world)))
      (apply_target files_1235 None) = [] /\
    database w2
    = database (after (migrate "migrations" None) env_1235 empty_world).
Proof.
  assert (Hown : own_tokens files_1235) by (vm_compute; reflexivity).
  assert (Hsafe : safe_run files_1235 None (database empty_world))
    by (vm_compute; reflexivity).
  assert (H : migrate "migrations" None env_1235 empty_world
              = (Return tt,
                 after (migrate "migrations" None) env_1235 empty_world))
    by (vm_compute; reflexivity).
  split; [ reflexivity | ]. split; [ reflexivity | ].
  split; [ exact Hown | ]. split; [ exact Hsafe | ]. split; [ exact H | ].
  exact (C9_apply_to_latest_twice env_1235 "migrations" files_1235
           empty_world
           (after (migrate "migrations" None) env_1235 empty_world)
           eq_refl eq_refl Hown Hsafe H).
Defined.

(** the ledger holds the versions 1 and 2 and cannot be read: version 1 is
    executed again, and recording it fails *)
Example unreadable_ledger_reapplies :
  fst (migrate "migrations" None env_unreadable world_12)
  = Throw (QueryError (Create (Fin 1) (Some "init"))) /\
  committed (database (after (migrate "migrations" None) env_unreadable world_12))
  = [script "1.do.init.surql"] /\
  ledger (database (after (migrate "migrations" None) env_unreadable world_12))
  = ledger (database world_12).
Proof. repeat split; vm_compute; reflexivity. Qed.


(** * Further properties *)

(** ** The scanner *)

Lemma get_set_same {V : Type} (o : object V) k v : get (set o k v) k = Some v.
Proof.
  induction o as [ | [k' v'] o IH ]; cbn.
  - rewrite String.eqb_refl. reflexivity.
  - destruct (String.eqb k' k) eqn:E; cbn; rewrite E; auto.
Qed.

Lemma get_set_other {V : Type} (o : object V) k v k' :
  k <> k' -> get (set o k v) k' = get o k'.
Proof.
  intros Hn. induction o as [ | [k0 v0] o IH ]; cbn.
  - apply String.eqb_neq in Hn. rewrite Hn. reflexivity.
  - destruct (String.eqb k0 k) eqn:E; cbn.
    + apply String.eqb_eq in E. subst k0.
      apply String.eqb_neq in Hn. rewrite Hn. reflexivity.
    + rewrite IH. reflexivity.
Qed.

Lemma get_scan_file acc file k :
  get (scan_file acc file) k =
  if String.eqb (token file) k
  then Some (set match get acc k with
                 | Some m => m
                 | None => [("title", title_of file)]
                 end (action_of file) file)
  else get acc k.
Proof.
  unfold scan_file. cbv zeta.
  fold (token file) (action_of file) (title_of file).
  destruct (String.eqb (token file) k) eqn:E.
  - apply String.eqb_eq in E. subst k.
    destruct (get acc (token file)) as [m | ] eqn:G.
    + rewrite G. apply get_set_same.
    + rewrite get_set_same. apply get_set_same.
  - apply String.eqb_neq in E.
    destruct (get acc (token file)) as [m | ] eqn:G.
    + rewrite G. apply get_set_other, E.
    + rewrite get_set_same. rewrite !get_set_other by exact E. reflexivity.
Qed.

Lemma scan_snoc files file :
  names_direction file = true ->
  scan (files ++ [file]) = scan_file (scan files) file.
Proof.
  intros H. unfold scan. rewrite filter_app. cbn [filter].
  change (includes file ".do." || includes file ".undo.")
    with (names_direction file).
  rewrite H, fold_left_app. reflexivity.
Qed.

Lemma scan_skip files file :
  names_direction file = false -> scan (files ++ [file]) = scan files.
Proof.
  intros H. unfold scan. rewrite filter_app. cbn [filter].
  change (includes file ".do." || includes file ".undo.")
    with (names_direction file).
  rewrite H, app_nil_r. reflexivity.
Qed.

Lemma get_scan_None files k :
  get (scan files) k = None <->
  forall file, In file (kept files) -> token file <> k.
Proof.
  induction files as [ | file files IH ] using rev_ind.
  - cbn. split; [ intros _ f [] | reflexivity ].
  - unfold kept in *. rewrite filter_app. cbn [filter].
    destruct (names_direction file) eqn:D.
    + rewrite (scan_snoc _ _ D), get_scan_file.
      destruct (String.eqb (token file) k) eqn:E.
      * split; [ discriminate | ]. intros H. exfalso.
        apply String.eqb_eq in E. apply (H file); auto.
        apply in_or_app. right. now left.
      * rewrite IH. apply String.eqb_neq in E. split.
        -- intros H f Hf. apply in_app_or in Hf.
           destruct Hf as [Hf | [<- | []]]; auto.
        -- intros H f Hf. apply H. apply in_or_app. now left.
    + rewrite (scan_skip _ _ D), app_nil_r. exact IH.
Qed.

Lemma discovered_from_file files k :
  In k (discovered files) ->
  exists file, In file files /\ names_direction file = true /\ token file = k.
Proof.
  intros H. apply discovered_get in H.
  destruct (get (scan files) k) as [m | ] eqn:G; [ clear H | congruence ].
  assert (Hn : ~ (forall file, In file (kept files) -> token file <> k)).
  { intros Hall. apply get_scan_None in Hall. congruence. }
  clear G. unfold kept in Hn.
  induction files as [ | f files IH ].
  - exfalso. apply Hn. intros f [].
  - cbn [filter] in Hn.
    destruct (names_direction f) eqn:D.
    + destruct (String.eqb (token f) k) eqn:E.
      * apply String.eqb_eq in E. exists f. split; [ now left | auto ].
      * apply String.eqb_neq in E.
        destruct IH as (f' & Hin & Hd & Ht).
        { intros Hall. apply Hn. intros f' [<- | Hf']; auto. }
        exists f'. split; [ now right | auto ].
    + destruct (IH Hn) as (f' & Hin & Hd & Ht).
      exists f'. split; [ now right | auto ].
Qed.

(** X1.  On a listing whose tokens name no member of [Object.prototype],
    the units of a directory are the first tokens of the file names that
    hold a direction: a key is discovered exactly when it is the token of
    such a file. *)
Theorem X1_discovered_are_the_tokens (files : list string) (k : string) :
  own_tokens files ->
  (In k (discovered files) <->
  exists file, In file files /\ names_direction file = true /\ token file = k).
Proof.
  intros _. split.
  - apply discovered_from_file.
  - intros (file & Hin & Hd & <-). apply discovered_token; assumption.
Qed.

Lemma find_snoc {A : Type} (f : A -> bool) (l : list A) (x : A) :
  find f (l ++ [x]) =
  match find f l with
  | Some y => Some y
  | None => if f x then Some x else None
  end.
Proof.
  induction l as [ | a l IH ]; cbn; [ reflexivity | ].
  destruct (f a); auto.
Qed.

Lemma kept_snoc files file :
  kept (files ++ [file]) =
  if names_direction file then kept files ++ [file] else kept files.
Proof.
  unfold kept. rewrite filter_app. cbn [filter].
  destruct (names_direction file); [ reflexivity | apply app_nil_r ].
Qed.

(** X2.  On a listing whose tokens name no member of [Object.prototype],
    and for a key and a direction that name none: the script of a unit is
    the last file of the listing with the token and the direction of the
    unit.  A later file replaces an earlier one, and a unit without such a
    file has no script of the direction. *)
Theorem X2_the_last_file_is_the_script
  (files : list string) (k action : string) :
  own_tokens files ->
  prototype_member k = false ->
  prototype_member action = false ->
  action <> "title" ->
  prop (scan files) k action
  = find (is_script_of k action) (rev (kept files)).
Proof.
  intros _ _ _ Ha. induction files as [ | file files IH ] using rev_ind.
  - reflexivity.
  - rewrite kept_snoc. destruct (names_direction file) eqn:D.
    + rewrite (scan_snoc _ _ D), rev_app_distr. cbn [rev app find].
      unfold prop in *. rewrite get_scan_file. unfold is_script_of at 1.
      destruct (String.eqb (token file) k) eqn:E; cbn [andb]; [ | exact IH ].
      destruct (String.eqb (action_of file) action) eqn:F.
      * apply String.eqb_eq in F. subst action. apply get_set_same.
      * apply String.eqb_neq in F. rewrite get_set_other by exact F.
        destruct (get (scan files) k) as [m | ]; [ exact IH | ].
        rewrite <- IH. cbn [get].
        destruct (String.eqb "title" action) eqn:T; [ | reflexivity ].
        apply String.eqb_eq in T. congruence.
    + rewrite (scan_skip _ _ D). exact IH.
Qed.

Lemma find_token_None files k :
  find (fun f => String.eqb (token f) k) (kept files) = None <->
  get (scan files) k = None.
Proof.
  rewrite get_scan_None. split.
  - intros H f Hf E. apply (find_none _ _ H) in Hf.
    apply String.eqb_neq in Hf. contradiction.
  - intros H. destruct (find _ _) as [f | ] eqn:E; [ | reflexivity ].
    apply find_some in E. destruct E as [Hin E].
    apply String.eqb_eq in E. exfalso. exact (H f Hin E).
Qed.

(** X3.  On a listing whose tokens name no member of [Object.prototype],
    the title of a unit is the title of the first file of the listing with
    the token of the unit, when no file of the unit has [title] for
    direction: the later files of the unit do not change it. *)
Theorem X3_the_first_file_gives_the_title (files : list string) (k : string) :
  own_tokens files ->
  (forall file, In file (kept files) -> token file = k ->
                action_of file <> "title") ->
  prop (scan files) k "title"
  = option_map title_of
      (find (fun file => String.eqb (token file) k) (kept files)).
Proof.
  intros _. induction files as [ | file files IH ] using rev_ind; intros Hno.
  - reflexivity.
  - rewrite kept_snoc in *. destruct (names_direction file) eqn:D.
    + assert (IH' : prop (scan files) k "title"
                    = option_map title_of
                        (find (fun f => String.eqb (token f) k) (kept files))).
      { apply IH. intros f Hf. apply Hno. apply in_or_app. now left. }
      clear IH.
      rewrite (scan_snoc _ _ D), find_snoc.
      unfold prop in *. rewrite get_scan_file.
      destruct (String.eqb (token file) k) eqn:E.
      * assert (F : action_of file <> "title").
        { apply Hno; [ apply in_or_app; right; now left | ].
          apply String.eqb_eq, E. }
        rewrite get_set_other by exact F.
        destruct (get (scan files) k) as [m | ] eqn:G.
        -- destruct (find _ (kept files)) as [f0 | ] eqn:Hf; [ exact IH' | ].
           apply find_token_None in Hf. congruence.
        -- apply find_token_None in G. rewrite G. reflexivity.
      * destruct (find _ (kept files)); exact IH'.
    + rewrite (scan_skip _ _ D). apply IH, Hno.
Qed.

(** ** Fatal errors *)

Lemma migrate_no_connection e directory toVersion w :
  connect_ok e = false ->
  migrate directory toVersion e w
  = (Exit 1,
     {| database := database w;
        logged := logged w
                  ++ [(error, Failed_to_connect (QueryError Connect))] |}).
Proof.
  intros H. unfold migrate. unfold bind at 1.
  rewrite connectToDatabase_eq, H. reflexivity.
Qed.

Lemma rollback_no_connection e directory toVersion w :
  connect_ok e = false ->
  rollback directory toVersion e w
  = (Exit 1,
     {| database := database w;
        logged := logged w
                  ++ [(error, Failed_to_connect (QueryError Connect))] |}).
Proof.
  intros H. unfold rollback. unfold bind at 1.
  rewrite connectToDatabase_eq, H. reflexivity.
Qed.

Lemma getInfo_no_connection e directory w :
  connect_ok e = false ->
  getInfo directory e w
  = (Exit 1,
     {| database := database w;
        logged := logged w
                  ++ [(error, Failed_to_connect (QueryError Connect))] |}).
Proof.
  intros H. unfold getInfo. unfold bind at 1.
  rewrite connectToDatabase_eq, H. reflexivity.
Qed.

Lemma migrate_no_directory e directory toVersion w :
  connect_ok e = true -> readdir e directory = None ->
  migrate directory toVersion e w
  = (Exit 1,
     {| database := database (connected w);
        logged := logged (connected w)
                  ++ [(error, Failed_to_read_migration_files)] |}).
Proof.
  intros H Hr. unfold migrate. unfold bind at 1.
  rewrite connectToDatabase_eq, H.
  unfold bind at 1, getMigrationFiles. rewrite Hr. reflexivity.
Qed.

Lemma rollback_no_directory e directory toVersion w :
  connect_ok e = true -> readdir e directory = None ->
  rollback directory toVersion e w
  = (Exit 1,
     {| database := database (connected w);
        logged := logged (connected w)
                  ++ [(error, Failed_to_read_migration_files)] |}).
Proof.
  intros H Hr. unfold rollback. unfold bind at 1.
  rewrite connectToDatabase_eq, H.
  unfold bind at 1, getMigrationFiles. rewrite Hr. reflexivity.
Qed.

Lemma getInfo_no_directory e directory w :
  connect_ok e = true -> readdir e directory = None ->
  getInfo directory e w
  = (Exit 1,
     {| database := database (connected w);
        logged := logged (connected w)
                  ++ [(error, Failed_to_read_migration_files)] |}).
Proof.
  intros H Hr. unfold getInfo. unfold bind at 1.
  rewrite connectToDatabase_eq, H.
  unfold bind at 1, getMigrationFiles. rewrite Hr. reflexivity.
Qed.

(** X4.  A command whose connection fails, or whose directory cannot be
    read, ends the process with code 1: no script is executed and the
    ledger is not touched; the three commands report the error and do
    nothing else. *)
Theorem X4_fatal_errors_exit
  (e : env) (directory : string) (toVersion : option string) (w : world) :
  connect_ok e = false \/ readdir e directory = None ->
  exists w',
    migrate directory toVersion e w = (Exit 1, w') /\
    rollback directory toVersion e w = (Exit 1, w') /\
    getInfo directory e w = (Exit 1, w') /\
    ledger (database w') = ledger (database w) /\
    committed (database w') = committed (database w) /\
    transaction (database w') = transaction (database w) /\
    exists l x, logged w' = l ++ [(error, x)].
Proof.
  intros H. destruct (connect_ok e) eqn:Hc.
  - destruct H as [H | H]; [ discriminate | ].
    eexists. split; [ apply migrate_no_directory; assumption | ].
    split; [ apply rollback_no_directory; assumption | ].
    split; [ apply getInfo_no_directory; assumption | ].
    cbn. repeat split. eauto.
  - eexists. split; [ apply migrate_no_connection; assumption | ].
    split; [ apply rollback_no_connection; assumption | ].
    split; [ apply getInfo_no_connection; assumption | ].
    cbn. repeat split. eauto.
Qed.

(** ** What the commands change *)

Lemma apply_range_above cur tgt v z :
  apply_range cur tgt v = true -> parseInt v = Fin z ->
  js_lt cur (Fin z) = true /\ js_le (Fin z) tgt = true.
Proof.
  unfold apply_range, js_gt. intros H E. rewrite E in H.
  apply andb_true_iff in H. exact H.
Qed.

Lemma unit_entry_version mf v z :
  parseInt v = Fin z -> version (unit_entry mf v) = z.
Proof. intros E. unfold unit_entry. cbn. rewrite E. reflexivity. Qed.

Lemma delete_versions_In vs : forall l x,
  In x (delete_versions vs l) <->
  In x l /\ forall v, In v vs -> js_eq (Fin (version x)) (parseInt v) = false.
Proof.
  unfold delete_versions.
  induction vs as [ | v vs IH ]; intros l x; cbn [fold_left].
  - split; [ intros H; split; [ exact H | intros v [] ] | tauto ].
  - rewrite IH, filter_In, negb_true_iff. split.
    + intros [[Hin Hv] Hall]. split; [ exact Hin | ].
      intros v' [<- | H']; auto.
    + intros [Hin Hall]. split; [ split; [ exact Hin | ] | ].
      * apply Hall. now left.
      * intros v' H'. apply Hall. now right.
Qed.



(** ** Positive versions *)

Lemma migrate_rows e directory toVersion w r w' :
  migrate directory toVersion e w = (r, w') ->
  exists added,
    ledger (database w') = ledger (database w) ++ added /\
    Forall (fun x =>
              js_lt (current_version e (database w)) (Fin (version x)) = true)
      added.
Proof.
  intros H. destruct (connect_ok e) eqn:Hc.
  - destruct (readdir e directory) as [files | ] eqn:Hr.
    + destruct (migrate_run _ _ _ _ _ _ _ Hc Hr H)
        as (done & rest & executed & Hp & _ & Hl & _ & _).
      exists (map (unit_entry (scan files)) done). split; [ exact Hl | ].
      apply Forall_forall. intros x Hx. apply in_map_iff in Hx.
      destruct Hx as (v & <- & Hv).
      assert (Hin : In v (apply_plan files (current_version e (database w))
                            (apply_target files toVersion))).
      { rewrite Hp. apply in_or_app. now left. }
      unfold apply_plan in Hin. apply filter_In in Hin.
      destruct Hin as [_ Hrg].
      destruct (apply_range_Fin _ _ _ Hrg) as [z Hz].
      rewrite (unit_entry_version _ _ _ Hz).
      apply (apply_range_above _ _ _ _ Hrg Hz).
    + rewrite (migrate_no_directory _ _ _ _ Hc Hr) in H.
      inversion H; subst. exists []. cbn. rewrite app_nil_r. auto.
  - rewrite (migrate_no_connection _ _ _ _ Hc) in H.
    inversion H; subst. exists []. cbn. rewrite app_nil_r. auto.
Qed.

Lemma rollback_rows e directory toVersion w r w' :
  rollback directory toVersion e w = (r, w') ->
  forall x, In x (ledger (database w')) -> In x (ledger (database w)).
Proof.
  intros H. destruct (connect_ok e) eqn:Hc.
  - destruct (readdir e directory) as [files | ] eqn:Hr.
    + destruct (rollback_run _ _ _ _ _ _ _ Hc Hr H)
        as (done & rest & executed & _ & _ & Hl & _ & _).
      rewrite Hl. intros x Hx. apply delete_versions_In in Hx. apply Hx.
    + rewrite (rollback_no_directory _ _ _ _ Hc Hr) in H.
      inversion H; subst. auto.
  - rewrite (rollback_no_connection _ _ _ _ Hc) in H.
    inversion H; subst. auto.
Qed.

Lemma getInfo_database e directory w r w' :
  getInfo directory e w = (r, w') ->
  (forall x, r <> Throw x) /\
  ledger (database w') = ledger (database w) /\
  committed (database w') = committed (database w) /\
  transaction (database w') = transaction (database w).
Proof.
  intros H. destruct (connect_ok e) eqn:Hc.
  - destruct (readdir e directory) as [files | ] eqn:Hr.
    + unfold getInfo in H. unfold bind at 1 in H.
      rewrite connectToDatabase_eq, Hc in H.
      unfold bind at 1, getMigrationFiles in H. rewrite Hr in H.
      unfold ret at 1 in H.
      unfold bind at 1, getCurrentVersionInfo, try_catch, bind,
        db_select_latest, logger, ret in H.
      destruct (select_ok e); inversion H; subst; cbn;
        (split; [ discriminate | auto ]).
    + rewrite (getInfo_no_directory _ _ _ Hc Hr) in H.
      inversion H; subst. cbn. split; [ discriminate | auto ].
  - rewrite (getInfo_no_connection _ _ _ Hc) in H.
    inversion H; subst. cbn. split; [ discriminate | auto ].
Qed.

Lemma current_version_nonnegative e d :
  positive_versions d ->
  exists c, current_version e d = Fin c /\ 0 <= c.
Proof.
  intros Hp. unfold current_version.
  destruct (select_ok e); [ | exists 0; split; [ reflexivity | lia ] ].
  pose proof (latest_spec (ledger d)) as Hl.
  destruct (latest (ledger d)) as [x | ].
  - rewrite version_or_0_Some. exists (version x). split; [ reflexivity | ].
    destruct Hl as [Hin _]. unfold positive_versions in Hp.
    rewrite Forall_forall in Hp. specialize (Hp _ Hin). lia.
  - exists 0. split; [ reflexivity | lia ].
Qed.

(** X7.  From an empty ledger, the commands keep the versions of the
    ledger positive: a unit of version 0 or below is never applied, and the
    current version that a command reads is 0 or a positive version. *)
Theorem X7_versions_stay_positive (w : world) :
  command_reachable w ->
  positive_versions (database w) /\
  forall e, exists c, current_version e (database w) = Fin c /\ 0 <= c.
Proof.
  intros H.
  assert (Hp : positive_versions (database w)).
  { induction H as [ w H
                   | directory toVersion e w r w' _ IH E
                   | directory toVersion e w r w' _ IH E
                   | directory e w r w' _ IH E ].
    - unfold positive_versions. rewrite H. constructor.
    - destruct (migrate_rows _ _ _ _ _ _ E) as (added & Hl & Ha).
      destruct (current_version_nonnegative e _ IH) as (c & Hc & Hc0).
      unfold positive_versions. rewrite Hl. apply Forall_app.
      split; [ exact IH | ].
      eapply Forall_impl; [ | exact Ha ].
      intros x Hx. cbv beta in Hx. rewrite Hc in Hx. cbn in Hx.
      apply Z.ltb_lt in Hx. lia.
    - unfold positive_versions in *. rewrite Forall_forall in *.
      intros x Hx. apply IH. eapply rollback_rows; eassumption.
    - unfold positive_versions in *.
      destruct (getInfo_database _ _ _ _ _ E) as (_ & -> & _). exact IH. }
  split; [ exact Hp | ].
  intros e. apply current_version_nonnegative, Hp.
Qed.

(** X8.  [getInfo] only reads: whatever the outcome, it throws no error
    (it returns a status or ends the process), and the ledger, the
    committed scripts and the transaction are what they were. *)
Theorem X8_getInfo_only_reads
  (e : env) (directory : string) (w w' : world) (r : result status) :
  getInfo directory e w = (r, w') ->
  (forall x, r <> Throw x) /\
  ledger (database w') = ledger (database w) /\
  committed (database w') = committed (database w) /\
  transaction (database w') = transaction (database w).
Proof.
  intros H. destruct (connect_ok e) eqn:Hc.
  - destruct (readdir e directory) as [files | ] eqn:Hr.
    + unfold getInfo in H. unfold bind at 1 in H.
      rewrite connectToDatabase_eq, Hc in H.
      unfold bind at 1, getMigrationFiles in H. rewrite Hr in H.
      unfold ret at 1 in H.
      unfold bind at 1, getCurrentVersionInfo, try_catch, bind,
        db_select_latest, logger, ret in H.
      destruct (select_ok e); inversion H; subst; cbn;
        (split; [ discriminate | auto ]).
    + rewrite (getInfo_no_directory _ _ _ Hc Hr) in H.
      inversion H; subst. cbn. split; [ discriminate | auto ].
  - rewrite (getInfo_no_connection _ _ _ Hc) in H.
    inversion H; subst. cbn. split; [ discriminate | auto ].
Qed.

(** ** The status report *)

Lemma getInfo_eq e directory files w :
  connect_ok e = true ->
  readdir e directory = Some files ->
  getInfo directory e w =
  (Return
     {| currentVersion := current_version e (database w);
        currentVersionTitle := info_title (current_info e (database w));
        latestVersion :=
          Math_max (map parseInt (sort ascending (discovered files)));
        pendingMigrations :=
          map (pending_of (scan files))
            (filter (fun v => js_gt (parseInt v)
                                (current_version e (database w)))
               (sort ascending (discovered files))) |},
   info_read e (connected w)).
Proof.
  intros Hc Hr. unfold getInfo. unfold bind at 1.
  rewrite connectToDatabase_eq, Hc.
  unfold bind at 1, getMigrationFiles. rewrite Hr. unfold ret at 1.
  unfold bind at 1, getCurrentVersionInfo, try_catch, bind, db_select_latest,
    logger, ret, current_version, current_info, info_read.
  cbn [database connected ledger].
  destruct (select_ok e); [ | reflexivity ].
  destruct (latest (ledger (database w))) as [x | ]; [ | reflexivity ].
  rewrite version_or_0_Some. reflexivity.
Qed.

Lemma fold_max_numeric l : forall z,
  Forall (fun v => exists z, parseInt v = Fin z) l ->
  exists m, fold_left js_max2 (map parseInt l) (Fin z) = Fin m.
Proof.
  induction l as [ | v l IH ]; intros z H; cbn.
  - eauto.
  - inversion H as [ | ? ? [zv Hv] Hl ]; subst. rewrite Hv. cbn.
    apply IH, Hl.
Qed.

Lemma Math_max_numeric l :
  Forall (fun v => exists z, parseInt v = Fin z) l ->
  l = [] \/ exists m, Math_max (map parseInt l) = Fin m.
Proof.
  intros H. destruct l as [ | v l ]; [ now left | right ].
  inversion H as [ | ? ? [zv Hv] Hl ]; subst.
  unfold Math_max. cbn. rewrite Hv. cbn. apply fold_max_numeric, Hl.
Qed.

Lemma sorted_numeric cmp files :
  numeric_versions files ->
  Forall (fun v => exists z, parseInt v = Fin z) (sort cmp (discovered files)).
Proof.
  intros H. apply Permutation_Forall with (discovered files); [ | exact H ].
  apply Permutation_sym, sort_perm.
Qed.

Lemma pending_is_the_plan files cur :
  numeric_versions files ->
  filter (fun v => js_gt (parseInt v) cur) (sort ascending (discovered files))
  = apply_plan files cur (apply_target files None).
Proof.
  intros Hn. unfold apply_plan, apply_target. cbn [truthy].
  pose proof (sorted_numeric ascending _ Hn) as Hs.
  destruct (Math_max_numeric _ Hs) as [E | [m E]].
  - rewrite E. reflexivity.
  - rewrite E. apply fold_max_Fin in E. destruct E as (_ & _ & Hall).
    apply filter_ext_in. intros v Hv. unfold apply_range.
    rewrite Forall_forall in Hall. destruct (Hall _ Hv) as (z & Hz & Hle).
    rewrite Hz. unfold js_le. cbn.
    destruct (z <? m) eqn:A; [ now rewrite andb_true_r | ].
    replace (z =? m) with true; [ now rewrite andb_true_r | ].
    symmetry. apply Z.eqb_eq. apply Z.ltb_ge in A. lia.
Qed.

(** X9.  With the versions of the directory all numeric and the numbers
    of the run safe integers, the pending
    migrations that [getInfo] reports are the units that [migrate] without
    target selects, in the same order, ascending; each one is shown with a
    title that is not empty ([Untitled] for a unit without title). *)
Theorem X9_pending_is_what_migrate_applies
  (e : env) (directory : string) (files : list string) (w : world) :
  connect_ok e = true ->
  readdir e directory = Some files ->
  numeric_versions files ->
  safe_run files None (database w) ->
  exists s w',
    getInfo directory e w = (Return s, w') /\
    currentVersion s = current_version e (database w) /\
    map pending_version (pendingMigrations s)
    = apply_plan files (current_version e (database w))
        (apply_target files None) /\
    ascending_versions (map pending_version (pendingMigrations s)) /\
    Forall (fun p => pending_title p <> "") (pendingMigrations s).
Proof.
  intros Hc Hr Hn _. rewrite (getInfo_eq _ _ _ _ Hc Hr).
  eexists. eexists. split; [ reflexivity | ]. cbn.
  split; [ reflexivity | ].
  rewrite map_map. cbn. rewrite map_id.
  rewrite (pending_is_the_plan _ _ Hn).
  split; [ reflexivity | ].
  split; [ apply apply_plan_sorted, Hn | ].
  apply Forall_forall. intros p Hp. apply in_map_iff in Hp.
  destruct Hp as (v & <- & _). cbn.
  destruct (prop (scan files) v "title") as [t | ]; cbn; [ | discriminate ].
  destruct (String.eqb t "") eqn:E; cbn; [ discriminate | ].
  apply String.eqb_neq, E.
Qed.

(** ** A target that is not a number *)





(** ** The current version after a run *)

Lemma current_after_append e d d1 c added :
  select_ok e = true ->
  current_version e d = Fin c ->
  ledger d1 = ledger d ++ added ->
  added <> [] ->
  Forall (fun x => c < version x) added ->
  exists x, In x added /\
            current_version e d1 = Fin (version x) /\
            Forall (fun y => version y <= version x) added.
Proof.
  intros Hs Hc Hl Hne Ha.
  pose proof (current_version_bound _ _ _ Hs Hc) as Hb.
  pose proof (latest_spec (ledger d1)) as Hlat.
  unfold current_version. rewrite Hs.
  destruct (latest (ledger d1)) as [y | ].
  - destruct Hlat as [Hin Hmax]. rewrite Hl in Hin, Hmax.
    apply Forall_app in Hmax. destruct Hmax as [_ Hmax].
    exists y. rewrite version_or_0_Some.
    split; [ | split; [ reflexivity | exact Hmax ] ].
    apply in_app_or in Hin. destruct Hin as [Hin | Hin]; [ | exact Hin ].
    exfalso. destruct added as [ | a added ]; [ congruence | ].
    rewrite Forall_forall in Hb. specialize (Hb _ Hin).
    inversion Ha; subst. inversion Hmax; subst. lia.
  - exfalso. rewrite Hl in Hlat. destruct (ledger d); destruct added;
      try discriminate; congruence.
Qed.

Lemma migrate_reaches_latest e directory files w w1 :
  connect_ok e = true ->
  select_ok e = true ->
  readdir e directory = Some files ->
  numeric_versions files ->
  migrate directory None e w = (Return tt, w1) ->
  forall v, In v (discovered files) ->
            js_gt (parseInt v) (current_version e (database w1)) = false.
Proof.
  intros Hc Hs Hr Hn H v Hv.
  destruct (migrate_run _ _ _ _ _ _ _ Hc Hr H)
    as (done & rest & executed & Hp & _ & Hl & _ & -> & _).
  rewrite app_nil_r in Hp.
  destruct (current_version_Fin e (database w)) as [c Hcur].
  rewrite Hcur in Hp.
  pose proof (sorted_numeric ascending _ Hn) as Hsn.
  destruct (Math_max_numeric _ Hsn) as [E | [m E]].
  { exfalso. apply (sort_In ascending) in Hv. rewrite E in Hv. destruct Hv. }
  assert (Et : apply_target files None = Fin m) by exact E.
  rewrite Et in Hp.
  apply fold_max_Fin in E. destruct E as (_ & Hat & Hall).
  destruct Hat as [Hat | (kmax & Hkin & Hkmax)]; [ discriminate | ].
  rewrite Forall_forall in Hall.
  destruct (Hall v (proj2 (sort_In ascending _ _) Hv)) as (z & Hz & Hzm).
  rewrite Hz. unfold js_gt.
  destruct (Z_le_gt_dec m c) as [Hmc | Hmc].
  - (* nothing to apply *)
    assert (Hd : done = []).
    { rewrite <- Hp. unfold apply_plan. apply filter_none_in.
      intros x Hx. unfold apply_range, js_gt, js_le.
      destruct (Hall _ Hx) as (zx & Hzx & Hle). rewrite Hzx. cbn.
      order_cases. }
    rewrite Hd in Hl. cbn in Hl. rewrite app_nil_r in Hl.
    unfold current_version in *. rewrite Hl, Hcur. cbn. order_cases.
  - (* the unit of the latest version is applied *)
    assert (Hk : In kmax done).
    { rewrite <- Hp. apply apply_plan_In.
      split; [ apply sort_In in Hkin; exact Hkin | ].
      rewrite Hkmax. unfold js_le. cbn. split; order_cases. }
    destruct (current_after_append e (database w) (database w1) c
                (map (unit_entry (scan files)) done) Hs Hcur Hl)
      as (x & Hx & Hc1 & Hmax).
    + destruct done; [ destruct Hk | discriminate ].
    + apply Forall_forall. intros a Ha. apply in_map_iff in Ha.
      destruct Ha as (u & <- & Hu). rewrite <- Hp in Hu.
      apply apply_plan_In in Hu. destruct Hu as (Hud & Hlo & _).
      destruct (Hall u (proj2 (sort_In ascending _ _) Hud))
        as (zu & Hzu & _).
      rewrite (unit_entry_version _ _ _ Hzu). rewrite Hzu in Hlo.
      cbn in Hlo. order_cases.
    + rewrite Hc1. cbn.
      rewrite Forall_forall in Hmax.
      specialize (Hmax _ (in_map (unit_entry (scan files)) _ _ Hk)).
      rewrite (unit_entry_version _ _ _ Hkmax) in Hmax. order_cases.
Qed.

(** X11.  With the versions of the directory all numeric and a readable
    ledger, after a [migrate] without target that returns, [getInfo]
    reports no pending migration, and a latest version that is not above
    the current version. *)
Theorem X11_nothing_pending_after_migrate
  (e : env) (directory : string) (files : list string) (w w1 : world) :
  select_ok e = true ->
  readdir e directory = Some files ->
  numeric_versions files ->
  migrate directory None e w = (Return tt, w1) ->
  exists s w2,
    getInfo directory e w1 = (Return s, w2) /\
    pendingMigrations s = [] /\
    js_le (latestVersion s) (currentVersion s) = true.
Proof.
  intros Hs Hr Hn H.
  destruct (migrate_Return _ _ _ _ _ H) as (Hc & _).
  pose proof (migrate_reaches_latest _ _ _ _ _ Hc Hs Hr Hn H) as Hall.
  rewrite (getInfo_eq _ _ _ _ Hc Hr).
  eexists. eexists. split; [ reflexivity | ]. cbn. split.
  - rewrite filter_none_in; [ reflexivity | ].
    intros v Hv. apply Hall. apply sort_In in Hv. exact Hv.
  - pose proof (sorted_numeric ascending _ Hn) as Hsn.
    destruct (current_version_Fin e (database w1)) as [c1 Hc1].
    destruct (Math_max_numeric _ Hsn) as [E | [m E]].
    + rewrite E, Hc1. reflexivity.
    + rewrite E. apply fold_max_Fin in E.
      destruct E as (_ & [Hat | (kmax & Hkin & Hkmax)] & _);
        [ discriminate | ].
      apply sort_In in Hkin. specialize (Hall _ Hkin).
      rewrite Hkmax, Hc1 in *. unfold js_gt in Hall. unfold js_le. cbn in *.
      order_cases.
Qed.

(** ** Resuming after a failure *)


Lemma strictly_of_distinct l :
  Forall (fun v => exists z, parseInt v = Fin z) l ->
  NoDup (map parseInt l) ->
  ascending_versions l -> strictly_ascending l.
Proof.
  intros Hn Hd Hs. induction Hs as [ | x l Hs IH Hx ]; [ constructor | ].
  inversion Hn as [ | ? ? [zx Ex] Hn' ]; subst.
  cbn in Hd. inversion Hd as [ | ? ? Hnin Hd' ]; subst.
  constructor; [ apply IH; assumption | ].
  apply Forall_forall. intros y Hy.
  rewrite Forall_forall in Hx, Hn'. specialize (Hx _ Hy).
  destruct (Hn' _ Hy) as [zy Ey]. rewrite Ex, Ey in *. cbn in *.
  assert (zx <> zy).
  { intros ->. apply Hnin. rewrite <- Ey. apply in_map, Hy. }
  lia.
Qed.



Lemma filter_all {A : Type} (f : A -> bool) (l : list A) :
  (forall x, In x l -> f x = true) -> filter f l = l.
Proof.
  intros H. induction l as [ | x l IH ]; cbn; [ reflexivity | ].
  rewrite H by (now left). f_equal. apply IH. intros y Hy. apply H. now right.
Qed.



(** ** The range of [rollback] *)



Lemma delete_versions_filter vs : forall l,
  delete_versions vs l
  = filter (fun x => forallb (fun v => negb (js_eq (Fin (version x))
                                              (parseInt v))) vs) l.
Proof.
  unfold delete_versions.
  induction vs as [ | v vs IH ]; intros l; cbn [fold_left forallb].
  - symmetry. apply filter_all. reflexivity.
  - rewrite IH. clear IH.
    induction l as [ | x l IHl ]; cbn [filter]; [ reflexivity | ].
    destruct (negb (js_eq (Fin (version x)) (parseInt v)));
      cbn [filter andb]; [ | exact IHl ].
    destruct (forallb _ vs); [ f_equal | ]; exact IHl.
Qed.

(** X14.  [rollback] reaches its target when the directory holds a unit for
    every row above it: on a listing whose tokens name no member of
    [Object.prototype], with the numbers of the run safe integers and a
    readable ledger, a [rollback] to the version
    [t] that returns leaves the rows of version at most [t], in their
    order, and removes all the others. *)
Theorem X14_rollback_removes_the_rows_above_the_target
  (e : env) (directory : string) (files : list string)
  (toVersion : option string) (w w' : world) (t : Z) :
  connect_ok e = true ->
  select_ok e = true ->
  readdir e directory = Some files ->
  own_tokens files ->
  safe_run files toVersion (database w) ->
  revert_target (current_version e (database w)) toVersion = Fin t ->
  (forall x, In x (ledger (database w)) -> t < version x ->
             exists v, In v (discovered files) /\
                       parseInt v = Fin (version x)) ->
  rollback directory toVersion e w = (Return tt, w') ->
  ledger (database w')
  = filter (fun x => version x <=? t) (ledger (database w)).
Proof.
  intros Hc Hs Hr _ _ Ht Hcover H.
  destruct (rollback_run _ _ _ _ _ _ _ Hc Hr H)
    as (done & rest & executed & Hp & _ & Hl & _ & -> & _).
  rewrite app_nil_r, Ht in Hp.
  destruct (current_version_Fin e (database w)) as [c Hcur].
  rewrite Hcur in Hp.
  pose proof (current_version_bound _ _ _ Hs Hcur) as Hb.
  rewrite Hl, delete_versions_filter. apply filter_ext_in.
  intros x Hx. rewrite Forall_forall in Hb. specialize (Hb _ Hx).
  destruct (version x <=? t) eqn:E.
  - apply Z.leb_le in E. apply forallb_forall. intros v Hv.
    rewrite <- Hp in Hv. apply revert_plan_In in Hv.
    destruct Hv as (_ & Hlo & _).
    destruct (parseInt_cases v) as [En | [z En]]; rewrite En in *;
      [ discriminate | ].
    cbn in *. apply Z.ltb_lt in Hlo. apply negb_true_iff, Z.eqb_neq. lia.
  - apply Z.leb_gt in E. destruct (Hcover x Hx E) as (v & Hv & Ev).
    apply not_true_is_false. intros Hall.
    rewrite forallb_forall in Hall.
    assert (Hin : In v done).
    { rewrite <- Hp. apply revert_plan_In. split; [ exact Hv | ].
      rewrite Ev. unfold js_le. cbn. split; order_cases. }
    specialize (Hall v Hin). rewrite Ev in Hall. cbn in Hall.
    rewrite Z.eqb_refl in Hall. discriminate.
Qed.

(** ** The order of the listing *)

Section Unique.

Variable A : Type.
Variable R : A -> A -> Prop.
Hypothesis R_asym : forall x y, R x y -> R y x -> False.

Lemma sorted_unique (l1 : list A) : forall l2,
  StronglySorted R l1 -> StronglySorted R l2 ->
  (forall x, In x l1 <-> In x l2) -> l1 = l2.
Proof.
  induction l1 as [ | a l1 IH ]; intros l2 H1 H2 Hsame.
  - destruct l2 as [ | b l2 ]; [ reflexivity | ].
    exfalso. apply (proj2 (Hsame b)). now left.
  - destruct l2 as [ | b l2 ].
    { exfalso. apply (proj1 (Hsame a)). now left. }
    inversion H1 as [ | ? ? Hs1 Ha ]; subst.
    inversion H2 as [ | ? ? Hs2 Hb ]; subst.
    rewrite Forall_forall in Ha, Hb.
    assert (Hirr : forall x, R x x -> False) by (intros x Hx; eauto).
    assert (E : a = b).
    { destruct (proj1 (Hsame a) (or_introl eq_refl)) as [E | Hin];
        [ auto | ].
      destruct (proj2 (Hsame b) (or_introl eq_refl)) as [E | Hin'];
        [ auto | ].
      exfalso. eauto. }
    subst b. f_equal. apply IH; auto.
    intros x. split; intros Hx.
    + destruct (proj1 (Hsame x) (or_intror Hx)) as [<- | Hin]; [ | exact Hin ].
      exfalso. eauto.
    + destruct (proj2 (Hsame x) (or_intror Hx)) as [<- | Hin]; [ | exact Hin ].
      exfalso. eauto.
Qed.

End Unique.

Lemma discovered_perm files files' :
  Permutation files files' ->
  Permutation (discovered files) (discovered files').
Proof.
  intros Hp. apply NoDup_Permutation; try apply discovered_NoDup.
  intros k. split; intros H; apply discovered_from_file in H;
    destruct H as (f & Hin & Hd & <-); apply discovered_token; auto.
  - eapply Permutation_in; eassumption.
  - eapply Permutation_in; [ apply Permutation_sym | ]; eassumption.
Qed.

Lemma strictly_descending_of_distinct l :
  Forall (fun v => exists z, parseInt v = Fin z) l ->
  NoDup (map parseInt l) ->
  descending_versions l ->
  StronglySorted (fun a b => int_of (parseInt a) > int_of (parseInt b)) l.
Proof.
  intros Hn Hd Hs. induction Hs as [ | x l Hs IH Hx ]; [ constructor | ].
  inversion Hn as [ | ? ? [zx Ex] Hn' ]; subst.
  cbn in Hd. inversion Hd as [ | ? ? Hnin Hd' ]; subst.
  constructor; [ apply IH; assumption | ].
  apply Forall_forall. intros y Hy.
  rewrite Forall_forall in Hx, Hn'. specialize (Hx _ Hy).
  destruct (Hn' _ Hy) as [zy Ey]. rewrite Ex, Ey in *. cbn in *.
  assert (zx <> zy).
  { intros ->. apply Hnin. rewrite <- Ey. apply in_map, Hy. }
  lia.
Qed.

(** X15.  With the versions of the directory numeric, distinct and safe
    integers, the
    order in which the directory lists its files does not matter: the
    keys in the order of the two loops, hence the targets and the plans of
    [migrate] and [rollback], are the same for every permutation of the
    listing. *)
Theorem X15_the_order_of_the_listing_does_not_matter
  (files files' : list string) :
  Permutation files files' ->
  numeric_versions files ->
  distinct_versions files ->
  safe_versions files = true ->
  sort ascending (discovered files') = sort ascending (discovered files) /\
  sort descending (discovered files') = sort descending (discovered files) /\
  (forall toVersion,
      apply_target files' toVersion = apply_target files toVersion) /\
  (forall cur tgt,
      apply_plan files' cur tgt = apply_plan files cur tgt /\
      revert_plan files' cur tgt = revert_plan files cur tgt).
Proof.
  intros Hp Hn Hd _.
  pose proof (discovered_perm _ _ Hp) as Hdp.
  assert (Hn' : numeric_versions files').
  { unfold numeric_versions. eapply Permutation_Forall; eassumption. }
  assert (Hd' : distinct_versions files').
  { unfold distinct_versions.
    eapply Permutation_NoDup; [ apply Permutation_map, Hdp | exact Hd ]. }
  assert (Hperm : forall cmp,
             Permutation (sort cmp (discovered files'))
               (sort cmp (discovered files))).
  { intros cmp. eapply perm_trans; [ apply sort_perm | ].
    eapply perm_trans; [ apply Permutation_sym, Hdp | ].
    apply Permutation_sym, sort_perm. }
  assert (Hnd : forall cmp fs, distinct_versions fs ->
             NoDup (map parseInt (sort cmp (discovered fs)))).
  { intros cmp fs H. eapply Permutation_NoDup; [ | exact H ].
    apply Permutation_map, Permutation_sym, sort_perm. }
  assert (Ea : sort ascending (discovered files')
               = sort ascending (discovered files)).
  { apply sorted_unique
      with (R := fun a b => int_of (parseInt a) < int_of (parseInt b)).
    - intros x y. lia.
    - apply strictly_of_distinct;
        [ apply sorted_numeric, Hn' | apply Hnd, Hd'
        | apply sort_ascending_sorted, Hn' ].
    - apply strictly_of_distinct;
        [ apply sorted_numeric, Hn | apply Hnd, Hd
        | apply sort_ascending_sorted, Hn ].
    - intros x. split; apply Permutation_in;
        [ | apply Permutation_sym ]; apply Hperm. }
  assert (Ed : sort descending (discovered files')
               = sort descending (discovered files)).
  { apply sorted_unique
      with (R := fun a b => int_of (parseInt a) > int_of (parseInt b)).
    - intros x y. lia.
    - apply strictly_descending_of_distinct;
        [ apply sorted_numeric, Hn' | apply Hnd, Hd'
        | apply sort_descending_sorted, Hn' ].
    - apply strictly_descending_of_distinct;
        [ apply sorted_numeric, Hn | apply Hnd, Hd
        | apply sort_descending_sorted, Hn ].
    - intros x. split; apply Permutation_in;
        [ | apply Permutation_sym ]; apply Hperm. }
  split; [ exact Ea | ]. split; [ exact Ed | ]. split.
  - intros toVersion. unfold apply_target. rewrite Ea. reflexivity.
  - intros cur tgt. unfold apply_plan, revert_plan. rewrite Ea, Ed. auto.
Qed.

(** ** A run that returns *)

(** X16.  On a listing whose tokens name no member of [Object.prototype],
    with the numbers of the run safe integers: when [migrate] returns, every
    unit of the range is applied: its
    [do] script is among the committed scripts and its row, with the
    version and the title of the unit, is in the ledger. *)
Theorem X16_migrate_applies_the_whole_range
  (e : env) (directory : string) (files : list string)
  (toVersion : option string) (w w' : world) :
  connect_ok e = true ->
  readdir e directory = Some files ->
  own_tokens files ->
  safe_run files toVersion (database w) ->
  migrate directory toVersion e w = (Return tt, w') ->
  forall v,
    In v (discovered files) ->
    apply_range (current_version e (database w))
      (apply_target files toVersion) v = true ->
    In (unit_entry (scan files) v) (ledger (database w')) /\
    exists p, unit_script directory (scan files) "do" v = Some p /\
              In p (committed (database w')).
Proof.
  intros Hc Hr _ _ H v Hv Hrg.
  destruct (migrate_run _ _ _ _ _ _ _ Hc Hr H)
    as (done & rest & executed & Hp & _ & Hl & Hcm & -> & Hs).
  rewrite app_nil_r in Hp.
  assert (Hin : In v done).
  { rewrite <- Hp. unfold apply_plan. apply filter_In.
    split; [ apply sort_In, Hv | exact Hrg ]. }
  split.
  - rewrite Hl. apply in_or_app. right. apply in_map, Hin.
  - assert (Hsc : In (unit_script directory (scan files) "do" v)
                    (map Some executed)).
    { rewrite Hs. apply in_map, Hin. }
    apply in_map_iff in Hsc. destruct Hsc as (p & Ep & Hpin).
    exists p. split; [ auto | ].
    rewrite Hcm. apply in_or_app. now right.
Qed.

(** ** Transactions *)

Lemma preserves_transaction_kept {A : Type} (c : M A) :
  (forall e w r w', c e w = (r, w') ->
                    transaction (database w') = transaction (database w)) ->
  preserves no_open_transaction c.
Proof.
  intros Hc e w r w' H E. unfold no_open_transaction in *.
  rewrite (Hc _ _ _ _ E). exact H.
Qed.

Lemma closes_executeMigration filePath action :
  preserves no_open_transaction (executeMigration filePath action).
Proof.
  intros e w r w' _ E. rewrite executeMigration_eq in E.
  destruct (script_ok e filePath); inversion E; reflexivity.
Qed.

Lemma keeps_logger lv m : preserves no_open_transaction (logger lv m).
Proof.
  apply preserves_transaction_kept. intros e w r w' E.
  unfold logger in E. inversion E; reflexivity.
Qed.

Lemma keeps_setCurrentVersion v t :
  preserves no_open_transaction (setCurrentVersion v t).
Proof.
  apply preserves_transaction_kept. intros e w r w' E.
  unfold setCurrentVersion, try_catch, bind, db_create, update, logger,
    throw in E.
  destruct (truthy t), v as [ | | | z ]; cbn in E;
    try (inversion E; reflexivity);
    destruct (version_index (database w)),
      (has_version z (ledger (database w)));
    inversion E; reflexivity.
Qed.

Lemma keeps_db_delete v : preserves no_open_transaction (db_delete v).
Proof.
  apply preserves_transaction_kept. intros e w r w' E.
  unfold db_delete, update in E. inversion E; reflexivity.
Qed.

Lemma keeps_connectToDatabase : preserves no_open_transaction connectToDatabase.
Proof.
  apply preserves_transaction_kept. intros e w r w' E.
  rewrite connectToDatabase_eq in E.
  destruct (connect_ok e); inversion E; reflexivity.
Qed.

Lemma keeps_getMigrationFiles directory :
  preserves no_open_transaction (getMigrationFiles directory).
Proof.
  apply preserves_transaction_kept. intros e w r w' E.
  unfold getMigrationFiles in E.
  destruct (readdir e directory); inversion E; reflexivity.
Qed.

Lemma keeps_getCurrentVersion : preserves no_open_transaction getCurrentVersion.
Proof.
  apply preserves_transaction_kept. intros e w r w' E.
  rewrite getCurrentVersion_eq in E. inversion E.
  rewrite version_read_database. reflexivity.
Qed.

(** X17.  No command leaves a transaction open: [executeMigration] closes
    the transaction that it begins, by a commit or by a cancel, whatever
    the script does, and from a state without open transaction [migrate],
    [rollback] and [getInfo] end without one, whatever their outcome. *)
Theorem X17_no_transaction_is_left_open
  (directory : string) (toVersion : option string) :
  (forall filePath action e w r w',
      executeMigration filePath action e w = (r, w') ->
      transaction (database w') = None) /\
  preserves no_open_transaction (migrate directory toVersion) /\
  preserves no_open_transaction (rollback directory toVersion) /\
  preserves no_open_transaction (getInfo directory).
Proof.
  split; [ | split; [ | split ] ].
  - intros filePath action e w r w' E. rewrite executeMigration_eq in E.
    destruct (script_ok e filePath); inversion E; reflexivity.
  - unfold migrate.
    apply preserves_bind; [ apply keeps_connectToDatabase | intros _ ].
    apply preserves_bind; [ apply keeps_getMigrationFiles | intros mf ].
    apply preserves_bind; [ apply keeps_getCurrentVersion | intros cur ].
    cbv zeta.
    repeat apply preserves_if; try apply keeps_logger.
    apply preserves_for_of. intros v. unfold migrate_version.
    apply preserves_if; [ | apply preserves_ret ].
    apply preserves_bind.
    { unfold destructure. destruct (get mf v);
        [ apply preserves_ret | apply preserves_throw ]. }
    intros [doFile t].
    apply preserves_bind; [ apply keeps_logger | intros _ ].
    apply preserves_bind.
    { unfold path_join. destruct doFile;
        [ apply preserves_ret | apply preserves_throw ]. }
    intros filePath.
    apply preserves_bind; [ apply closes_executeMigration | intros _ ].
    apply keeps_setCurrentVersion.
  - unfold rollback.
    apply preserves_bind; [ apply keeps_connectToDatabase | intros _ ].
    apply preserves_bind; [ apply keeps_getMigrationFiles | intros mf ].
    apply preserves_bind; [ apply keeps_getCurrentVersion | intros cur ].
    cbv zeta.
    apply preserves_if; [ apply keeps_logger | ].
    apply preserves_for_of. intros v. unfold rollback_version.
    apply preserves_if; [ | apply preserves_ret ].
    apply preserves_bind.
    { unfold destructure. destruct (get mf v);
        [ apply preserves_ret | apply preserves_throw ]. }
    intros [undoFile t].
    apply preserves_bind; [ apply keeps_logger | intros _ ].
    apply preserves_bind.
    { unfold path_join. destruct undoFile;
        [ apply preserves_ret | apply preserves_throw ]. }
    intros filePath.
    apply preserves_bind; [ apply closes_executeMigration | intros _ ].
    apply keeps_db_delete.
  - intros e w r w' Hn E. unfold no_open_transaction in *.
    destruct (getInfo_database _ _ _ _ _ E) as (_ & _ & _ & ->). exact Hn.
Qed.

(** ** The configuration *)

Lemma or_else_set a b : truthy a = true -> or_else a b = a.
Proof. unfold or_else. intros ->. reflexivity. Qed.

Lemma or_else_without_empty a b : or_else (or_else a None) b = or_else a b.
Proof.
  unfold or_else. destruct (truthy a) eqn:E; [ rewrite E | ]; reflexivity.
Qed.

Lemma override_without_empty env c :
  override (without_empty env) c = override env c.
Proof.
  destruct c as [d | ]; [ | reflexivity ].
  unfold override, without_empty. cbn.
  rewrite !or_else_without_empty. reflexivity.
Qed.

(** X18.  The environment wins: when [loadConfig] returns, [config.database]
    is an object where each property whose variable is set and not empty
    has the value of the variable, whatever the YAML file and the default
    say; a variable that is empty counts as unset.  [loadConfig] throws
    nothing: it returns or ends the process with code 1. *)
Theorem X18_the_environment_wins
  (load : string -> yaml) (env : environ) (configPath : option string)
  (c : config) :
  loadConfig load (without_empty env) configPath c
  = loadConfig load env configPath c /\
  match loadConfig load env configPath c with
  | (Return r, _) =>
      exists d,
        r = Some d /\
        (truthy (DB_URL env) = true -> url d = DB_URL env) /\
        (truthy (DB_USER env) = true -> user d = DB_USER env) /\
        (truthy (DB_PASS env) = true -> pass d = DB_PASS env) /\
        (truthy (DB_NAMESPACE env) = true -> namespace d = DB_NAMESPACE env) /\
        (truthy (DB_NAME env) = true -> dbname d = DB_NAME env) /\
        (truthy (DB_SCOPE env) = true -> scope d = DB_SCOPE env) /\
        scope d <> Some ""
  | (Exit n, lg) => n = 1 /\ In (error, Failed_to_load_configuration) lg
  | (Throw _, _) => False
  end.
Proof.
  split.
  - unfold loadConfig.
    destruct (if truthy configPath then configPath else None) as [p | ].
    + destruct (load p) as [ | y ]; [ reflexivity | ].
      rewrite override_without_empty. reflexivity.
    + rewrite override_without_empty. reflexivity.
  - assert (Hfinish : forall c1 lg,
               match
                 match override env c1 with
                 | Some d =>
                     (Return (Some d),
                      lg ++ [(info, Configuration_loaded_successfully)])
                 | None =>
                     (@Exit config 1,
                      lg ++ [(error, Failed_to_load_configuration)])
                 end
               with
               | (Return r, _) =>
                   exists d,
                     r = Some d /\
                     (truthy (DB_URL env) = true -> url d = DB_URL env) /\
                     (truthy (DB_USER env) = true -> user d = DB_USER env) /\
                     (truthy (DB_PASS env) = true -> pass d = DB_PASS env) /\
                     (truthy (DB_NAMESPACE env) = true ->
                      namespace d = DB_NAMESPACE env) /\
                     (truthy (DB_NAME env) = true -> dbname d = DB_NAME env) /\
                     (truthy (DB_SCOPE env) = true -> scope d = DB_SCOPE env) /\
                     scope d <> Some ""
               | (Exit n, lg') =>
                   n = 1 /\ In (error, Failed_to_load_configuration) lg'
               | (Throw _, _) => False
               end).
    { intros c1 lg. destruct c1 as [d | ]; cbn.
      - eexists. split; [ reflexivity | ]. cbn.
        repeat (split; [ apply or_else_set | ]).
        unfold or_else.
        destruct (DB_SCOPE env) as [s | ]; cbn.
        + destruct (String.eqb s "") eqn:E; cbn.
          * destruct (scope d) as [t | ]; cbn; [ | discriminate ].
            destruct (String.eqb t "") eqn:F; cbn; [ discriminate | ].
            apply String.eqb_neq in F. congruence.
          * apply String.eqb_neq in E. congruence.
        + destruct (scope d) as [t | ]; cbn; [ | discriminate ].
          destruct (String.eqb t "") eqn:F; cbn; [ discriminate | ].
          apply String.eqb_neq in F. congruence.
      - split; [ reflexivity | ]. apply in_or_app. right. now left. }
    unfold loadConfig.
    destruct (if truthy configPath then configPath else None) as [p | ].
    + destruct (load p) as [ | y ]; [ | apply Hfinish ].
      split; [ reflexivity | now left ].
    + apply Hfinish.
Qed.

(** X19.  The section [database] of the YAML file replaces the default
    section as a whole: when the document has the key [database], the
    result of [loadConfig] does not depend on the configuration of
    [config.js], and a property that the section and the environment do not
    give is missing in the result, whatever the default was. *)
Theorem X19_the_yaml_section_replaces_the_default
  (load : string -> yaml) (env : environ) (p : string) (y : config)
  (c c' : config) :
  p <> "" ->
  load p = Yaml_document (Some y) ->
  loadConfig load env (Some p) c = loadConfig load env (Some p) c' /\
  forall d lg,
    loadConfig load env (Some p) c = (Return (Some d), lg) ->
    exists b,
      y = Some b /\
      (truthy (DB_URL env) = false -> url d = url b) /\
      (truthy (DB_USER env) = false -> user d = user b) /\
      (truthy (DB_PASS env) = false -> pass d = pass b) /\
      (truthy (DB_NAMESPACE env) = false -> namespace d = namespace b) /\
      (truthy (DB_NAME env) = false -> dbname d = dbname b).
Proof.
  intros Hp Hy.
  assert (Ht : truthy (Some p) = true).
  { cbn. apply negb_true_iff, String.eqb_neq, Hp. }
  unfold loadConfig. rewrite Ht, Hy. cbn [assign]. split; [ reflexivity | ].
  intros d lg H. destruct y as [b | ]; cbn in H; [ | discriminate ].
  exists b. split; [ reflexivity | ].
  inversion H; subst; clear H. cbn. unfold or_else.
  repeat split; intros ->; reflexivity.
Qed.

(** ** A revert that fails *)

(** X20.  With the versions of the directory numeric and the numbers of
    the run safe integers: when the [undo]
    script of a unit [v] of the plan fails, after the scripts of the units
    [done] before it have run, [rollback] throws the error of the script.
    The transaction is cancelled and the error that is reported names the
    file; the rows of the units of [done] are deleted, and every row whose
    version is not that of a unit of [done] is kept. *)
Theorem X20_rollback_stops_at_the_failing_script
  (e : env) (directory : string) (files : list string)
  (toVersion : option string) (w : world)
  (done : list string) (v : string) (rest : list string) (p : path) :
  connect_ok e = true ->
  readdir e directory = Some files ->
  numeric_versions files ->
  safe_run files toVersion (database w) ->
  revert_plan files (current_version e (database w))
    (revert_target (current_version e (database w)) toVersion)
  = done ++ v :: rest ->
  (forall u, In u done ->
             exists q, unit_script directory (scan files) "undo" u = Some q /\
                       script_ok e q = true) ->
  unit_script directory (scan files) "undo" v = Some p ->
  script_ok e p = false ->
  exists w' executed,
    rollback directory toVersion e w = (Throw (QueryError (Script p)), w') /\
    transaction (database w') = None /\
    ledger (database w') = delete_versions done (ledger (database w)) /\
    committed (database w') = committed (database w) ++ executed /\
    map Some executed
    = map (unit_script directory (scan files) "undo") done /\
    (forall x, In x (ledger (database w)) ->
               (forall u, In u done -> parseInt u <> Fin (version x)) ->
               In x (ledger (database w'))) /\
    exists l,
      logged w'
      = l ++ [(error,
               Failed_to_revert_migration (base p) (QueryError (Script p)))].
Proof.
  intros Hc Hr _ _ Hp Hok Hq Hbad.
  assert (Hin : In v (revert_plan files (current_version e (database w))
                        (revert_target (current_version e (database w))
                           toVersion)))
    by (rewrite Hp; apply in_or_app; right; now left).
  apply filter_In in Hin. destruct Hin as [_ Hsel].
  destruct (rollback_stops e directory files toVersion w done v rest
              (QueryError (Script p))
              (fun w0 w1 =>
                 ledger (database w1) = ledger (database w0) /\
                 committed (database w1) = committed (database w0) /\
                 transaction (database w1) = None /\
                 exists l,
                   logged w1
                   = l ++ [(error,
                            Failed_to_revert_migration (base p)
                              (QueryError (Script p)))])
              Hc Hr Hp Hok)
    as (w0 & w' & executed & E & (Hl & Hcm & Ht & Hlog) & Hl0 & Hc0 & Hm).
  - intros w0. apply rollback_version_fails; assumption.
  - exists w', executed. rewrite Hl, Hcm, Hl0, Hc0.
    repeat split; auto.
    intros x Hx Hno. apply delete_versions_In.
    split; [ exact Hx | ]. intros u Hu'.
    destruct (js_eq (Fin (version x)) (parseInt u)) eqn:Eq; [ | reflexivity ].
    exfalso. apply (Hno u Hu').
    destruct (parseInt u); cbn in Eq; try discriminate.
    apply Z.eqb_eq in Eq. congruence.
Qed.

(** ** The files that are executed *)




(** ** The further properties on concrete directories *)

(** X1 on the directory with the versions 1, 2, 3 and 5: the key [3] comes
    from a file, and [README] is no key *)
Lemma X1_witness :
  own_tokens files_1235 /\
  (exists file, In file files_1235 /\ names_direction file = true /\
                token file = "3") /\
  ~ In "README" (discovered files_1235).
Proof.
  assert (Hown : own_tokens files_1235) by (vm_compute; reflexivity).
  split; [ exact Hown | ]. split.
  - apply (proj1 (X1_discovered_are_the_tokens files_1235 "3" Hown)).
    rewrite discovered_1235. right; right; left; reflexivity.
  - intros Hin.
    destruct (proj1 (X1_discovered_are_the_tokens files_1235 "README" Hown)
                Hin) as (file & Hfile & Hd & Ht).
    revert Hd Ht. unfold files_1235 in Hfile. cbn [In] in Hfile.
    repeat (destruct Hfile as [<- | Hfile];
            [ vm_compute; discriminate | ]).
    destruct Hfile.
Defined.

(** X2 on a directory with two [do] files for version 1 *)
Lemma X2_witness :
  own_tokens files_twice /\
  "do" <> "title" /\
  prop (scan files_twice) "1" "do" = Some "1.do.second.surql" /\
  prop (scan files_twice) "1" "do"
  = find (is_script_of "1" "do") (rev (kept files_twice)).
Proof.
  assert (Hown : own_tokens files_twice) by (vm_compute; reflexivity).
  assert (H : "do" <> "title") by discriminate.
  split; [ exact Hown | ].
  split; [ exact H | ]. split; [ reflexivity | ].
  exact (X2_the_last_file_is_the_script files_twice "1" "do" Hown
           eq_refl eq_refl H).
Defined.

Lemma no_title_action_twice (file : string) :
  In file (kept files_twice) -> token file = "1" ->
  action_of file <> "title".
Proof.
  intros [<- | [<- | [<- | []]]] _; vm_compute; discriminate.
Defined.

(** X3 on the same directory: the first file gives the title *)
Lemma X3_witness :
  own_tokens files_twice /\
  (forall file, In file (kept files_twice) -> token file = "1" ->
                action_of file <> "title") /\
  prop (scan files_twice) "1" "title" = Some "first" /\
  prop (scan files_twice) "1" "title"
  = option_map title_of
      (find (fun file => String.eqb (token file) "1") (kept files_twice)).
Proof.
  assert (Hown : own_tokens files_twice) by (vm_compute; reflexivity).
  split; [ exact Hown | ].
  split; [ exact no_title_action_twice | ]. split; [ reflexivity | ].
  exact (X3_the_first_file_gives_the_title files_twice "1" Hown
           no_title_action_twice).
Defined.

(** X4 without connection *)
Lemma X4_witness :
  (connect_ok env_offline = false \/
   readdir env_offline "migrations" = None) /\
  exists w',
    migrate "migrations" None env_offline world_12 = (Exit 1, w') /\
    rollback "migrations" None env_offline world_12 = (Exit 1, w') /\
    getInfo "migrations" env_offline world_12 = (Exit 1, w') /\
    ledger (database w') = ledger (database world_12).
Proof.
  assert (H : connect_ok env_offline = false \/
              readdir env_offline "migrations" = None)
    by (left; reflexivity).
  split; [ exact H | ].
  destruct (X4_fatal_errors_exit env_offline "migrations" None world_12 H)
    as (w' & H1 & H2 & H3 & H4 & _).
  exists w'. auto.
Defined.




(** the state after the four versions are applied is reached by the
    commands *)
Lemma command_reachable_after_migrate :
  command_reachable (after (migrate "migrations" None) env_1235 empty_world).
Proof.
  apply by_migrate
    with (directory := "migrations") (toVersion := None) (e := env_1235)
         (w := empty_world) (r := Return tt).
  - apply from_empty_ledger. reflexivity.
  - vm_compute. reflexivity.
Defined.

(** X7 in that state *)
Lemma X7_witness :
  command_reachable (after (migrate "migrations" None) env_1235 empty_world) /\
  positive_versions
    (database (after (migrate "migrations" None) env_1235 empty_world)).
Proof.
  split; [ exact command_reachable_after_migrate | ].
  exact (proj1 (X7_versions_stay_positive _ command_reachable_after_migrate)).
Defined.

(** X8 on a ledger with the versions 1 and 2 *)
Lemma X8_witness :
  getInfo "migrations" env_1235 world_12
  = (fst (getInfo "migrations" env_1235 world_12),
     after (getInfo "migrations") env_1235 world_12) /\
  ledger (database (after (getInfo "migrations") env_1235 world_12))
  = ledger (database world_12).
Proof.
  assert (H : getInfo "migrations" env_1235 world_12
              = (fst (getInfo "migrations" env_1235 world_12),
                 after (getInfo "migrations") env_1235 world_12))
    by (vm_compute; reflexivity).
  split; [ exact H | ].
  exact (proj1 (proj2 (X8_getInfo_only_reads _ _ _ _ _ H))).
Defined.

(** X9 on the directory with the versions 1, 2, 3 and 5, version 1
    applied *)
Lemma X9_witness :
  connect_ok env_1235 = true /\
  readdir env_1235 "migrations" = Some files_1235 /\
  numeric_versions files_1235 /\
  safe_run files_1235 None (database world_1) /\
  exists s w',
    getInfo "migrations" env_1235 world_1 = (Return s, w') /\
    map pending_version (pendingMigrations s)
    = apply_plan files_1235 (current_version env_1235 (database world_1))
        (apply_target files_1235 None).
Proof.
  assert (Hsafe : safe_run files_1235 None (database world_1))
    by (vm_compute; reflexivity).
  split; [ reflexivity | ]. split; [ reflexivity | ].
  split; [ exact numeric_1235 | ]. split; [ exact Hsafe | ].
  destruct (X9_pending_is_what_migrate_applies env_1235 "migrations"
              files_1235 world_1 eq_refl eq_refl numeric_1235 Hsafe)
    as (s & w' & H1 & _ & H2 & _).
  exists s, w'. auto.
Defined.

(** the pending migrations of that state *)
Example pending_235 :
  apply_plan files_1235 (current_version env_1235 (database world_1))
    (apply_target files_1235 None) = ["2"; "3"; "5"].
Proof. vm_compute. reflexivity. Qed.


(** X11 on the directory with the versions 1, 2, 3 and 5 *)
Lemma X11_witness :
  select_ok env_1235 = true /\
  readdir env_1235 "migrations" = Some files_1235 /\
  numeric_versions files_1235 /\
  migrate "migrations" None env_1235 empty_world
  = (Return tt, after (migrate "migrations" None) env_1235 empty_world) /\
  exists s w2,
    getInfo "migrations" env_1235
      (after (migrate "migrations" None) env_1235 empty_world)
    = (Return s, w2) /\
    pendingMigrations s = [].
Proof.
  assert (H : migrate "migrations" None env_1235 empty_world
              = (Return tt,
                 after (migrate "migrations" None) env_1235 empty_world))
    by (vm_compute; reflexivity).
  split; [ reflexivity | ]. split; [ reflexivity | ].
  split; [ exact numeric_1235 | ]. split; [ exact H | ].
  destruct (X11_nothing_pending_after_migrate env_1235 "migrations"
              files_1235 empty_world _ eq_refl eq_refl numeric_1235 H)
    as (s & w2 & H1 & H2 & _).
  exists s, w2. auto.
Defined.


(** the plan of the next run *)
Example resume_at_7 :
  apply_plan files_678
    (current_version env_678_fixed
       (database (after (migrate "migrations" None) env_678 world_5)))
    (apply_target files_678 None) = ["7"; "8"].
Proof. vm_compute. reflexivity. Qed.


Lemma cover_1235 (x : entry) :
  In x (ledger (database world_1235)) -> 1 < version x ->
  exists v, In v (discovered files_1235) /\ parseInt v = Fin (version x).
Proof.
  rewrite discovered_1235.
  intros [<- | [<- | [<- | [<- | []]]]] H; cbn in H; try lia.
  - exists "2". split; [ right; left | ]; reflexivity.
  - exists "3". split; [ right; right; left | ]; reflexivity.
  - exists "5". split; [ right; right; right; left | ]; reflexivity.
Defined.

(** X14 on a ledger with the versions 1, 2, 3 and 5, back to version 1 *)
Lemma X14_witness :
  connect_ok env_1235 = true /\
  select_ok env_1235 = true /\
  readdir env_1235 "migrations" = Some files_1235 /\
  own_tokens files_1235 /\
  safe_run files_1235 (Some "1") (database world_1235) /\
  revert_target (current_version env_1235 (database world_1235)) (Some "1")
  = Fin 1 /\
  rollback "migrations" (Some "1") env_1235 world_1235
  = (Return tt, after (rollback "migrations" (Some "1")) env_1235 world_1235) /\
  ledger (database (after (rollback "migrations" (Some "1")) env_1235
                      world_1235))
  = filter (fun x => version x <=? 1) (ledger (database world_1235)).
Proof.
  assert (Hown : own_tokens files_1235) by (vm_compute; reflexivity).
  assert (Hsafe : safe_run files_1235 (Some "1") (database world_1235))
    by (vm_compute; reflexivity).
  assert (H : rollback "migrations" (Some "1") env_1235 world_1235
              = (Return tt,
                 after (rollback "migrations" (Some "1")) env_1235
                   world_1235))
    by (vm_compute; reflexivity).
  assert (Ht : revert_target (current_version env_1235 (database world_1235))
                 (Some "1") = Fin 1) by (vm_compute; reflexivity).
  split; [ reflexivity | ]. split; [ reflexivity | ].
  split; [ reflexivity | ].
  split; [ exact Hown | ]. split; [ exact Hsafe | ].
  split; [ exact Ht | ]. split; [ exact H | ].
  exact (X14_rollback_removes_the_rows_above_the_target env_1235 "migrations"
           files_1235 (Some "1") world_1235 _ 1 eq_refl eq_refl eq_refl
           Hown Hsafe Ht cover_1235 H).
Defined.

(** X15 on the listing of the versions 1, 2, 3 and 5 and its reverse *)
Lemma X15_witness :
  Permutation files_1235 (rev files_1235) /\
  numeric_versions files_1235 /\
  distinct_versions files_1235 /\
  safe_versions files_1235 = true /\
  sort ascending (discovered (rev files_1235))
  = sort ascending (discovered files_1235).
Proof.
  assert (Hsafe : safe_versions files_1235 = true)
    by (vm_compute; reflexivity).
  split; [ apply Permutation_rev | ].
  split; [ exact numeric_1235 | ]. split; [ exact distinct_1235 | ].
  split; [ exact Hsafe | ].
  exact (proj1 (X15_the_order_of_the_listing_does_not_matter files_1235
                  (rev files_1235) (Permutation_rev files_1235)
                  numeric_1235 distinct_1235 Hsafe)).
Defined.

(** X16 on the directory with the versions 1, 2, 3 and 5: version 3 is
    applied *)
Lemma X16_witness :
  connect_ok env_1235 = true /\
  readdir env_1235 "migrations" = Some files_1235 /\
  own_tokens files_1235 /\
  safe_run files_1235 None (database empty_world) /\
  migrate "migrations" None env_1235 empty_world
  = (Return tt, after (migrate "migrations" None) env_1235 empty_world) /\
  In "3" (discovered files_1235) /\
  apply_range (current_version env_1235 (database empty_world))
    (apply_target files_1235 None) "3" = true /\
  In (unit_entry (scan files_1235) "3")
    (ledger (database (after (migrate "migrations" None) env_1235
                         empty_world))).
Proof.
  assert (Hown : own_tokens files_1235) by (vm_compute; reflexivity).
  assert (Hsafe : safe_run files_1235 None (database empty_world))
    by (vm_compute; reflexivity).
  assert (H : migrate "migrations" None env_1235 empty_world
              = (Return tt,
                 after (migrate "migrations" None) env_1235 empty_world))
    by (vm_compute; reflexivity).
  assert (Hin : In "3" (discovered files_1235))
    by (rewrite discovered_1235; right; right; left; reflexivity).
  assert (Hrg : apply_range (current_version env_1235 (database empty_world))
                  (apply_target files_1235 None) "3" = true)
    by (vm_compute; reflexivity).
  split; [ reflexivity | ]. split; [ reflexivity | ].
  split; [ exact Hown | ]. split; [ exact Hsafe | ].
  split; [ exact H | ]. split; [ exact Hin | ]. split; [ exact Hrg | ].
  exact (proj1 (X16_migrate_applies_the_whole_range env_1235 "migrations"
                  files_1235 None empty_world _ eq_refl eq_refl Hown Hsafe
                  H "3" Hin Hrg)).
Defined.

(** X19 with a YAML section that gives the URL only: the default user is
    lost *)
Lemma X19_witness :
  "surrealigrate.yml" <> "" /\
  yaml_url_only "surrealigrate.yml"
  = Yaml_document
      (Some (Some {| url := Some "ws://yaml"; user := None; pass := None;
                     namespace := None; dbname := None; scope := None |})) /\
  loadConfig yaml_url_only environ_empty (Some "surrealigrate.yml")
    config_default
  = loadConfig yaml_url_only environ_empty (Some "surrealigrate.yml") None /\
  fst (loadConfig yaml_url_only environ_empty (Some "surrealigrate.yml")
         config_default)
  = Return (Some {| url := Some "ws://yaml"; user := None; pass := None;
                    namespace := None; dbname := None; scope := None |}).
Proof.
  assert (Hp : "surrealigrate.yml" <> "") by discriminate.
  split; [ exact Hp | ]. split; [ reflexivity | ].
  split; [ | reflexivity ].
  exact (proj1 (X19_the_yaml_section_replaces_the_default yaml_url_only
                  environ_empty "surrealigrate.yml" _ config_default None
                  Hp eq_refl)).
Defined.

(** X20 on a ledger with the versions 1, 2, 3 and 5, back to version 1,
    where the [undo] script of version 3 fails: version 5 is reverted *)
Lemma X20_witness :
  connect_ok env_undo_3_fails = true /\
  readdir env_undo_3_fails "migrations" = Some files_1235 /\
  numeric_versions files_1235 /\
  safe_run files_1235 (Some "1") (database world_1235) /\
  revert_plan files_1235
    (current_version env_undo_3_fails (database world_1235))
    (revert_target (current_version env_undo_3_fails (database world_1235))
       (Some "1"))
  = ["5"] ++ "3" :: ["2"] /\
  unit_script "migrations" (scan files_1235) "undo" "3"
  = Some (script "3.undo.posts.surql") /\
  script_ok env_undo_3_fails (script "3.undo.posts.surql") = false /\
  exists w',
    rollback "migrations" (Some "1") env_undo_3_fails world_1235
    = (Throw (QueryError (Script (script "3.undo.posts.surql"))), w') /\
    transaction (database w') = None /\
    ledger (database w')
    = delete_versions ["5"] (ledger (database world_1235)).
Proof.
  assert (Hsafe : safe_run files_1235 (Some "1") (database world_1235))
    by (vm_compute; reflexivity).
  assert (Hplan : revert_plan files_1235
                    (current_version env_undo_3_fails (database world_1235))
                    (revert_target
                       (current_version env_undo_3_fails
                          (database world_1235)) (Some "1"))
                  = ["5"] ++ "3" :: ["2"])
    by (vm_compute; reflexivity).
  assert (Hq : unit_script "migrations" (scan files_1235) "undo" "3"
               = Some (script "3.undo.posts.surql"))
    by (vm_compute; reflexivity).
  assert (Hbad : script_ok env_undo_3_fails (script "3.undo.posts.surql")
                 = false)
    by (vm_compute; reflexivity).
  assert (Hok : forall u, In u ["5"] ->
                  exists q,
                    unit_script "migrations" (scan files_1235) "undo" u
                    = Some q /\
                    script_ok env_undo_3_fails q = true).
  { intros u [<- | []]. exists (script "5.undo.tags.surql").
    split; vm_compute; reflexivity. }
  split; [ reflexivity | ]. split; [ reflexivity | ].
  split; [ exact numeric_1235 | ]. split; [ exact Hsafe | ].
  split; [ exact Hplan | ]. split; [ exact Hq | ]. split; [ exact Hbad | ].
  destruct (X20_rollback_stops_at_the_failing_script env_undo_3_fails
              "migrations" files_1235 (Some "1") world_1235
              ["5"] "3" ["2"] (script "3.undo.posts.surql")
              eq_refl eq_refl numeric_1235 Hsafe Hplan Hok Hq Hbad)
    as (w' & executed & H1 & H2 & H3 & _).
  exists w'. auto.
Defined.

(** the ledger after that run: version 5 is deleted, version 3 is kept *)
Example revert_stops_at_3 :
  map version
    (ledger (database (after (rollback "migrations" (Some "1"))
                         env_undo_3_fails world_1235)))
  = [1; 2; 3].
Proof. vm_compute. reflexivity. Qed.

